(** * fmter: a shallow embedding of the multi-format renderer

    The Go package [fmter] renders caller-supplied records as JSON, YAML,
    CSV, a text table, Markdown, a flat list, ENV assignments, plain text,
    TSV, JSON lines, an HTML table or through a text template.  This file
    embeds the package in Rocq, function by function, and proves
    properties of the embedding.

    Conventions of the embedding.
    - A Go [string] is a list of code points ([gostring]): the text is
      taken to be valid UTF-8, [len(s) > 0] is non-emptiness and slicing
      a string by the byte length of one of its prefixes is [drop].
    - A Go [int] is a [Z]; lengths and indices are [nat].
    - A Go slice is [option (list A)]: [None] is the nil slice, which the
      JSON encoder tells apart from an empty one.
    - The sink is an in-memory buffer whose [Write] always succeeds (the
      [bytes.Buffer] of [Marshal]); a rendering is the list of chunks it
      writes, one per call of [Write] on the sink. *)

From Stdlib Require Import ZArith List Lia.
From stdpp Require Import base tactics option list strings gmap.

Local Open Scope Z_scope.

(** ** Strings *)

Definition rune := Z.
Definition gostring := list rune.

(** A string literal, given by its ASCII characters. *)
Definition lit (s : string) : gostring :=
  map (λ a : Ascii.ascii, Z.of_nat (Ascii.nat_of_ascii a)) (String.list_ascii_of_string s).

Definition nl : rune := 10.
Definition dquote : rune := 34.

(** [strings.HasPrefix]. *)
Definition HasPrefix (s prefix : gostring) : bool :=
  bool_decide (take (length prefix) s = prefix).

(** [strings.CutPrefix]: the rest of [s] after [prefix], when [s] starts with it. *)
Definition CutPrefix (s prefix : gostring) : option gostring :=
  if HasPrefix s prefix then Some (drop (length prefix) s) else None.

(** [strings.Join]. *)
Fixpoint Join (elems : list gostring) (sep : gostring) : gostring :=
  match elems with
  | [] => []
  | [e] => e
  | e :: rest => e ++ sep ++ Join rest sep
  end.

(** [strings.Repeat].  Go panics on a negative count; every call site of
    the package passes a count that is at least zero. *)
Definition Repeat (s : gostring) (count : Z) : gostring :=
  concat (replicate (Z.to_nat count) s).

(** [strings.TrimRight(s, " ")]. *)
Fixpoint TrimLeft_space (s : gostring) : gostring :=
  match s with
  | r :: s' => if bool_decide (r = 32) then TrimLeft_space s' else s
  | [] => []
  end.

Definition TrimRight_space (s : gostring) : gostring :=
  reverse (TrimLeft_space (reverse s)).

(** [fmt.Sprintf("%d", n)] for a natural number. *)
Fixpoint uint_digits (u : Decimal.uint) : gostring :=
  match u with
  | Decimal.Nil => []
  | Decimal.D0 u => 48 :: uint_digits u
  | Decimal.D1 u => 49 :: uint_digits u
  | Decimal.D2 u => 50 :: uint_digits u
  | Decimal.D3 u => 51 :: uint_digits u
  | Decimal.D4 u => 52 :: uint_digits u
  | Decimal.D5 u => 53 :: uint_digits u
  | Decimal.D6 u => 54 :: uint_digits u
  | Decimal.D7 u => 55 :: uint_digits u
  | Decimal.D8 u => 56 :: uint_digits u
  | Decimal.D9 u => 57 :: uint_digits u
  end.

Definition Itoa (n : Z) : gostring :=
  match n with
  | Z0 => [48]
  | Zpos p => uint_digits (Pos.to_uint p)
  | Zneg p => 45 :: uint_digits (Pos.to_uint p)
  end.

(** ** Format tags and errors (the package file declaring [Format]) *)

Definition Format := gostring.

Definition JSON : Format := lit "json".
Definition YAML : Format := lit "yaml".
Definition CSV : Format := lit "csv".
Definition Table : Format := lit "table".
Definition Markdown : Format := lit "markdown".
Definition List : Format := lit "list".
Definition ENV : Format := lit "env".
Definition Plain : Format := lit "plain".
Definition TSV : Format := lit "tsv".
Definition JSONL : Format := lit "jsonl".
Definition HTML : Format := lit "html".

Definition goTemplatePrefix : gostring := lit "go-template=".

Definition formats : list Format :=
  [JSON; YAML; CSV; Table; Markdown; List; ENV; Plain; TSV; JSONL; HTML].

(** The three sentinel errors. *)
Inductive sentinel := ErrUnsupportedFormat | ErrMissingInterface | ErrInvalidTemplate.

(** An error value.  The first three wrap a sentinel with [fmt.Errorf("%w: ...")]
    and keep the operands of the format string.  The other two are errors
    that the package passes on as it gets them, from an encoder, the
    template engine, the CSV writer or a caller's method: [ExternalError]
    is one that wraps none of the sentinels, [WrappingError] one that
    wraps the given sentinel. *)
Inductive error :=
| UnsupportedFormatError (tag : gostring)
| MissingInterfaceError (f : Format) (required : gostring) (type_name : gostring)
| InvalidTemplateError (detail : gostring)
| ExternalError (msg : gostring)
| WrappingError (target : sentinel) (msg : gostring).

(** [errors.Is(err, target)] for a sentinel target. *)
Definition errors_Is (err : error) (target : sentinel) : bool :=
  match err, target with
  | UnsupportedFormatError _, ErrUnsupportedFormat => true
  | MissingInterfaceError _ _ _, ErrMissingInterface => true
  | InvalidTemplateError _, ErrInvalidTemplate => true
  | WrappingError ErrUnsupportedFormat _, ErrUnsupportedFormat => true
  | WrappingError ErrMissingInterface _, ErrMissingInterface => true
  | WrappingError ErrInvalidTemplate _, ErrInvalidTemplate => true
  | _, _ => false
  end.

(** [GoTemplate]. *)
Definition GoTemplate (tmpl : gostring) : Format := goTemplatePrefix ++ tmpl.

(** The loop of [ParseFormat] over [formats]. *)
Fixpoint ParseFormat_range (fs : list Format) (s : gostring) : option Format :=
  match fs with
  | [] => None
  | f :: fs' => if bool_decide (f = s) then Some f else ParseFormat_range fs' s
  end.

(** [ParseFormat]: the tag and the error ([None] is Go's nil error). *)
Definition ParseFormat (s : gostring) : Format * option error :=
  if HasPrefix s goTemplatePrefix then (s, None)
  else match ParseFormat_range formats s with
       | Some f => (f, None)
       | None => ([], Some (UnsupportedFormatError s))
       end.

(** ** [Formats] over a heap of backing arrays

    [formats] is a package-level slice; [Formats] allocates a new array
    with [make] and fills it with [copy].  To speak about a caller that
    mutates what it was given, slices are references into a heap. *)

Module Mem.

Definition loc := nat.

(** The heap: backing arrays by location, and the next free location. *)
Record heap := Heap { arrays : gmap loc (list Format); next : loc }.

(** A slice header: backing array and length (offset zero, capacity = length). *)
Record slice := Slice { base : loc; len : nat }.

(** The elements a slice denotes in a heap. *)
Definition contents (h : heap) (s : slice) : option (list Format) :=
  take (len s) <$> arrays h !! base s.

(** [make([]Format, n)]: a fresh array of [n] zero values. *)
Definition make (h : heap) (n : nat) : slice * heap :=
  (Slice (next h) n,
   Heap (<[next h := replicate n ([] : Format)]> (arrays h)) (S (next h))).

(** [copy(dst, src)]: the first [min(len(dst), len(src))] elements. *)
Definition copy (h : heap) (dst src : slice) : heap :=
  match contents h src, arrays h !! base dst with
  | Some from, Some to =>
      let n := Nat.min (len dst) (len src) in
      Heap (<[base dst := take n from ++ drop n to]> (arrays h)) (next h)
  | _, _ => h
  end.

(** [s[i] = v]; [None] is the run-time panic of an index out of range. *)
Definition store (h : heap) (s : slice) (i : nat) (v : Format) : option heap :=
  match arrays h !! base s with
  | Some a => if decide (i < len s)%nat
              then Some (Heap (<[base s := <[i := v]> a]> (arrays h)) (next h))
              else None
  | None => None
  end.

(** The package variable [formats] lives at location 0. *)
Definition formats_loc : loc := 0%nat.
Definition formats_var : slice := Slice formats_loc (length formats).
Definition init : heap := Heap {[ formats_loc := formats ]} 1%nat.

(** [Formats]. *)
Definition Formats (h : heap) : slice * heap :=
  let '(out, h1) := make h (len formats_var) in
  (out, copy h1 out formats_var).

(** A caller of the package: it may call [Formats], keeping the slice it
    gets, and assign to any element of any slice it holds. *)
Inductive action :=
| CallFormats
| Assign (k : nat) (i : nat) (v : Format).

Record caller := Caller { mem : heap; held : list slice }.

Definition step (c : caller) (a : action) : caller :=
  match a with
  | CallFormats =>
      let '(s, h) := Formats (mem c) in Caller h (held c ++ [s])
  | Assign k i v =>
      match held c !! k with
      | Some s => match store (mem c) s i v with
                  | Some h => Caller h (held c)
                  | None => c
                  end
      | None => c
      end
  end.

Definition run (acts : list action) : caller :=
  foldl step (Caller init []) acts.

End Mem.

(** ** Display width (the package [github.com/mattn/go-runewidth])

    The package measures and cuts text with go-runewidth, which works on
    grapheme clusters: it splits a string into clusters with the
    segmentation of Unicode (UAX #29, the package [uniseg]), takes as the
    width of a cluster the width of its first code point that has one,
    and adds the clusters up.  Neither the width tables nor the
    segmentation are part of this repository; they are parameters. *)

(** The clusters of a text in which a new cluster starts at every
    [base] code point and nowhere else. *)
Fixpoint group (base : rune → bool) (s : gostring) : list gostring :=
  match s with
  | [] => []
  | r :: s' =>
      match group base s' with
      | (r' :: c) :: cs => if base r' then [r] :: (r' :: c) :: cs else (r :: r' :: c) :: cs
      | _ => [[r]]
      end
  end.

(** What is used of the library.
    - No width is negative and printable ASCII is one column wide (in
      every condition of the library, East Asian or not).
    - The clusters of a string, put end to end, are the string; none is
      empty; and the clusters of a prefix that ends where a cluster ends
      are the first clusters of the string (the rules of the segmentation
      look at what comes before a boundary and at the one code point
      after it).
    - [base] and [mark] are two classes of code points: stand-alone
      characters, before which the segmentation breaks whatever this
      text has in front of them (letters, digits, punctuation, symbols
      and ideographs of class Other; printable ASCII is among them, a
      control character is not), and combining marks of no width, which
      it joins to what is in front of them (class Extend; the zero-width
      joiner and the emoji modifiers are not among them).  In a text
      made of these only, a cluster is a stand-alone character with the
      marks that follow it. *)
Class Runewidth := {
  RuneWidth : rune → Z;
  RuneWidth_nonneg : ∀ r, 0 ≤ RuneWidth r;
  RuneWidth_ascii : ∀ r, 32 ≤ r < 127 → RuneWidth r = 1;
  graphemes : gostring → list gostring;
  graphemes_concat : ∀ s, concat (graphemes s) = s;
  graphemes_nonempty : ∀ s, Forall (λ c, c ≠ []) (graphemes s);
  graphemes_prefix : ∀ s k,
    graphemes (concat (take k (graphemes s))) = take k (graphemes s);
  base : rune → bool;
  mark : rune → bool;
  base_ascii : ∀ r, 32 ≤ r < 127 → base r = true;
  mark_width : ∀ r, mark r = true → RuneWidth r = 0;
  graphemes_simple : ∀ s,
    Forall (λ r, base r || mark r = true) s → graphemes s = group base s
}.

Section DisplayWidth.
Context `{Runewidth}.

(** The width of a cluster, as both [StringWidth] and [Truncate] take
    it: the loop over the code points of the cluster stops at the first
    one whose width is positive. *)
Fixpoint cluster_width (c : gostring) : Z :=
  match c with
  | [] => 0
  | [r] => RuneWidth r
  | r :: c' => if 0 <? RuneWidth r then RuneWidth r else cluster_width c'
  end.

(** [runewidth.StringWidth]: the widths of the clusters, added up. *)
Definition StringWidth (s : gostring) : Z :=
  foldr (λ c width, cluster_width c + width) 0 (graphemes s).

(** The scan of [runewidth.Truncate]: clusters are kept while the running
    [width] plus the next one does not exceed [w]; what is returned is
    the text before the position where the scan stops. *)
Fixpoint Truncate_scan (w width : Z) (clusters : list gostring) : gostring :=
  match clusters with
  | [] => []
  | c :: clusters' =>
      let cw := cluster_width c in
      if w <? width + cw then [] else c ++ Truncate_scan w (width + cw) clusters'
  end.

(** [runewidth.Truncate(s, w, tail)]. *)
Definition Truncate (s : gostring) (w : Z) (tail : gostring) : gostring :=
  if StringWidth s <=? w then s
  else Truncate_scan (w - StringWidth tail) 0 (graphemes s) ++ tail.

End DisplayWidth.

(** ** Value types *)

Record KeyValue := { Key : gostring; Value : gostring }.

(** [BorderStyle] is an [int]; the five constants are 0 to 4. *)
Definition BorderStyle := Z.
Definition BorderRounded : BorderStyle := 0.
Definition BorderNone : BorderStyle := 1.
Definition BorderASCII : BorderStyle := 2.
Definition BorderHeavy : BorderStyle := 3.
Definition BorderDouble : BorderStyle := 4.

Inductive Alignment := AlignLeft | AlignCenter | AlignRight.

Global Instance Alignment_eq_dec : EqDecision Alignment.
Proof. solve_decision. Defined.

(** ** Table cells (table.go) *)

Record borderChars := {
  topLeft : gostring; topRight : gostring;
  bottomLeft : gostring; bottomRight : gostring;
  horizontal : gostring; vertical : gostring;
  topTee : gostring; bottomTee : gostring;
  leftTee : gostring; rightTee : gostring;
  cross : gostring
}.

(** [borderSets]: a map with an entry for each of the four bordered
    styles; the lookup of any other style, [BorderNone] included, is the
    zero value, whose glyphs are all empty. *)
Definition borderSets (style : BorderStyle) : borderChars :=
  if bool_decide (style = BorderRounded) then
    {| topLeft := [0x256D]; topRight := [0x256E];
       bottomLeft := [0x2570]; bottomRight := [0x256F];
       horizontal := [0x2500]; vertical := [0x2502];
       topTee := [0x252C]; bottomTee := [0x2534];
       leftTee := [0x251C]; rightTee := [0x2524];
       cross := [0x253C] |}
  else if bool_decide (style = BorderASCII) then
    {| topLeft := lit "+"; topRight := lit "+";
       bottomLeft := lit "+"; bottomRight := lit "+";
       horizontal := lit "-"; vertical := lit "|";
       topTee := lit "+"; bottomTee := lit "+";
       leftTee := lit "+"; rightTee := lit "+";
       cross := lit "+" |}
  else if bool_decide (style = BorderHeavy) then
    {| topLeft := [0x250F]; topRight := [0x2513];
       bottomLeft := [0x2517]; bottomRight := [0x251B];
       horizontal := [0x2501]; vertical := [0x2503];
       topTee := [0x2533]; bottomTee := [0x253B];
       leftTee := [0x2523]; rightTee := [0x252B];
       cross := [0x254B] |}
  else if bool_decide (style = BorderDouble) then
    {| topLeft := [0x2554]; topRight := [0x2557];
       bottomLeft := [0x255A]; bottomRight := [0x255D];
       horizontal := [0x2550]; vertical := [0x2551];
       topTee := [0x2566]; bottomTee := [0x2569];
       leftTee := [0x2560]; rightTee := [0x2563];
       cross := [0x256C] |}
  else
    {| topLeft := []; topRight := []; bottomLeft := []; bottomRight := [];
       horizontal := []; vertical := []; topTee := []; bottomTee := [];
       leftTee := []; rightTee := []; cross := [] |}.

(** [colCount]. *)
Definition colCount (header : list gostring) (rows : list (list gostring))
    (footer : list gostring) : nat :=
  let n := length header in
  let n := foldl (λ n row, if bool_decide (n < length row)%nat then length row else n) n rows in
  if bool_decide (n < length footer)%nat then length footer else n.

(** [extendAligns]. *)
Definition extendAligns (aligns : list Alignment) (numCols : nat) : list Alignment :=
  if bool_decide (numCols ≤ length aligns)%nat then take numCols aligns
  else aligns ++ replicate (numCols - length aligns) AlignLeft.

(** [extendStyles]; a nil style function is [None]. *)
Definition extendStyles (styles : list (option (gostring → gostring))) (numCols : nat)
    : list (option (gostring → gostring)) :=
  if bool_decide (numCols ≤ length styles)%nat then take numCols styles
  else styles ++ replicate (numCols - length styles) None.

(** [maxLines]. *)
Definition maxLines (wrapped : list (list gostring)) : nat :=
  foldl (λ n lines, if bool_decide (n < length lines)%nat then length lines else n) 1%nat wrapped.

(** [tableInnerWidth]. *)
Definition tableInnerWidth (widths : list Z) : Z :=
  let n := foldl (λ n w, n + (w + 2)) 0 widths in
  if bool_decide (1 < length widths)%nat then n + (Z.of_nat (length widths) - 1) else n.

Section Cells.
Context `{Runewidth}.

(** One pass of the loops of [computeWidths] over the cells of a line:
    [widths[i]] grows to the width of cell [i].  The loop over the rows
    and the footer tests [i < numCols]; the one over the header does not,
    and [numCols] is at least [len(header)] where it is called. *)
Fixpoint widen (numCols : nat) (i : nat) (cells : list gostring) (widths : list Z)
    : list Z :=
  match cells with
  | [] => widths
  | cell :: rest =>
      let w := StringWidth cell in
      let widths :=
        if bool_decide (i < numCols)%nat && (default 0 (widths !! i) <? w)
        then <[i := w]> widths else widths in
      widen numCols (S i) rest widths
  end.

(** [computeWidths]. *)
Definition computeWidths (numCols : nat) (header : list gostring)
    (rows : list (list gostring)) (footer : list gostring) : list Z :=
  let widths := replicate numCols 0 in
  let widths := widen numCols 0 header widths in
  let widths := foldl (λ widths row, widen numCols 0 row widths) widths rows in
  widen numCols 0 footer widths.

(** The body of the loop of [wrapCell]: one line is cut off [s]. *)
Definition wrapCell_body (width : Z) (st : list gostring * gostring)
    : list gostring * gostring :=
  let '(lines, s) := st in
  let line := Truncate s width [] in
  let lineWidth := StringWidth line in
  let line :=
    if (lineWidth =? 0) && bool_decide (0 < length s)%nat
    then take 1 s   (* string(r[0]) *)
    else line in
  (lines ++ [line], drop (length line) s).

(** The loop [for len(s) > 0] of [wrapCell], run for at most [fuel]
    iterations; [None] when the loop has not ended by then. *)
Fixpoint wrapCell_loop (fuel : nat) (width : Z) (st : list gostring * gostring)
    : option (list gostring) :=
  match st.2 with
  | [] => Some st.1
  | _ :: _ =>
      match fuel with
      | O => None
      | S fuel => wrapCell_loop fuel width (wrapCell_body width st)
      end
  end.

(** [wrapCell] with a bound on the iterations of its loop. *)
Definition wrapCell_run (fuel : nat) (s : gostring) (width : Z)
    : option (list gostring) :=
  if (width <=? 0) || (StringWidth s <=? width) then Some [s]
  else wrapCell_loop fuel width ([], s).

(** [wrapCell].  The loop is given [len(s)] iterations, which is enough
    ([wrapCell_run_enough] below), so the default is never taken. *)
Definition wrapCell (s : gostring) (width : Z) : list gostring :=
  default [s] (wrapCell_run (length s) s width).

(** [wrapRow]. *)
Definition wrapRow (cells : list gostring) (widths wrapWidths : list Z)
    : list (list gostring) :=
  imap (λ i width,
          let cell := default [] (cells !! i) in
          let ww := default 0 (wrapWidths !! i) in
          if (0 <? ww) && (ww <? width) then wrapCell cell ww else [cell])
       widths.

(** [alignCell]. *)
Definition alignCell (s : gostring) (width : Z) (align : Alignment) : gostring :=
  let pad := width - StringWidth s in
  if pad <=? 0 then s
  else match align with
       | AlignRight => Repeat (lit " ") pad ++ s
       | AlignCenter =>
           let left := pad / 2 in
           let right := pad - left in
           Repeat (lit " ") left ++ s ++ Repeat (lit " ") right
       | AlignLeft => s ++ Repeat (lit " ") pad
       end.

(** [formatTableCell]. *)
Definition formatTableCell (s : gostring) (width : Z) (align : Alignment) : gostring :=
  let s :=
    if (0 <? width) && (width <? StringWidth s)
    then if width <=? 3 then Truncate s width [] else Truncate s width (lit "...")
    else s in
  alignCell s width align.

End Cells.

(** ** JSON documents ([encoding/json])

    What the encoder makes of a Go value is a JSON document; the embedding
    keeps the document and prints it the way the encoder does. *)

#[local] Set Warnings "-register-all".
Inductive JValue :=
| JNull
| JBool (b : bool)
| JNumber (n : Z)
| JString (s : gostring)
| JArray (elems : list JValue)
| JObject (fields : list (gostring * JValue)).

Definition hex_digit (n : Z) : rune := if n <? 10 then 48 + n else 87 + n.

(** The escape [\u00XX] of a code point below 256. *)
Definition json_u00 (r : rune) : gostring :=
  lit "\u00" ++ [hex_digit (r / 16); hex_digit (r mod 16)].

(** One code point inside a JSON string. *)
Definition json_escape_rune (escapeHTML : bool) (r : rune) : gostring :=
  if (r =? 34) || (r =? 92) then [92; r]
  else if r =? 8 then lit "\b"
  else if r =? 12 then lit "\f"
  else if r =? 10 then lit "\n"
  else if r =? 13 then lit "\r"
  else if r =? 9 then lit "\t"
  else if r <? 32 then json_u00 r
  else if escapeHTML && ((r =? 60) || (r =? 62) || (r =? 38)) then json_u00 r
  else if r =? 0x2028 then lit "\u2028"
  else if r =? 0x2029 then lit "\u2029"
  else [r].

Definition json_string (escapeHTML : bool) (s : gostring) : gostring :=
  [dquote] ++ concat (map (json_escape_rune escapeHTML) s) ++ [dquote].

(** The line break of [json.Indent] at nesting [depth]; nothing when the
    document is compact ([indent] is [None]). *)
Definition json_newline (indent : option gostring) (depth : nat) : gostring :=
  match indent with
  | None => []
  | Some i => nl :: concat (replicate depth i)
  end.

(** The text of a document, compact or indented. *)
Fixpoint json_text (escapeHTML : bool) (indent : option gostring) (depth : nat)
    (v : JValue) : gostring :=
  match v with
  | JNull => lit "null"
  | JBool true => lit "true"
  | JBool false => lit "false"
  | JNumber n => Itoa n
  | JString s => json_string escapeHTML s
  | JArray [] => lit "[]"
  | JArray elems =>
      lit "[" ++ json_newline indent (S depth)
      ++ Join (map (json_text escapeHTML indent (S depth)) elems)
              (lit "," ++ json_newline indent (S depth))
      ++ json_newline indent depth ++ lit "]"
  | JObject [] => lit "{}"
  | JObject fields =>
      lit "{" ++ json_newline indent (S depth)
      ++ Join (map (λ kv : gostring * JValue,
                      json_string escapeHTML kv.1 ++ lit ":"
                      ++ (if indent is Some _ then lit " " else [])
                      ++ json_text escapeHTML indent (S depth) kv.2) fields)
              (lit "," ++ json_newline indent (S depth))
      ++ json_newline indent depth ++ lit "}"
  end.

(** ** Items and their capabilities

    An item is a Go value of the caller's type.  The package sees it only
    through type assertions and through the encoders: a field is [Some]
    when the dynamic type of the item implements the interface, and then
    holds what the method returns. *)

(** What [Formatter.Format] returns: an error, non-nil bytes, or [(nil, nil)]. *)
Inductive formatted :=
| FormatError (e : error)
| FormatBytes (data : gostring)
| FormatNil.

Record Item := {
  type_name : gostring;                  (* fmt's %T *)
  default_text : gostring;               (* fmt's %v *)
  json_value : option JValue;            (* [None]: json cannot encode it *)
  json_error : error;                    (* and this is the encoder's error then *)
  Stringer_String : option gostring;
  Formatter_Format : option (Format → formatted);
  Indented_Indent : option gostring;
  Rower_Row : option (list gostring);
  Lister_List : option (list gostring);
  Mappable_Pairs : option (list KeyValue);
  Headed_Header : option (list gostring);
  Titled_Title : option gostring;
  Bordered_Border : option BorderStyle;
  Aligned_Alignments : option (list Alignment);
  Footered_Footer : option (list gostring);
  Numbered_NumberHeader : option gostring;
  Captioned_Caption : option gostring;
  Truncated_MaxWidths : option (list Z);
  Delimited_Delimiter : option rune;
  Separator_Sep : option gostring;
  Exported_Export : option bool;
  Quoted_Quote : option bool;
  Styled_Styles : option (list (option (gostring → gostring)));
  Grouped_Group : option gostring;
  Wrapped_WrapWidths : option (list Z);
  Paged_PageSize : option Z
}.

(** A value of no interface: [any(nil)], or a struct without methods. *)
Definition plain_item (name text : gostring) (j : option JValue) : Item :=
  {| type_name := name; default_text := text; json_value := j;
     json_error := ExternalError (lit "json: unsupported type: " ++ name);
     Stringer_String := None; Formatter_Format := None; Indented_Indent := None;
     Rower_Row := None; Lister_List := None; Mappable_Pairs := None;
     Headed_Header := None; Titled_Title := None; Bordered_Border := None;
     Aligned_Alignments := None; Footered_Footer := None;
     Numbered_NumberHeader := None; Captioned_Caption := None;
     Truncated_MaxWidths := None; Delimited_Delimiter := None;
     Separator_Sep := None; Exported_Export := None; Quoted_Quote := None;
     Styled_Styles := None; Grouped_Group := None; Wrapped_WrapWidths := None;
     Paged_PageSize := None |}.

(** A Go slice of items: [None] is nil. *)
Definition slice (A : Type) := option (list A).
Definition elems {A} (s : slice A) : list A := default [] s.

(** What is handed to an encoder: one item, or the slice of all of them. *)
Inductive GoValue :=
| VItem (x : Item)
| VSlice (xs : slice Item).

(** The JSON document of a value: a nil slice is [null], any other slice
    an array. *)
Definition json_of (v : GoValue) : option JValue :=
  match v with
  | VItem x => json_value x
  | VSlice None => Some JNull
  | VSlice (Some xs) => JArray <$> mapM json_value xs
  end.

(** The error of the JSON encoder for a value it cannot encode: that of
    the item, or of the first item of the slice that it cannot encode. *)
Definition json_error_of (v : GoValue) : error :=
  match v with
  | VItem x => json_error x
  | VSlice xs =>
      match List.find (λ x, if json_value x is Some _ then false else true) (elems xs) with
      | Some x => json_error x
      | None => ExternalError []
      end
  end.

(** ** The encoders and the template engine the package calls

    [yaml.v3], [text/template] and [strconv.Quote] (the verb [%q]) are not
    part of the repository; they are parameters of the embedding. *)
Class Externals := {
  (** [Encode] followed by [Close] of a YAML encoder with the given indent:
      the document, or the error. *)
  yaml_Encode : option Z → GoValue → gostring + error;
  template : Type;
  (** [template.New("").Parse]: the template, or the text of the error. *)
  template_Parse : gostring → template + gostring;
  (** [Execute]: what was written, and the error that stopped it, if any. *)
  template_Execute : template → Item → gostring * option error;
  strconv_Quote : gostring → gostring
}.

(** ** Renderings

    A rendering is the chunks written to the sink, in order, and how the
    call ended: a result, an error, or a run-time panic. *)

Inductive status (A : Type) :=
| Ok (a : A)
| Fail (e : error)
| Crash.
Arguments Ok {A} a.
Arguments Fail {A} e.
Arguments Crash {A}.

Definition W (A : Type) : Type := list gostring * status A.

Global Instance W_ret : MRet W := λ A a, ([], Ok a).

Global Instance W_bind : MBind W := λ A B f m,
  match m with
  | (out, Ok a) => let '(out', r) := f a in (out ++ out', r)
  | (out, Fail e) => (out, Fail e)
  | (out, Crash) => (out, Crash)
  end.

(** One call of [Write] on the sink. *)
Definition write (p : gostring) : W unit := ([p], Ok tt).
Definition fail {A} (e : error) : W A := ([], Fail e).
Definition crash {A} : W A := ([], Crash).

(** [fmt.Fprintln(w, s)]. *)
Definition Fprintln (s : gostring) : W unit := write (s ++ [nl]).

(** [for _, x := range l { body }] *)
Fixpoint range {A} (l : list A) (body : A → W unit) : W unit :=
  match l with
  | [] => mret tt
  | x :: l' => body x ;; range l' body
  end.

(** [for i, x := range l { body }], counting from [i]. *)
Fixpoint range_from {A} (i : nat) (l : list A) (body : nat → A → W unit) : W unit :=
  match l with
  | [] => mret tt
  | x :: l' => body i x ;; range_from (S i) l' body
  end.

(** [for i, x := range l] collecting one result per element. *)
Fixpoint collect {A B} (l : list A) (f : A → W B) : W (list B) :=
  match l with
  | [] => mret []
  | x :: l' => y ← f x; ys ← collect l' f; mret (y :: ys)
  end.

(** The bytes of a rendering. *)
Definition bytes {A} (m : W A) : gostring := concat m.1.

(** A writer behind a [bufio] buffer that is flushed when the computation
    is over: what [m] writes reaches the sink in one chunk, and not at all
    when [m] stops early.  (The buffer of 4096 bytes is not modelled: a
    larger output reaches the sink in more than one chunk, the first of
    them before [m] is over.) *)
Definition buffered (m : W unit) : W unit :=
  match m with
  | (out, Ok _) => (if bool_decide (concat out = []) then [] else [concat out], Ok tt)
  | (_, Fail e) => ([], Fail e)
  | (_, Crash) => ([], Crash)
  end.

(** The type assertions [any(item).(I).M()], which panic on an item that
    does not implement [I]. *)
Definition assert {A} (m : option A) : W A :=
  match m with
  | Some a => mret a
  | None => crash
  end.

(** ** The renderers *)

(** [len(s)]: the number of bytes of the UTF-8 encoding. *)
Definition len (s : gostring) : Z :=
  foldr (λ r n, (if r <? 0x80 then 1 else if r <? 0x800 then 2
                 else if r <? 0x10000 then 3 else 4) + n) 0 s.

(** [html.EscapeString]. *)
Definition html_EscapeString (s : gostring) : gostring :=
  concat (map (λ r : rune,
                 if r =? 38 then lit "&amp;"
                 else if r =? 39 then lit "&#39;"
                 else if r =? 60 then lit "&lt;"
                 else if r =? 62 then lit "&gt;"
                 else if r =? 34 then lit "&#34;"
                 else [r]) s).

(** [unicode.IsSpace]. *)
Definition unicode_IsSpace (r : rune) : bool :=
  ((9 <=? r) && (r <=? 13)) || (r =? 32) || (r =? 0x85) || (r =? 0xA0)
  || (r =? 0x1680) || ((0x2000 <=? r) && (r <=? 0x200A))
  || (r =? 0x2028) || (r =? 0x2029) || (r =? 0x202F) || (r =? 0x205F)
  || (r =? 0x3000).

(** The writer of [encoding/csv], with [UseCRLF] off. *)
Definition csv_validDelim (r : rune) : bool :=
  negb ((r =? 0) || (r =? 34) || (r =? 13) || (r =? 10) || (r =? 0xFFFD))
  && (((0 <=? r) && (r <? 0xD800)) || ((0xDFFF <? r) && (r <=? 0x10FFFF))).

Definition csv_fieldNeedsQuotes (comma : rune) (field : gostring) : bool :=
  match field with
  | [] => false
  | r1 :: _ =>
      bool_decide (field = lit "\.")
      || existsb (λ c, (c =? 10) || (c =? 13) || (c =? 34) || (c =? comma)) field
      || unicode_IsSpace r1
  end.

Definition csv_field (comma : rune) (field : gostring) : gostring :=
  if csv_fieldNeedsQuotes comma field
  then [dquote] ++ concat (map (λ r : rune, if r =? 34 then [dquote; dquote] else [r]) field)
       ++ [dquote]
  else field.

(** [Write] of a [csv.Writer], into the buffer of the writer. *)
Definition csv_Write (comma : rune) (record : list gostring) : W unit :=
  if csv_validDelim comma
  then write (Join (map (csv_field comma) record) [comma] ++ [nl])
  else fail (ExternalError (lit "csv: invalid field or comment delimiter")).

(** [Encode] of a [json.Encoder] made with [json.NewEncoder(w)]
    and set up with [SetEscapeHTML(escapeHTML)] and [SetIndent("", indent)]:
    one write of the document and a newline; for a value that cannot be
    encoded, nothing is written and the error is the encoder's for that
    value, which the callers return as it is. *)
Definition json_Encode (escapeHTML : bool) (indent : gostring) (v : GoValue) : W unit :=
  match json_of v with
  | Some j =>
      write (json_text escapeHTML
               (if bool_decide (indent = []) then None else Some indent) 0 j ++ [nl])
  | None => fail (json_error_of v)
  end.

(** [alignStyle] (html.go). *)
Definition alignStyle (aligns : list Alignment) (col : nat) : gostring :=
  match aligns !! col with
  | None => []
  | Some AlignRight => [32] ++ lit "style=" ++ [dquote] ++ lit "text-align: right" ++ [dquote]
  | Some AlignCenter => [32] ++ lit "style=" ++ [dquote] ++ lit "text-align: center" ++ [dquote]
  | Some AlignLeft => []
  end.

Section Renderers.
Context `{Runewidth} `{Externals}.

(** [writeJSON] (json.go). *)
Definition writeJSON (items : slice Item) : W unit :=
  let indent :=
    match elems items with
    | first :: _ => default [] (Indented_Indent first)
    | [] => []
    end in
  match elems items with
  | [x] => json_Encode true indent (VItem x)
  | _ => json_Encode true indent (VSlice items)
  end.

(** [writeYAML] (yaml.go). *)
Definition writeYAML (items : slice Item) : W unit :=
  let indent :=
    match elems items with
    | first :: _ => len <$> Indented_Indent first
    | [] => None
    end in
  let doc :=
    match elems items with
    | [x] => yaml_Encode indent (VItem x)
    | _ => yaml_Encode indent (VSlice items)
    end in
  match doc with
  | inl out => write out
  | inr e => fail e
  end.

(** [writeCSV] (csv.go). *)
Definition writeCSV (items : slice Item) : W unit :=
  match elems items with
  | [] => mret tt
  | first :: _ =>
      match Rower_Row first with
      | None => fail (MissingInterfaceError CSV (lit "Rower") (type_name first))
      | Some _ =>
          let comma := default 44 (Delimited_Delimiter first) in
          buffered (
            match Headed_Header first with
            | Some header => csv_Write comma header
            | None => mret tt
            end ;;
            range (elems items) (λ item,
              row ← assert (Rower_Row item); csv_Write comma row))
      end
  end.

(** Modelled from the spec: [writeCSVRow], which the streaming CSV path
    calls for every item after the first and whose source is not in the
    repository files at hand.  The specification says a later item is
    appended as a standalone row; the package's own test expects
    [writeCSVRow(&buf, []string{"a", "b"})] to write [a,b] and a newline.
    It gets the sink and the row only, so it writes with the default
    comma. *)
Definition writeCSVRow (row : list gostring) : W unit :=
  buffered (csv_Write 44 row).

(** [writeTSV]. *)
Definition writeTSV (items : slice Item) : W unit :=
  match elems items with
  | [] => mret tt
  | first :: _ =>
      match Rower_Row first with
      | None => fail (MissingInterfaceError TSV (lit "Rower") (type_name first))
      | Some _ =>
          match Headed_Header first with
          | Some header => Fprintln (Join header [9])
          | None => mret tt
          end ;;
          range (elems items) (λ item,
            row ← assert (Rower_Row item); Fprintln (Join row [9]))
      end
  end.

(** [writeList] (list.go). *)
Definition writeList (items : slice Item) : W unit :=
  match elems items with
  | [] => mret tt
  | first :: _ =>
      match Lister_List first with
      | None => fail (MissingInterfaceError List (lit "Lister") (type_name first))
      | Some _ =>
          let sep := default [nl] (Separator_Sep first) in
          lists ← collect (elems items) (λ item, assert (Lister_List item));
          let all := concat lists in
          if bool_decide (all = []) then mret tt
          else write (Join all sep ++ [nl])
      end
  end.

(** [writeENV] (env.go). *)
Definition writeENV (items : slice Item) : W unit :=
  match elems items with
  | [] => mret tt
  | first :: _ =>
      match Mappable_Pairs first with
      | None => fail (MissingInterfaceError ENV (lit "Mappable") (type_name first))
      | Some _ =>
          let export := default false (Exported_Export first) in
          let quoted := default false (Quoted_Quote first) in
          let prefix := if export then lit "export " else [] in
          range_from 0 (elems items) (λ i item,
            (if bool_decide (0 < i)%nat then Fprintln [] else mret tt) ;;
            pairs ← assert (Mappable_Pairs item);
            range pairs (λ kv,
              if quoted
              then write (prefix ++ Key kv ++ lit "=" ++ strconv_Quote (Value kv) ++ [nl])
              else write (prefix ++ Key kv ++ lit "=" ++ Value kv ++ [nl])))
      end
  end.

(** [writePlain]. *)
Definition writePlain (items : slice Item) : W unit :=
  range (elems items) (λ item,
    let s := match Stringer_String item with
             | Some str => str
             | None => default_text item
             end in
    Fprintln s).

(** [writeJSONL]. *)
Definition writeJSONL (items : slice Item) : W unit :=
  range (elems items) (λ item,
    json_Encode true (default [] (Indented_Indent item)) (VItem item)).

(** One row of [<th>] or [<td>] cells of [writeHTML]. *)
Definition writeHTML_cells (tag : gostring) (aligns : list Alignment)
    (cells : list gostring) : W unit :=
  range_from 0 cells (λ i cell,
    write (lit "      <" ++ tag ++ alignStyle aligns i ++ lit ">"
           ++ html_EscapeString cell ++ lit "</" ++ tag ++ lit ">" ++ [nl])).

(** [writeHTML] (html.go). *)
Definition writeHTML (items : slice Item) : W unit :=
  match elems items with
  | [] => mret tt
  | first :: _ =>
      match Rower_Row first with
      | None => fail (MissingInterfaceError HTML (lit "Rower") (type_name first))
      | Some _ =>
          let aligns := default [] (Aligned_Alignments first) in
          Fprintln (lit "<table>") ;;
          match Titled_Title first with
          | Some title =>
              if bool_decide (title ≠ [])
              then write (lit "  <caption>" ++ html_EscapeString title
                          ++ lit "</caption>" ++ [nl])
              else mret tt
          | None => mret tt
          end ;;
          match Headed_Header first with
          | Some header =>
              Fprintln (lit "  <thead>") ;;
              Fprintln (lit "    <tr>") ;;
              writeHTML_cells (lit "th") aligns header ;;
              Fprintln (lit "    </tr>") ;;
              Fprintln (lit "  </thead>")
          | None => mret tt
          end ;;
          Fprintln (lit "  <tbody>") ;;
          range (elems items) (λ item,
            row ← assert (Rower_Row item);
            Fprintln (lit "    <tr>") ;;
            writeHTML_cells (lit "td") aligns row ;;
            Fprintln (lit "    </tr>")) ;;
          Fprintln (lit "  </tbody>") ;;
          match Footered_Footer first with
          | Some footer =>
              Fprintln (lit "  <tfoot>") ;;
              Fprintln (lit "    <tr>") ;;
              writeHTML_cells (lit "td") aligns footer ;;
              Fprintln (lit "    </tr>") ;;
              Fprintln (lit "  </tfoot>")
          | None => mret tt
          end ;;
          Fprintln (lit "</table>")
      end
  end.

(** [writeGoTemplate]. *)
Definition writeGoTemplate (tmplStr : gostring) (items : slice Item) : W unit :=
  match template_Parse tmplStr with
  | inr detail => fail (InvalidTemplateError detail)
  | inl tmpl =>
      range (elems items) (λ item,
        let '(out, err) := template_Execute tmpl item in
        write out ;;
        match err with
        | Some e => fail e
        | None => Fprintln []
        end)
  end.

End Renderers.

Section Tables.
Context `{Runewidth}.

(** *** Markdown (markdown.go) *)

(** [writeMarkdownRow]. *)
Definition writeMarkdownRow (cells : list gostring) (widths : list Z)
    (aligns : list Alignment) : W unit :=
  let padded :=
    imap (λ i width,
            let cell := default [] (cells !! i) in
            alignCell cell width (default AlignLeft (aligns !! i)))
         widths in
  write (lit "| " ++ Join padded (lit " | ") ++ lit " |" ++ [nl]).

(** The column widths [writeMarkdown] computes: the header, then every
    row, then the floor of 3. *)
Definition writeMarkdown_widths (header : list gostring) (rows : list (list gostring))
    : list Z :=
  let numCols := length header in
  let widths := replicate numCols 0 in
  let widths := widen numCols 0 header widths in
  let widths := foldl (λ widths row, widen numCols 0 row widths) widths rows in
  map (λ w : Z, if w <? 3 then 3 else w) widths.

(** The markers of the separator row of [writeMarkdown]. *)
Definition writeMarkdown_sep (widths : list Z) (aligns : list Alignment)
    : list gostring :=
  imap (λ i width,
          match default AlignLeft (aligns !! i) with
          | AlignRight => Repeat (lit "-") (width - 1) ++ lit ":"
          | AlignCenter => lit ":" ++ Repeat (lit "-") (width - 2) ++ lit ":"
          | AlignLeft => Repeat (lit "-") width
          end)
       widths.

(** [writeMarkdown]. *)
Definition writeMarkdown (items : slice Item) : W unit :=
  match elems items with
  | [] => mret tt
  | first :: _ =>
      match Rower_Row first with
      | None => fail (MissingInterfaceError Markdown (lit "Rower") (type_name first))
      | Some _ =>
          match Headed_Header first with
          | None => fail (MissingInterfaceError Markdown (lit "Headed") (type_name first))
          | Some header =>
              let numCols := length header in
              rows ← collect (elems items) (λ item, assert (Rower_Row item));
              let widths := writeMarkdown_widths header rows in
              let aligns := default [] (Aligned_Alignments first) in
              let aligns := extendAligns aligns numCols in
              writeMarkdownRow header widths aligns ;;
              write (lit "| " ++ Join (writeMarkdown_sep widths aligns) (lit " | ")
                     ++ lit " |" ++ [nl]) ;;
              range rows (λ row, writeMarkdownRow row widths aligns)
          end
      end
  end.

(** *** Table (table.go) *)

(** A formatted cell with the style function of its column applied. *)
Definition styled_cell (aligns : list Alignment)
    (styles : list (option (gostring → gostring)))
    (i : nat) (width : Z) (cell : gostring) : gostring :=
  let formatted := formatTableCell cell width (default AlignLeft (aligns !! i)) in
  match default None (styles !! i) with
  | Some style => style formatted
  | None => formatted
  end.

(** The cell of column [i] on a line: [cells[i]], or the empty string. *)
Definition cell_at (cells : list gostring) (i : nat) : gostring :=
  default [] (cells !! i).

(** The cell of column [i] on display line [line] of a wrapped row. *)
Definition wrapped_at (wrapped : list (list gostring)) (i line : nat) : gostring :=
  default [] (default [] (wrapped !! i) !! line).

(** [writePlainSep]. *)
Definition writePlainSep (widths : list Z) : W unit :=
  let sep := map (λ width, Repeat (lit "-") width) widths in
  Fprintln (Join sep (lit "  ")).

(** [writePlainRow]. *)
Definition writePlainRow (cells : list gostring) (widths : list Z)
    (aligns : list Alignment) (styles : list (option (gostring → gostring)))
    (wrapWidths : list Z) : W unit :=
  if bool_decide (0 < length wrapWidths)%nat then
    let wrapped := wrapRow cells widths wrapWidths in
    let nLines := maxLines wrapped in
    range (seq 0 nLines) (λ line,
      let parts :=
        imap (λ i width, styled_cell aligns styles i width (wrapped_at wrapped i line))
             widths in
      let text := TrimRight_space (Join parts (lit "  ")) in
      Fprintln text)
  else
    let parts :=
      imap (λ i width, styled_cell aligns styles i width (cell_at cells i)) widths in
    let line := TrimRight_space (Join parts (lit "  ")) in
    Fprintln line.

(** The test [len(groups) > 0 && i > 0 && groups[i] != groups[i-1]]. *)
Definition group_break (groups : list gostring) (i : nat) : bool :=
  bool_decide (0 < length groups)%nat && bool_decide (0 < i)%nat
  && bool_decide (default [] (groups !! i) ≠ default [] (groups !! (i - 1)%nat)).

(** The test [pageSize > 0 && len(header) > 0 && i > 0 && i%pageSize == 0]. *)
Definition page_break (pageSize : Z) (header : list gostring) (i : nat) : bool :=
  (0 <? pageSize) && bool_decide (0 < length header)%nat && bool_decide (0 < i)%nat
  && (Z.rem (Z.of_nat i) pageSize =? 0).

(** [renderPlainTable]. *)
Definition renderPlainTable (header : list gostring) (rows : list (list gostring))
    (footer : list gostring) (widths : list Z) (aligns : list Alignment)
    (styles : list (option (gostring → gostring))) (groups : list gostring)
    (wrapWidths : list Z) (pageSize : Z) : W unit :=
  (if bool_decide (0 < length header)%nat then
     writePlainRow header widths aligns styles wrapWidths ;;
     writePlainSep widths
   else mret tt) ;;
  range_from 0 rows (λ i row,
    (if group_break groups i then writePlainSep widths else mret tt) ;;
    (if page_break pageSize header i then
       writePlainSep widths ;;
       writePlainRow header widths aligns styles wrapWidths ;;
       writePlainSep widths
     else mret tt) ;;
    writePlainRow row widths aligns styles wrapWidths) ;;
  (if bool_decide (0 < length footer)%nat then
     writePlainSep widths ;;
     writePlainRow footer widths aligns styles wrapWidths
   else mret tt).

(** The line [drawHLine] builds. *)
Definition drawHLine_text (widths : list Z) (left fill mid right : gostring) : gostring :=
  left
  ++ concat (imap (λ i width,
                     Repeat fill (width + 2)
                     ++ (if bool_decide (S i < length widths)%nat then mid else []))
                  widths)
  ++ right.

(** [drawHLine]. *)
Definition drawHLine (widths : list Z) (left fill mid right : gostring) : W unit :=
  Fprintln (drawHLine_text widths left fill mid right).

(** The line [drawBorderedRow] builds from the cell of each column. *)
Definition drawBorderedRow_text (cell : nat → gostring) (widths : list Z)
    (aligns : list Alignment) (vert : gostring)
    (styles : list (option (gostring → gostring))) : gostring :=
  vert
  ++ concat (imap (λ i width,
                     lit " " ++ styled_cell aligns styles i width (cell i) ++ lit " "
                     ++ (if bool_decide (S i < length widths)%nat then vert else []))
                  widths)
  ++ vert.

(** [drawBorderedRow]. *)
Definition drawBorderedRow (cells : list gostring) (widths : list Z)
    (aligns : list Alignment) (vert : gostring)
    (styles : list (option (gostring → gostring))) (wrapWidths : list Z) : W unit :=
  if bool_decide (0 < length wrapWidths)%nat then
    let wrapped := wrapRow cells widths wrapWidths in
    let nLines := maxLines wrapped in
    range (seq 0 nLines) (λ line,
      Fprintln (drawBorderedRow_text (λ i, wrapped_at wrapped i line)
                  widths aligns vert styles))
  else
    Fprintln (drawBorderedRow_text (cell_at cells) widths aligns vert styles).

(** [renderBorderedTable]. *)
Definition renderBorderedTable (title : gostring) (header : list gostring)
    (rows : list (list gostring)) (footer : list gostring) (widths : list Z)
    (aligns : list Alignment) (style : BorderStyle)
    (styles : list (option (gostring → gostring))) (groups : list gostring)
    (wrapWidths : list Z) (pageSize : Z) : W unit :=
  let bc := borderSets style in
  let sepLine := drawHLine widths (leftTee bc) (horizontal bc) (cross bc) (rightTee bc) in
  (if bool_decide (title ≠ []) then
     drawHLine widths (topLeft bc) (horizontal bc) (horizontal bc) (topRight bc) ;;
     let inner := tableInnerWidth widths - 2 in
     let padded := alignCell title inner AlignCenter in
     write (vertical bc ++ lit " " ++ padded ++ lit " " ++ vertical bc ++ [nl]) ;;
     drawHLine widths (leftTee bc) (horizontal bc) (topTee bc) (rightTee bc)
   else
     drawHLine widths (topLeft bc) (horizontal bc) (topTee bc) (topRight bc)) ;;
  (if bool_decide (0 < length header)%nat then
     drawBorderedRow header widths aligns (vertical bc) styles wrapWidths ;;
     sepLine
   else mret tt) ;;
  range_from 0 rows (λ i row,
    (if group_break groups i then sepLine else mret tt) ;;
    (if page_break pageSize header i then
       sepLine ;;
       drawBorderedRow header widths aligns (vertical bc) styles wrapWidths ;;
       sepLine
     else mret tt) ;;
    drawBorderedRow row widths aligns (vertical bc) styles wrapWidths) ;;
  (if bool_decide (0 < length footer)%nat then
     sepLine ;;
     drawBorderedRow footer widths aligns (vertical bc) styles wrapWidths
   else mret tt) ;;
  drawHLine widths (bottomLeft bc) (horizontal bc) (bottomTee bc) (bottomRight bc).

(** The loop of [writeTable] over [tr.MaxWidths()]. *)
Fixpoint clamp_widths (numCols : nat) (i : nat) (maxs : list Z) (widths : list Z)
    : list Z :=
  match maxs with
  | [] => widths
  | max :: rest =>
      let widths :=
        if bool_decide (i < numCols)%nat && (0 <? max)
           && (max <? default 0 (widths !! i))
        then <[i := max]> widths else widths in
      clamp_widths numCols (S i) rest widths
  end.

(** What [writeTable] gathers from the first item, and the rows. *)
Record layout := {
  l_title : gostring;
  l_header : list gostring;
  l_rows : list (list gostring);
  l_footer : list gostring;
  l_aligns : list Alignment;
  l_border : BorderStyle;
  l_styles : list (option (gostring → gostring));
  l_groups : list gostring;
  l_wrapWidths : list Z;
  l_pageSize : Z;
  l_caption : gostring;
  l_widths : list Z
}.

(** The first half of [writeTable]: the optional interfaces of the first
    item, the numbering column, the column count and the widths. *)
Definition writeTable_layout (first : Item) (rows : list (list gostring))
    (groups : list gostring) : layout :=
  let header := default [] (Headed_Header first) in
  let title := default [] (Titled_Title first) in
  let border := default BorderRounded (Bordered_Border first) in
  let aligns := default [] (Aligned_Alignments first) in
  let footer := default [] (Footered_Footer first) in
  let caption := default [] (Captioned_Caption first) in
  let styles := default [] (Styled_Styles first) in
  let wrapWidths := default [] (Wrapped_WrapWidths first) in
  let pageSize := default 0 (Paged_PageSize first) in
  let '(header, rows, footer, aligns, styles, wrapWidths) :=
    match Numbered_NumberHeader first with
    | Some numHdr =>
        (if bool_decide (0 < length header)%nat then numHdr :: header else header,
         imap (λ i row, Itoa (Z.of_nat i + 1) :: row) rows,
         if bool_decide (0 < length footer)%nat then [] :: footer else footer,
         AlignRight :: aligns,
         None :: styles,
         if bool_decide (0 < length wrapWidths)%nat then 0 :: wrapWidths else wrapWidths)
    | None => (header, rows, footer, aligns, styles, wrapWidths)
    end in
  let numCols := colCount header rows footer in
  let widths := computeWidths numCols header rows footer in
  let widths :=
    match Truncated_MaxWidths first with
    | Some maxs => clamp_widths numCols 0 maxs widths
    | None => widths
    end in
  {| l_title := title; l_header := header; l_rows := rows; l_footer := footer;
     l_aligns := extendAligns aligns numCols; l_border := border;
     l_styles := extendStyles styles numCols; l_groups := groups;
     l_wrapWidths := wrapWidths; l_pageSize := pageSize; l_caption := caption;
     l_widths := widths |}.

(** [writeTable]. *)
Definition writeTable (items : slice Item) : W unit :=
  match elems items with
  | [] => mret tt
  | first :: _ =>
      match Rower_Row first with
      | None => fail (MissingInterfaceError Table (lit "Rower") (type_name first))
      | Some _ =>
          rows ← collect (elems items) (λ item, assert (Rower_Row item));
          groups ← match Grouped_Group first with
                   | Some _ => collect (elems items) (λ item, assert (Grouped_Group item))
                   | None => mret []
                   end;
          let l := writeTable_layout first rows groups in
          (if bool_decide (l_border l = BorderNone) then
             renderPlainTable (l_header l) (l_rows l) (l_footer l) (l_widths l)
               (l_aligns l) (l_styles l) (l_groups l) (l_wrapWidths l) (l_pageSize l)
           else
             renderBorderedTable (l_title l) (l_header l) (l_rows l) (l_footer l)
               (l_widths l) (l_aligns l) (l_border l) (l_styles l) (l_groups l)
               (l_wrapWidths l) (l_pageSize l)) ;;
          if bool_decide (l_caption l ≠ []) then Fprintln (l_caption l) else mret tt
      end
  end.

End Tables.

Section Dispatch.
Context `{Runewidth} `{Externals}.

(** The [switch f] that [Write] and [writeFormatted] both end with. *)
Definition render (f : Format) (items : slice Item) : W unit :=
  if bool_decide (f = JSON) then writeJSON items
  else if bool_decide (f = YAML) then writeYAML items
  else if bool_decide (f = CSV) then writeCSV items
  else if bool_decide (f = Table) then writeTable items
  else if bool_decide (f = Markdown) then writeMarkdown items
  else if bool_decide (f = List) then writeList items
  else if bool_decide (f = ENV) then writeENV items
  else if bool_decide (f = Plain) then writePlain items
  else if bool_decide (f = TSV) then writeTSV items
  else if bool_decide (f = JSONL) then writeJSONL items
  else if bool_decide (f = HTML) then writeHTML items
  else match CutPrefix f goTemplatePrefix with
       | Some tmpl => writeGoTemplate tmpl items
       | None => fail (UnsupportedFormatError f)
       end.

(** The loop of [writeFormatted]: the items whose [Format] returns
    [(nil, nil)] are appended to [fallback]. *)
Fixpoint writeFormatted_range (f : Format) (items : list Item) (fallback : slice Item)
    : W (slice Item) :=
  match items with
  | [] => mret fallback
  | item :: rest =>
      fmtr ← assert (Formatter_Format item);
      match fmtr f with
      | FormatError e => fail e
      | FormatBytes data => write data ;; writeFormatted_range f rest fallback
      | FormatNil => writeFormatted_range f rest (Some (elems fallback ++ [item]))
      end
  end.

(** [writeFormatted]. *)
Definition writeFormatted (f : Format) (items : slice Item) : W unit :=
  fallback ← writeFormatted_range f (elems items) None;
  if bool_decide (elems fallback = []) then mret tt
  else render f fallback.

(** [Write]. *)
Definition Write (f : Format) (items : slice Item) : W unit :=
  match elems items with
  | first :: _ =>
      match Formatter_Format first with
      | Some _ => writeFormatted f items
      | None => render f items
      end
  | [] => render f items
  end.

(** [Marshal]: the bytes of the buffer, or the error alone. *)
Definition Marshal (f : Format) (items : slice Item) : status gostring :=
  match Write f items with
  | (out, Ok _) => Ok (concat out)
  | (_, Fail e) => Fail e
  | (_, Crash) => Crash
  end.

(** *** Streaming

    An [iter.Seq] that produces a collection lazily: it hands the items
    to [yield] one by one, in order, and stops as soon as [yield]
    returns false.  [L] is the state of the variables the callback
    captures. *)
Fixpoint produce {L} (items : list Item) (yield : Item → L → W (L * bool)) (l : L)
    : W L :=
  match items with
  | [] => mret l
  | item :: rest =>
      '(l, more) ← yield item l;
      if more : bool then produce rest yield l else mret l
  end.

(** [if err := m; err != nil] inside a callback: the error is a value. *)
Definition try (m : W unit) : W (option error) :=
  match m with
  | (out, Ok _) => (out, Ok None)
  | (out, Fail e) => (out, Ok (Some e))
  | (out, Crash) => (out, Crash)
  end.

(** [return err], where a nil error is success. *)
Definition return_err (err : option error) : W unit :=
  match err with
  | Some e => fail e
  | None => mret tt
  end.

(** [streamCollect]. *)
Definition streamCollect (f : Format) (seq : list Item) : W unit :=
  items ← produce seq (λ item (items : slice Item),
                        mret (Some (elems items ++ [item]), true)) None;
  if bool_decide (elems items = []) then mret tt
  else Write f items.

(** The callback of [streamJSON]; the captured variables are [first] and
    [encErr]. *)
Definition streamJSON_yield (item : Item) (vars : bool * option error)
    : W (bool * option error * bool) :=
  let '(first, encErr) := vars in
  (if negb first then write (lit ",") else mret tt) ;;
  err ← try (json_Encode false (default [] (Indented_Indent item)) (VItem item));
  match err with
  | Some e => mret ((false, Some e), false)
  | None => mret ((false, encErr), true)
  end.

(** [streamJSON]. *)
Definition streamJSON (seq : list Item) : W unit :=
  write (lit "[") ;;
  '(_, encErr) ← produce seq streamJSON_yield (true, None);
  match encErr with
  | Some e => fail e
  | None => write (lit "]" ++ [nl])
  end.

(** The callback of [streamCSV]; the captured variables are [first] and
    [streamErr]. *)
Definition streamCSV_yield (item : Item) (vars : bool * option error)
    : W (bool * option error * bool) :=
  let '(first, streamErr) := vars in
  if first then
    match Rower_Row item with
    | None =>
        mret ((false, Some (MissingInterfaceError CSV (lit "Rower") (type_name item))),
              false)
    | Some _ =>
        err ← try (Write CSV (Some [item]));
        match err with
        | Some e => mret ((false, Some e), false)
        | None => mret ((false, streamErr), true)
        end
    end
  else
    row ← assert (Rower_Row item);
    err ← try (writeCSVRow row);
    match err with
    | Some e => mret ((first, Some e), false)
    | None => mret ((first, streamErr), true)
    end.

(** [streamCSV]. *)
Definition streamCSV (seq : list Item) : W unit :=
  '(_, streamErr) ← produce seq streamCSV_yield (true, None);
  return_err streamErr.

(** The callback of [streamTSV]. *)
Definition streamTSV_yield (item : Item) (vars : bool * option error)
    : W (bool * option error * bool) :=
  let '(first, streamErr) := vars in
  if first then
    match Rower_Row item with
    | None =>
        mret ((false, Some (MissingInterfaceError TSV (lit "Rower") (type_name item))),
              false)
    | Some _ =>
        err ← try (Write TSV (Some [item]));
        match err with
        | Some e => mret ((false, Some e), false)
        | None => mret ((false, streamErr), true)
        end
    end
  else
    row ← assert (Rower_Row item);
    Fprintln (Join row [9]) ;;
    mret ((first, streamErr), true).

(** [streamTSV]. *)
Definition streamTSV (seq : list Item) : W unit :=
  '(_, streamErr) ← produce seq streamTSV_yield (true, None);
  return_err streamErr.

(** The callback of [streamJSONL]; the captured variable is [streamErr]. *)
Definition streamJSONL_yield (item : Item) (streamErr : option error)
    : W (option error * bool) :=
  err ← try (json_Encode true (default [] (Indented_Indent item)) (VItem item));
  match err with
  | Some e => mret (Some e, false)
  | None => mret (streamErr, true)
  end.

(** [streamJSONL]. *)
Definition streamJSONL (seq : list Item) : W unit :=
  streamErr ← produce seq streamJSONL_yield None;
  return_err streamErr.

(** The callback of [streamPlain]. *)
Definition streamPlain_yield (item : Item) (streamErr : option error)
    : W (option error * bool) :=
  let s := match Stringer_String item with
           | Some str => str
           | None => default_text item
           end in
  Fprintln s ;;
  mret (streamErr, true).

(** [streamPlain]. *)
Definition streamPlain (seq : list Item) : W unit :=
  streamErr ← produce seq streamPlain_yield None;
  return_err streamErr.

(** [streamGoTemplate]. *)
Definition streamGoTemplate (tmplStr : gostring) (seq : list Item) : W unit :=
  items ← produce seq (λ item (items : slice Item),
                        mret (Some (elems items ++ [item]), true)) None;
  if bool_decide (elems items = []) then mret tt
  else writeGoTemplate tmplStr items.

(** [WriteIter]. *)
Definition WriteIter (f : Format) (seq : list Item) : W unit :=
  if bool_decide (f = JSON) then streamJSON seq
  else if bool_decide (f = YAML) then streamCollect f seq
  else if bool_decide (f = Table) || bool_decide (f = Markdown) || bool_decide (f = HTML)
  then streamCollect f seq
  else if bool_decide (f = CSV) then streamCSV seq
  else if bool_decide (f = TSV) then streamTSV seq
  else if bool_decide (f = JSONL) then streamJSONL seq
  else if bool_decide (f = Plain) then streamPlain seq
  else if bool_decide (f = List) then streamCollect f seq
  else if bool_decide (f = ENV) then streamCollect f seq
  else match CutPrefix f goTemplatePrefix with
       | Some tmpl => streamGoTemplate tmpl seq
       | None => fail (UnsupportedFormatError f)
       end.

End Dispatch.

(** What a caller can tell of a call: the bytes in the sink and the error,
    unless the call panicked. *)
Definition observe (m : W unit) : option (gostring * option error) :=
  match m with
  | (out, Ok _) => Some (concat out, None)
  | (out, Fail e) => Some (concat out, Some e)
  | (_, Crash) => None
  end.

(** [IsSupported[T]].  [zero] is [any(zero)] for the zero value of the
    type parameter: an item with the methods of [T] when [T] is a
    concrete type, and the nil interface value, which implements no
    interface, when [T] is an interface type. *)
Definition IsSupported (zero : Item) (f : Format) : bool :=
  if HasPrefix f goTemplatePrefix then true
  else if bool_decide (f = JSON) || bool_decide (f = YAML) || bool_decide (f = Plain)
          || bool_decide (f = JSONL)
  then true
  else if bool_decide (f = CSV) || bool_decide (f = Table) || bool_decide (f = TSV)
          || bool_decide (f = HTML)
  then bool_decide (is_Some (Rower_Row zero))
  else if bool_decide (f = Markdown)
  then bool_decide (is_Some (Rower_Row zero)) && bool_decide (is_Some (Headed_Header zero))
  else if bool_decide (f = List) then bool_decide (is_Some (Lister_List zero))
  else if bool_decide (f = ENV) then bool_decide (is_Some (Mappable_Pairs zero))
  else false.

(** * Properties *)

(** ** Format tags *)

Lemma HasPrefix_app (prefix rest : gostring) : HasPrefix (prefix ++ rest) prefix = true.
Proof.
  unfold HasPrefix. apply bool_decide_eq_true.
  by rewrite take_app_length.
Qed.

Lemma HasPrefix_true (s prefix : gostring) :
  HasPrefix s prefix = true → ∃ rest, s = prefix ++ rest.
Proof.
  unfold HasPrefix. intros Hp%bool_decide_eq_true.
  exists (drop (length prefix) s). by rewrite <- Hp at 1; rewrite take_drop.
Qed.

Lemma ParseFormat_range_Some (fs : list Format) (s : gostring) :
  s ∈ fs → ParseFormat_range fs s = Some s.
Proof.
  induction fs as [|f fs IH]; intros Hin; [by apply elem_of_nil in Hin|].
  simpl. case_bool_decide as Hf; [by subst|].
  apply elem_of_cons in Hin as [->|Hin]; [done|by apply IH].
Qed.

Lemma ParseFormat_range_None (fs : list Format) (s : gostring) :
  s ∉ fs → ParseFormat_range fs s = None.
Proof.
  induction fs as [|f fs IH]; intros Hin; [done|].
  simpl. apply not_elem_of_cons in Hin as [Hne Hin].
  case_bool_decide; [by subst|by apply IH].
Qed.

Lemma formats_no_prefix (s : gostring) :
  s ∈ formats → HasPrefix s goTemplatePrefix = false.
Proof.
  unfold formats. rewrite !elem_of_cons, elem_of_nil.
  intros H; repeat destruct H as [->|H]; try done.
Qed.

(** C4.  [ParseFormat] on every string [s]: a string that starts with
    [go-template=] comes back unchanged, with no error and whatever
    follows the prefix; one of the eleven static tags comes back as that
    tag, with no error; every other string is answered with the empty tag
    and an error that matches [ErrUnsupportedFormat] and carries [s]. *)
Theorem ParseFormat_spec (s : gostring) :
  (∀ tmpl, s = goTemplatePrefix ++ tmpl → ParseFormat s = (s, None))
  ∧ (s ∈ formats → ParseFormat s = (s, None))
  ∧ ((∀ tmpl, s ≠ goTemplatePrefix ++ tmpl) → s ∉ formats →
     ParseFormat s = ([], Some (UnsupportedFormatError s))
     ∧ errors_Is (UnsupportedFormatError s) ErrUnsupportedFormat = true).
Proof.
  unfold ParseFormat. repeat split.
  - intros tmpl ->. by rewrite HasPrefix_app.
  - intros Hin. rewrite (formats_no_prefix _ Hin).
    by rewrite (ParseFormat_range_Some _ _ Hin).
  - destruct (HasPrefix s goTemplatePrefix) eqn:Hp.
    + apply HasPrefix_true in Hp as [rest ->]. by destruct (H rest).
    + by rewrite (ParseFormat_range_None _ _ H0).
Qed.

(** The tag list, spelled out. *)
Lemma formats_list :
  formats = [lit "json"; lit "yaml"; lit "csv"; lit "table"; lit "markdown";
             lit "list"; lit "env"; lit "plain"; lit "tsv"; lit "jsonl"; lit "html"].
Proof. reflexivity. Qed.

Lemma ParseFormat_spec_witness :
  ParseFormat (lit "go-template={{.Name") = (lit "go-template={{.Name", None)
  ∧ ParseFormat (lit "markdown") = (Markdown, None)
  ∧ ParseFormat (lit "xml") = ([], Some (UnsupportedFormatError (lit "xml"))).
Proof.
  split; [|split].
  - exact (proj1 (ParseFormat_spec (lit "go-template={{.Name")) (lit "{{.Name") eq_refl).
  - apply (proj1 (proj2 (ParseFormat_spec (lit "markdown")))).
    unfold formats. rewrite !elem_of_cons. tauto.
  - apply (proj2 (proj2 (ParseFormat_spec (lit "xml")))).
    + intros tmpl Heq. apply (f_equal (take 1)) in Heq. vm_compute in Heq. discriminate.
    + unfold formats. rewrite !not_elem_of_cons. repeat split; try discriminate.
      apply not_elem_of_nil.
Defined.

(** ** The static format list *)

Module MemFacts.
Import Mem.

(** What holds of the heap of every caller: the array of [formats] is as
    the package initialised it, and every slice in the caller's hands
    refers to another array, allocated earlier. *)
Definition inv (c : caller) : Prop :=
  arrays (mem c) !! formats_loc = Some formats
  ∧ (formats_loc < next (mem c))%nat
  ∧ Forall (λ s, base s ≠ formats_loc ∧ (base s < next (mem c))%nat) (held c).

Lemma Formats_returns (h : heap) :
  arrays h !! formats_loc = Some formats → (formats_loc < next h)%nat →
  ∃ h', Formats h = (Slice (next h) (length formats), h')
        ∧ contents h' (Slice (next h) (length formats)) = Some formats
        ∧ arrays h' !! formats_loc = Some formats
        ∧ next h' = S (next h).
Proof.
  intros Hf Hn. unfold Formats, make, copy, contents. simpl.
  assert (next h ≠ formats_loc) as Hne by lia.
  rewrite lookup_insert_ne by done. rewrite Hf. simpl.
  rewrite lookup_insert_eq. eexists. split; [reflexivity|]. simpl.
  rewrite lookup_insert_eq, lookup_insert_ne by done.
  rewrite lookup_insert_ne by done. by rewrite Hf.
Qed.

Lemma store_keeps (h h' : heap) (s : slice) (i : nat) (v : Format) :
  base s ≠ formats_loc → store h s i v = Some h' →
  arrays h' !! formats_loc = arrays h !! formats_loc ∧ next h' = next h.
Proof.
  unfold store. intros Hne Hs. destruct (arrays h !! base s); [|done].
  case_decide; [|done]. injection Hs as <-. simpl.
  by rewrite lookup_insert_ne.
Qed.

Lemma inv_step (c : caller) (a : action) : inv c → inv (step c a).
Proof.
  intros (Hf & Hn & Hh). destruct a as [|k i v]; unfold step.
  - destruct (Formats_returns _ Hf Hn) as (h' & -> & _ & Hf' & Hn').
    split; [done|]. split; [simpl; lia|]. simpl. rewrite Hn'.
    apply Forall_app. split.
    + eapply Forall_impl; [exact Hh|]. simpl. intros s [? ?]. split; [done|lia].
    + apply Forall_singleton. simpl. unfold formats_loc in *. lia.
  - destruct (held c !! k) as [s|] eqn:Hk; [|done].
    destruct (store (mem c) s i v) as [h'|] eqn:Hs; [|done].
    assert (base s ≠ formats_loc) as Hne.
    { apply (Forall_lookup_1 _ _ _ _ Hh Hk). }
    destruct (store_keeps _ _ _ _ _ Hne Hs) as [Ha Hn'].
    split; [simpl; congruence|]. split; [simpl; lia|]. simpl. by rewrite Hn'.
Qed.

Lemma inv_run (acts : list action) : inv (run acts).
Proof.
  unfold run. induction acts as [|a acts IH] using rev_ind.
  - split; [done|]. split; [simpl; unfold formats_loc; lia|constructor].
  - rewrite foldl_app. simpl. by apply inv_step.
Qed.

End MemFacts.

(** C9.  Whatever the caller has done so far (calls of [Formats], and
    assignments to any element of any slice a call gave it), [Formats]
    returns the eleven static tags in the order json, yaml, csv, table,
    markdown, list, env, plain, tsv, jsonl, html, in an array of its own:
    one that is in no slice the caller holds. *)
Theorem Formats_fresh_copy (acts : list Mem.action) :
  let c := Mem.run acts in
  let out := (Mem.Formats (Mem.mem c)).1 in
  let h := (Mem.Formats (Mem.mem c)).2 in
  Mem.contents h out
  = Some [lit "json"; lit "yaml"; lit "csv"; lit "table"; lit "markdown";
          lit "list"; lit "env"; lit "plain"; lit "tsv"; lit "jsonl"; lit "html"]
  ∧ Forall (λ s, Mem.base s ≠ Mem.base out) (Mem.held c).
Proof.
  cbv zeta. destruct (MemFacts.inv_run acts) as (Hf & Hn & Hh).
  destruct (MemFacts.Formats_returns _ Hf Hn) as (h' & HF & Hc & _ & _).
  rewrite HF. simpl. split; [exact Hc|].
  eapply Forall_impl; [exact Hh|]. simpl. intros s [_ Hlt]. lia.
Qed.

(** The package's own test: the first element of a returned slice is
    overwritten, and the next call still starts with [json]. *)
Example Formats_after_mutation :
  let c := Mem.run [Mem.CallFormats; Mem.Assign 0 0 (lit "modified")] in
  map (Mem.contents (Mem.mem c)) (Mem.held c)
  = [Some (lit "modified" :: tail formats)]
  ∧ Mem.contents (Mem.Formats (Mem.mem c)).2 (Mem.Formats (Mem.mem c)).1 = Some formats.
Proof. vm_compute. done. Qed.

(** ** Display width and cells *)

(** A width table to run examples with: control characters and the
    combining diacritical marks take no column, the East Asian wide
    blocks two, everything else one. *)
Definition example_RuneWidth (r : rune) : Z :=
  if (r <? 32) || ((127 <=? r) && (r <? 160)) then 0
  else if (0x300 <=? r) && (r <=? 0x36F) then 0
  else if ((0x1100 <=? r) && (r <=? 0x115F)) || ((0x2E80 <=? r) && (r <=? 0xA4CF))
          || ((0xAC00 <=? r) && (r <=? 0xD7A3)) || ((0xF900 <=? r) && (r <=? 0xFAFF))
          || ((0xFE30 <=? r) && (r <=? 0xFE6F)) || ((0xFF00 <=? r) && (r <=? 0xFF60))
          || ((0xFFE0 <=? r) && (r <=? 0xFFE6)) || ((0x1F300 <=? r) && (r <=? 0x1F64F))
          || ((0x20000 <=? r) && (r <=? 0x3FFFD))
  then 2
  else 1.

Lemma example_RuneWidth_nonneg (r : rune) : 0 ≤ example_RuneWidth r.
Proof. unfold example_RuneWidth. repeat case_match; lia. Qed.

Lemma example_RuneWidth_ascii (r : rune) : 32 ≤ r < 127 → example_RuneWidth r = 1.
Proof.
  intros Hr. unfold example_RuneWidth.
  repeat match goal with
  | |- context [?a <? ?b] => destruct (Z.ltb_spec a b); try lia
  | |- context [?a <=? ?b] => destruct (Z.leb_spec a b); try lia
  end; reflexivity.
Qed.

(** *** The clusters of [group] *)

Section GroupFacts.
Variable b : rune → bool.

Lemma group_cons (r : rune) (s : gostring) :
  group b (r :: s)
  = match group b s with
    | (r' :: c) :: cs => if b r' then [r] :: (r' :: c) :: cs else (r :: r' :: c) :: cs
    | _ => [[r]]
    end.
Proof. reflexivity. Qed.

Lemma group_head (s : gostring) (cs : list gostring) : group b s ≠ [] :: cs.
Proof.
  destruct s as [|r s]; [done|]. cbn [group].
  destruct (group b s) as [|[|r' c] cs']; [done..|]. by destruct (b r').
Qed.

Lemma group_concat (s : gostring) : concat (group b s) = s.
Proof.
  induction s as [|r s IH]; [done|]. cbn [group].
  pose proof (group_head s) as Hhead.
  destruct (group b s) as [|[|r' c] cs]; simpl in *.
  - by rewrite <- IH.
  - by destruct (Hhead cs).
  - destruct (b r'); simpl; by rewrite <- IH.
Qed.

(** The clusters are well formed: none is empty, no [base] is inside a
    cluster, and every cluster but the first starts with one. *)
Definition clusters_wf (l : list gostring) : Prop :=
  Forall (λ c, c ≠ [] ∧ Forall (λ r, b r = false) (drop 1 c)) l
  ∧ Forall (λ c, ∃ r, head c = Some r ∧ b r = true) (drop 1 l).

Lemma group_wf (s : gostring) : clusters_wf (group b s).
Proof.
  induction s as [|r s [IH1 IH2]]; [by split; constructor|]. cbn [group].
  destruct (group b s) as [|[|r' c] cs].
  - split; repeat constructor; done.
  - split; repeat constructor; done.
  - apply Forall_cons in IH1 as [[_ Hc] IH1]. cbn [drop] in *.
    destruct (b r') eqn:Hr'.
    + split; [repeat constructor; done|]. cbn [drop].
      constructor; [by exists r'|done].
    + split; [|done]. constructor; [|done]. split; [done|]. cbn [drop].
      by constructor.
Qed.

Lemma group_cluster (r : rune) (c : gostring) (rest : gostring) :
  Forall (λ r, b r = false) c →
  match group b rest with
  | [] => True
  | c' :: _ => ∃ r', head c' = Some r' ∧ b r' = true
  end →
  group b (r :: c ++ rest) = (r :: c) :: group b rest.
Proof.
  intros Hc Hrest. revert r. induction Hc as [|m c Hm _ IH]; intros r.
  - cbn [app group]. destruct (group b rest) as [|[|r' c'] cs]; [done| |].
    + by destruct Hrest as (? & ? & _).
    + destruct Hrest as (r'' & [= <-] & ->). done.
  - change (r :: (m :: c) ++ rest) with (r :: (m :: c ++ rest)).
    rewrite (group_cons r (m :: c ++ rest)), (IH m). by rewrite Hm.
Qed.

Lemma group_of_wf (l : list gostring) : clusters_wf l → group b (concat l) = l.
Proof.
  induction l as [|c l IH]; intros [H1 H2]; [done|].
  apply Forall_cons in H1 as [[Hne Hc] H1]. cbn [drop] in H2.
  assert (clusters_wf l) as Hwf.
  { split; [done|]. destruct l; [constructor|]. by apply Forall_cons in H2 as [_ ?]. }
  destruct c as [|r c]; [done|]. cbn [drop] in Hc. cbn [concat].
  change ((r :: c) ++ concat l) with (r :: c ++ concat l).
  rewrite group_cluster, (IH Hwf); [done..|].
  rewrite (IH Hwf). destruct l as [|c' l]; [done|]. by apply Forall_cons in H2 as [? _].
Qed.

Lemma clusters_wf_take (l : list gostring) (k : nat) :
  clusters_wf l → clusters_wf (take k l).
Proof.
  intros [H1 H2]. split; [by apply Forall_take|].
  destruct k as [|k]; [constructor|]. destruct l as [|c l]; [constructor|].
  cbn [take drop] in *. by apply Forall_take.
Qed.

Lemma group_nonempty (s : gostring) : Forall (λ c, c ≠ []) (group b s).
Proof.
  destruct (group_wf s) as [H1 _]. eapply Forall_impl; [exact H1|]. by intros c [? _].
Qed.

Lemma group_prefix (s : gostring) (k : nat) :
  group b (concat (take k (group b s))) = take k (group b s).
Proof. apply group_of_wf, clusters_wf_take, group_wf. Qed.

(** Text of stand-alone characters has one cluster for each. *)
Lemma group_all_base (s : gostring) :
  Forall (λ r, b r = true) s → group b s = (λ r, [r]) <$> s.
Proof.
  induction 1 as [|r s Hr Hs IH]; [done|]. rewrite group_cons, IH.
  destruct Hs as [|r' s' Hr' _]; [done|]. cbn [fmap list_fmap]. by rewrite Hr'.
Qed.

End GroupFacts.

(** A segmentation to run examples with: the combining diacritical
    marks, the zero-width joiner, the variation selectors and the emoji
    modifiers join the cluster before them; every other code point
    starts a cluster.  The combining diacritical marks are the marks of
    no width. *)
Definition example_mark (r : rune) : bool := (0x300 <=? r) && (r <=? 0x36F).

Definition example_base (r : rune) : bool :=
  negb (example_mark r || (r =? 0x200D) || ((0xFE00 <=? r) && (r <=? 0xFE0F))
        || ((0x1F3FB <=? r) && (r <=? 0x1F3FF))).

Lemma example_base_ascii (r : rune) : 32 ≤ r < 127 → example_base r = true.
Proof.
  intros Hr. unfold example_base, example_mark.
  repeat match goal with
  | |- context [?a <? ?b] => destruct (Z.ltb_spec a b); try lia
  | |- context [?a <=? ?b] => destruct (Z.leb_spec a b); try lia
  | |- context [?a =? ?b] => destruct (Z.eqb_spec a b); try lia
  end; reflexivity.
Qed.

Lemma example_mark_width (r : rune) : example_mark r = true → example_RuneWidth r = 0.
Proof.
  unfold example_mark, example_RuneWidth.
  intros [?%Z.leb_le ?%Z.leb_le]%andb_true_iff.
  repeat match goal with
  | |- context [?a <? ?b] => destruct (Z.ltb_spec a b); try lia
  | |- context [?a <=? ?b] => destruct (Z.leb_spec a b); try lia
  end; reflexivity.
Qed.

Definition example_widths : Runewidth :=
  {| RuneWidth := example_RuneWidth;
     RuneWidth_nonneg := example_RuneWidth_nonneg;
     RuneWidth_ascii := example_RuneWidth_ascii;
     graphemes := group example_base;
     graphemes_concat := group_concat example_base;
     graphemes_nonempty := group_nonempty example_base;
     graphemes_prefix := group_prefix example_base;
     base := example_base;
     mark := example_mark;
     base_ascii := example_base_ascii;
     mark_width := example_mark_width;
     graphemes_simple := λ s _, eq_refl |}.

(** A thumbs-up with a skin tone is one cluster of two columns, although
    each of its two code points is two columns wide: a cell that holds it
    and two letters is cut after the first letter in a column of width 3,
    and alone in a column of width 4 it is padded with two spaces.  A
    letter with a combining accent is one column. *)
Example StringWidth_cluster :
  let thumb := [0x1F44D; 0x1F3FB] in
  @StringWidth example_widths thumb = 2
  ∧ @formatTableCell example_widths (thumb ++ lit "ab") 3 AlignLeft = thumb ++ lit "a"
  ∧ @alignCell example_widths thumb 4 AlignLeft = thumb ++ lit "  "
  ∧ @StringWidth example_widths (lit "e" ++ [0x301] ++ lit "t") = 2.
Proof. vm_compute. done. Qed.

Section WidthFacts.
Context `{Runewidth}.

(** *** Clusters and widths *)

Lemma graphemes_nil : graphemes [] = [].
Proof.
  pose proof (graphemes_concat []) as Hc. pose proof (graphemes_nonempty []) as Hn.
  destruct (graphemes []) as [|c cs]; [done|].
  apply Forall_cons in Hn as [Hne _]. simpl in Hc. by destruct c.
Qed.

Lemma graphemes_cons (r : rune) (s : gostring) :
  ∃ c cs, graphemes (r :: s) = (r :: c) :: cs ∧ s = c ++ concat cs.
Proof.
  pose proof (graphemes_concat (r :: s)) as Hc.
  pose proof (graphemes_nonempty (r :: s)) as Hn.
  destruct (graphemes (r :: s)) as [|c cs]; [done|].
  apply Forall_cons in Hn as [Hne _]. destruct c as [|r' c]; [done|].
  simpl in Hc. injection Hc as -> Hs. by exists c, cs.
Qed.

Lemma graphemes_single (r : rune) : graphemes [r] = [[r]].
Proof.
  destruct (graphemes_cons r []) as (c & cs & Hg & Hs).
  pose proof (graphemes_nonempty [r]) as Hn. rewrite Hg in Hn.
  symmetry in Hs. apply app_eq_nil in Hs as [-> Hcs]. rewrite Hg. f_equal.
  apply Forall_cons in Hn as [_ Hn]. destruct cs as [|c cs]; [done|].
  apply Forall_cons in Hn as [Hne _]. simpl in Hcs. by destruct c.
Qed.

Lemma cluster_width_nonneg (c : gostring) : 0 ≤ cluster_width c.
Proof.
  induction c as [|r c IH]; [done|]. cbn [cluster_width].
  pose proof (RuneWidth_nonneg r). destruct c; [done|]. by destruct (0 <? RuneWidth r).
Qed.

(** The width of a cluster whose first code point has a width. *)
Lemma cluster_width_cons (r : rune) (c : gostring) :
  cluster_width (r :: c) = if 0 <? RuneWidth r then RuneWidth r else cluster_width c.
Proof.
  cbn [cluster_width]. destruct c; [|done]. simpl.
  pose proof (RuneWidth_nonneg r). destruct (Z.ltb_spec 0 (RuneWidth r)); lia.
Qed.

(** The widths of a list of clusters, added up. *)
Definition clusters_width (l : list gostring) : Z :=
  foldr (λ c width, cluster_width c + width) 0 l.

Lemma clusters_width_nonneg (l : list gostring) : 0 ≤ clusters_width l.
Proof.
  induction l as [|c l IH]; simpl; [done|]. pose proof (cluster_width_nonneg c). lia.
Qed.

Lemma clusters_width_app (l k : list gostring) :
  clusters_width (l ++ k) = clusters_width l + clusters_width k.
Proof. induction l as [|c l IH]; simpl; lia. Qed.

Lemma StringWidth_clusters (s : gostring) : StringWidth s = clusters_width (graphemes s).
Proof. reflexivity. Qed.

Lemma StringWidth_nil : StringWidth [] = 0.
Proof. unfold StringWidth. by rewrite graphemes_nil. Qed.

Lemma StringWidth_single (r : rune) : StringWidth [r] = RuneWidth r.
Proof. unfold StringWidth. rewrite graphemes_single. simpl. lia. Qed.

Lemma StringWidth_nonneg (s : gostring) : 0 ≤ StringWidth s.
Proof. apply clusters_width_nonneg. Qed.

(** The width of the first clusters of a string, as a string. *)
Lemma StringWidth_take (s : gostring) (k : nat) :
  StringWidth (concat (take k (graphemes s))) = clusters_width (take k (graphemes s)).
Proof. unfold StringWidth. by rewrite graphemes_prefix. Qed.

(** *** Text of stand-alone characters and marks *)

(** The widths of the code points, added up. *)
Definition RunesWidth (s : gostring) : Z := foldr (λ r width, RuneWidth r + width) 0 s.

(** Every code point is a stand-alone character or a mark of no width. *)
Definition simple (s : gostring) : Prop := Forall (λ r, base r || mark r = true) s.

Lemma RunesWidth_cons (r : rune) (s : gostring) :
  RunesWidth (r :: s) = RuneWidth r + RunesWidth s.
Proof. reflexivity. Qed.

Lemma RunesWidth_nonneg (s : gostring) : 0 ≤ RunesWidth s.
Proof. induction s as [|r s IH]; simpl; [lia|]. pose proof (RuneWidth_nonneg r). lia. Qed.

Lemma RunesWidth_app (s t : gostring) : RunesWidth (s ++ t) = RunesWidth s + RunesWidth t.
Proof. induction s as [|r s IH]; simpl; lia. Qed.

Lemma RunesWidth_Repeat (s : gostring) (n : Z) :
  0 ≤ n → RunesWidth (Repeat s n) = n * RunesWidth s.
Proof.
  intros Hn. unfold Repeat. rewrite <- (Z2Nat.id n) at 2 by done.
  induction (Z.to_nat n) as [|k IH]; [simpl; lia|].
  cbn [replicate concat]. rewrite RunesWidth_app, IH. lia.
Qed.

Lemma RunesWidth_ascii (s : gostring) :
  Forall (λ r, 32 ≤ r < 127) s → RunesWidth s = Z.of_nat (length s).
Proof.
  induction 1 as [|r s Hr _ IH]; [done|].
  rewrite RunesWidth_cons, (RuneWidth_ascii r Hr), IH. cbn [length]. lia.
Qed.

Lemma RunesWidth_ones (s : gostring) :
  Forall (λ r, RuneWidth r = 1) s → RunesWidth s = Z.of_nat (length s).
Proof.
  induction 1 as [|r s Hr _ IH]; [done|].
  rewrite RunesWidth_cons, Hr, IH. cbn [length]. lia.
Qed.

Lemma simple_app (s t : gostring) : simple (s ++ t) ↔ simple s ∧ simple t.
Proof. apply Forall_app. Qed.

Lemma simple_ascii (s : gostring) : Forall (λ r, 32 ≤ r < 127) s → simple s.
Proof.
  intros Hs. eapply Forall_impl; [exact Hs|]. intros r Hr. simpl.
  by rewrite (base_ascii r Hr).
Qed.

Lemma simple_Repeat (s : gostring) (n : Z) : simple s → simple (Repeat s n).
Proof.
  intros Hs. unfold Repeat. induction (Z.to_nat n) as [|k IH]; [constructor|].
  cbn [replicate concat]. by apply simple_app.
Qed.

Lemma simple_concat (l : list gostring) : Forall simple l → simple (concat l).
Proof. induction 1; [constructor|]. cbn [concat]. by apply simple_app. Qed.

(** A cluster of marks has no width. *)
Lemma cluster_width_marks (c : gostring) :
  Forall (λ r, RuneWidth r = 0) c → cluster_width c = 0.
Proof.
  induction 1 as [|r c Hr _ IH]; [done|]. rewrite cluster_width_cons, Hr. done.
Qed.

Lemma clusters_width_group (s : gostring) :
  simple s → clusters_width (group base s) = RunesWidth s.
Proof.
  induction 1 as [|r s Hr Hs IH]; [done|].
  pose proof (group_wf base s) as [Hwf _]. rewrite group_cons, RunesWidth_cons, <- IH.
  pose proof (group_concat base s) as Hcat.
  destruct (group base s) as [|[|r' c] cs] eqn:Hg;
    [simpl; lia|by apply Forall_cons in Hwf as [[? _] _]|].
  apply Forall_cons in Hwf as [[_ Hc] _]. cbn [drop] in Hc.
  destruct (base r') eqn:Hr'; [simpl; lia|].
  assert (cluster_width (r' :: c) = 0) as Hzero.
  { apply cluster_width_marks. rewrite <- Hcat in Hs.
    cbn [concat] in Hs. apply Forall_app in Hs as [Hs _].
    apply Forall_cons in Hs as [Hm Hs]. rewrite Hr' in Hm. cbn [orb] in Hm.
    constructor; [by apply mark_width|].
    apply Forall_forall. intros m Hin.
    pose proof (proj1 (Forall_forall _ _) Hc m Hin) as Hb.
    pose proof (proj1 (Forall_forall _ _) Hs m Hin) as Hmm.
    cbv beta in Hb, Hmm. rewrite Hb in Hmm. by apply mark_width. }
  cbn [clusters_width foldr] in *. rewrite cluster_width_cons.
  change (cluster_width (r' :: c)) with (cluster_width (r' :: c)) in *.
  rewrite Hzero in *. pose proof (RuneWidth_nonneg r).
  destruct (Z.ltb_spec 0 (RuneWidth r)); lia.
Qed.

(** On such text the width of a string is the sum of the widths of its
    code points. *)
Lemma StringWidth_simple (s : gostring) : simple s → StringWidth s = RunesWidth s.
Proof.
  intros Hs. unfold StringWidth. rewrite (graphemes_simple s Hs).
  by apply clusters_width_group.
Qed.

Lemma StringWidth_ascii (s : gostring) :
  Forall (λ r, 32 ≤ r < 127) s → StringWidth s = Z.of_nat (length s).
Proof.
  intros Hs. rewrite StringWidth_simple by (by apply simple_ascii).
  by apply RunesWidth_ascii.
Qed.

Lemma ascii_dots : Forall (λ r, 32 ≤ r < 127) (lit "...").
Proof.
  change (lit "...") with [46; 46; 46].
  repeat (apply Forall_cons; split; [lia|]). constructor.
Qed.

Lemma StringWidth_dots : StringWidth (lit "...") = 3.
Proof. by rewrite StringWidth_ascii; [|apply ascii_dots]. Qed.

(** *** [Truncate] *)

(** What the scan keeps is a number of whole clusters: they fit in what
    is left of [w], and the cluster after them, if there is one, does
    not. *)
Lemma Truncate_scan_take (w width : Z) (clusters : list gostring) :
  ∃ k : nat,
    Truncate_scan w width clusters = concat (take k clusters)
    ∧ (k ≤ length clusters)%nat
    ∧ (width ≤ w → width + clusters_width (take k clusters) ≤ w)
    ∧ (∀ c, clusters !! k = Some c →
            w < width + clusters_width (take k clusters) + cluster_width c).
Proof.
  revert width. induction clusters as [|c cl IH]; intros width.
  { exists 0%nat. simpl. split_and!; [done|lia|lia|done]. }
  cbn [Truncate_scan]. destruct (Z.ltb_spec w (width + cluster_width c)).
  - exists 0%nat. simpl. split_and!; [done|lia|lia|]. intros c' [= <-]. lia.
  - destruct (IH (width + cluster_width c)) as (k & Hk & Hlen & Hfit & Hnext).
    exists (S k). cbn [take concat clusters_width foldr length lookup list_lookup].
    fold (clusters_width (take k cl)).
    split_and!; [by rewrite Hk|lia|lia|].
    intros c' Hc'. specialize (Hnext c' Hc'). lia.
Qed.

Lemma Truncate_fits (s : gostring) (w : Z) (tail : gostring) :
  StringWidth s ≤ w → Truncate s w tail = s.
Proof. intros Hs. unfold Truncate. by destruct (Z.leb_spec (StringWidth s) w); [|lia]. Qed.

Lemma Truncate_cuts (s : gostring) (w : Z) (tail : gostring) :
  w < StringWidth s →
  Truncate s w tail = Truncate_scan (w - StringWidth tail) 0 (graphemes s) ++ tail.
Proof. intros Hs. unfold Truncate. by destruct (Z.leb_spec (StringWidth s) w); [lia|]. Qed.

(** What the scan keeps is the start of the string. *)
Lemma Truncate_scan_prefix (w width : Z) (s : gostring) :
  ∃ rest, s = Truncate_scan w width (graphemes s) ++ rest.
Proof.
  destruct (Truncate_scan_take w width (graphemes s)) as (k & -> & _).
  exists (concat (drop k (graphemes s))).
  by rewrite <- concat_app, take_drop, graphemes_concat.
Qed.

(** Without a tail, what [Truncate] returns is a prefix of its argument. *)
Lemma Truncate_prefix (s : gostring) (w : Z) : ∃ rest, s = Truncate s w [] ++ rest.
Proof.
  unfold Truncate. destruct (StringWidth s <=? w).
  - exists []. by rewrite app_nil_r.
  - rewrite app_nil_r. apply Truncate_scan_prefix.
Qed.

(** Without a tail, what [Truncate] returns fits. *)
Lemma Truncate_width_nil (s : gostring) (w : Z) :
  0 ≤ w → StringWidth (Truncate s w []) ≤ w.
Proof.
  intros Hw. unfold Truncate. destruct (Z.leb_spec (StringWidth s) w); [done|].
  rewrite app_nil_r, StringWidth_nil, Z.sub_0_r.
  destruct (Truncate_scan_take w 0 (graphemes s)) as (k & -> & _ & Hfit & _).
  rewrite StringWidth_take. lia.
Qed.

(** The text that [Truncate] keeps in front of the tail, when it cuts:
    whole clusters from the start of the string, as many as fit in what
    the tail leaves of [w]. *)
Lemma Truncate_kept (s : gostring) (w : Z) (tail : gostring) :
  w < StringWidth s → StringWidth tail ≤ w →
  ∃ k : nat,
    Truncate s w tail = concat (take k (graphemes s)) ++ tail
    ∧ StringWidth (concat (take k (graphemes s))) ≤ w - StringWidth tail
    ∧ ∃ c, graphemes s !! k = Some c
           ∧ w - StringWidth tail
             < StringWidth (concat (take k (graphemes s))) + cluster_width c.
Proof.
  intros Hs Ht. rewrite Truncate_cuts by done.
  destruct (Truncate_scan_take (w - StringWidth tail) 0 (graphemes s))
    as (k & -> & Hlen & Hfit & Hnext).
  exists k. rewrite StringWidth_take. split_and!; [done|lia|].
  destruct (graphemes s !! k) as [c|] eqn:Hc.
  - exists c. split; [done|]. specialize (Hnext c eq_refl). lia.
  - apply lookup_ge_None in Hc. rewrite take_ge in Hfit by done.
    rewrite <- StringWidth_clusters in Hfit. pose proof (StringWidth_nonneg tail). lia.
Qed.

(** *** What cutting and padding keep *)

(** A property of every code point of a string holds of every code
    point of what is cut from it or padded around it. *)
Lemma Forall_take_clusters (P : rune → Prop) (s : gostring) (k : nat) :
  Forall P s → Forall P (concat (take k (graphemes s))).
Proof.
  intros Hs. rewrite <- (graphemes_concat s), <- (take_drop k (graphemes s)) in Hs.
  rewrite concat_app in Hs. by apply Forall_app in Hs as [? _].
Qed.

Lemma Forall_Repeat (P : rune → Prop) (s : gostring) (n : Z) :
  Forall P s → Forall P (Repeat s n).
Proof.
  intros Hs. unfold Repeat. induction (Z.to_nat n) as [|k IH]; [constructor|].
  cbn [replicate concat]. by apply Forall_app.
Qed.

Lemma Forall_Truncate (P : rune → Prop) (s : gostring) (w : Z) (tail : gostring) :
  Forall P s → Forall P tail → Forall P (Truncate s w tail).
Proof.
  intros Hs Ht. unfold Truncate. destruct (StringWidth s <=? w); [done|].
  apply Forall_app. split; [|done].
  destruct (Truncate_scan_take (w - StringWidth tail) 0 (graphemes s)) as (k & -> & _).
  by apply Forall_take_clusters.
Qed.

Lemma Forall_alignCell (P : rune → Prop) (s : gostring) (width : Z) (align : Alignment) :
  P 32 → Forall P s → Forall P (alignCell s width align).
Proof.
  intros Hsp Hs. unfold alignCell. destruct (width - StringWidth s <=? 0); [done|].
  assert (∀ n, Forall P (Repeat (lit " ") n)) as Hpad.
  { intros n. apply Forall_Repeat. change (lit " ") with [32]. by constructor. }
  destruct align; repeat (apply Forall_app; split); auto.
Qed.

Lemma Forall_formatTableCell (P : rune → Prop) (s : gostring) (width : Z)
    (align : Alignment) :
  P 32 → P 46 → Forall P s → Forall P (formatTableCell s width align).
Proof.
  intros Hsp Hdot Hs. unfold formatTableCell. apply Forall_alignCell; [done|].
  destruct ((0 <? width) && (width <? StringWidth s)); [|done].
  destruct (width <=? 3); apply Forall_Truncate; try done.
  change (lit "...") with [46; 46; 46]. by repeat constructor.
Qed.

(** *** [alignCell] and [formatTableCell] *)

Lemma alignCell_exact (s : gostring) (width : Z) (align : Alignment) :
  StringWidth s = width → alignCell s width align = s.
Proof.
  intros Hw. unfold alignCell.
  by destruct (Z.leb_spec (width - StringWidth s) 0); [|lia].
Qed.

Lemma simple_spaces (n : Z) : simple (Repeat (lit " ") n).
Proof.
  apply simple_Repeat, simple_ascii. change (lit " ") with [32].
  apply Forall_cons. split; [lia|constructor].
Qed.

Lemma RunesWidth_spaces (n : Z) : 0 ≤ n → RunesWidth (Repeat (lit " ") n) = n.
Proof.
  intros Hn. rewrite RunesWidth_Repeat by done.
  change (lit " ") with [32]. simpl. rewrite (RuneWidth_ascii 32) by lia. lia.
Qed.

(** On text of stand-alone characters and marks, a padded cell is such
    text, and as wide as the column or as the cell. *)
Lemma alignCell_simple (s : gostring) (width : Z) (align : Alignment) :
  simple s →
  simple (alignCell s width align)
  ∧ StringWidth (alignCell s width align) = Z.max width (StringWidth s).
Proof.
  intros Hs.
  assert (simple (alignCell s width align)) as Hsimple.
  { unfold alignCell. destruct (width - StringWidth s <=? 0); [done|].
    destruct align; repeat (apply simple_app; split); auto using simple_spaces. }
  split; [done|]. rewrite (StringWidth_simple _ Hsimple).
  unfold alignCell in *. rewrite (StringWidth_simple s Hs) in *.
  destruct (Z.leb_spec (width - RunesWidth s) 0); [lia|].
  assert (0 ≤ (width - RunesWidth s) / 2 ≤ width - RunesWidth s).
  { split; [apply Z.div_pos; lia|]. apply Z.div_le_upper_bound; lia. }
  destruct align; rewrite ?RunesWidth_app, ?RunesWidth_spaces by lia; lia.
Qed.

(** A sub-string of such text is such text. *)
Lemma simple_take_clusters (s : gostring) (k : nat) :
  simple s → simple (concat (take k (graphemes s))).
Proof.
  intros Hs. rewrite <- (graphemes_concat s), <- (take_drop k (graphemes s)) in Hs.
  rewrite concat_app in Hs. by apply simple_app in Hs as [? _].
Qed.

(** On such text, a formatted cell is such text and fills its column,
    whenever the column has a width or the cell fits. *)
Lemma formatTableCell_simple (s : gostring) (width : Z) (align : Alignment) :
  simple s →
  0 < width ∨ (0 ≤ width ∧ StringWidth s ≤ width) →
  simple (formatTableCell s width align)
  ∧ StringWidth (formatTableCell s width align) = width.
Proof.
  intros Hs Hw. unfold formatTableCell.
  pose proof (StringWidth_nonneg s).
  destruct (Z.ltb_spec 0 width); cbn [andb];
    [|destruct (alignCell_simple s width align Hs) as [? ->]; split; [done|lia]].
  destruct (Z.ltb_spec width (StringWidth s));
    [|destruct (alignCell_simple s width align Hs) as [? ->]; split; [done|lia]].
  assert (∀ tail, simple tail → StringWidth tail ≤ width →
            simple (Truncate s width tail) ∧ StringWidth (Truncate s width tail) ≤ width)
    as Hcut.
  { intros tail Htail Hfit.
    destruct (Truncate_kept s width tail) as (k & -> & Hk & _); [done..|].
    pose proof (simple_take_clusters s k Hs) as Hp.
    assert (simple (concat (take k (graphemes s)) ++ tail)) as Hall
      by (by apply simple_app).
    split; [done|].
    rewrite (StringWidth_simple _ Hall), RunesWidth_app.
    rewrite <- (StringWidth_simple _ Hp), <- (StringWidth_simple _ Htail). lia. }
  destruct (Z.leb_spec width 3).
  - destruct (Hcut []) as [Hsimple Hfit]; [constructor|rewrite StringWidth_nil; lia|].
    destruct (alignCell_simple _ width align Hsimple) as [? ->].
    pose proof (StringWidth_nonneg (Truncate s width [])). split; [done|lia].
  - destruct (Hcut (lit "...")) as [Hsimple Hfit].
    { apply simple_ascii, ascii_dots. }
    { rewrite StringWidth_dots. lia. }
    destruct (alignCell_simple _ width align Hsimple) as [? ->].
    split; [done|lia].
Qed.

End WidthFacts.

(** ** Wrapping *)

Section WrapFacts.
Context `{Runewidth}.

(** A first character wider than the width leaves [Truncate] nothing
    to keep. *)
Lemma Truncate_wide_first (r : rune) (rest : gostring) (width : Z) :
  width < RuneWidth r → Truncate (r :: rest) width [] = [].
Proof.
  intros Hr. destruct (graphemes_cons r rest) as (c & cs & Hg & _).
  assert (RuneWidth r ≤ cluster_width (r :: c)) as Hc.
  { rewrite cluster_width_cons. pose proof (cluster_width_nonneg c).
    destruct (Z.ltb_spec 0 (RuneWidth r)); lia. }
  pose proof (clusters_width_nonneg cs) as Hcs.
  rewrite Truncate_cuts.
  - rewrite Hg, StringWidth_nil, Z.sub_0_r, app_nil_r. cbn [Truncate_scan].
    by destruct (Z.ltb_spec width (0 + cluster_width (r :: c))); [|lia].
  - rewrite StringWidth_clusters, Hg. cbn [clusters_width foldr].
    fold (clusters_width cs). lia.
Qed.

(** One iteration of the loop cuts a non-empty line off the front of
    what is left. *)
Lemma wrapCell_body_cuts (width : Z) (lines : list gostring) (s : gostring) :
  s ≠ [] →
  ∃ line rest, wrapCell_body width (lines, s) = (lines ++ [line], rest)
               ∧ line ≠ [] ∧ s = line ++ rest.
Proof.
  intros Hs. unfold wrapCell_body.
  destruct (Truncate_prefix s width) as [rest Hrest].
  destruct (Z.eqb_spec (StringWidth (Truncate s width [])) 0) as [Hz|Hz]; simpl.
  - destruct s as [|r s]; [done|].
    rewrite bool_decide_eq_true_2 by (simpl; lia).
    exists [r], s. by simpl; rewrite drop_0.
  - exists (Truncate s width []), rest. split; [|split].
    + f_equal. rewrite Hrest at 2. by rewrite drop_app_length.
    + by intros Heq; rewrite Heq, StringWidth_nil in Hz.
    + done.
Qed.

(** With a budget of at least [len(s)] iterations the loop ends; the
    lines it returns, put end to end, are the lines it started with
    followed by [s]; and the budget does not matter beyond that. *)
Lemma wrapCell_loop_enough (width : Z) (n : nat) :
  ∀ (fuel : nat) (lines : list gostring) (s : gostring),
    (length s ≤ n)%nat → (n ≤ fuel)%nat →
    ∃ out, wrapCell_loop fuel width (lines, s) = Some out
           ∧ wrapCell_loop n width (lines, s) = Some out
           ∧ concat out = concat lines ++ s
           ∧ (length out ≤ length lines + length s)%nat.
Proof.
  induction n as [|n IH]; intros fuel lines s Hs Hfuel.
  - destruct s; [|simpl in Hs; lia].
    exists lines. destruct fuel; simpl; rewrite app_nil_r; repeat split; lia.
  - destruct s as [|r s].
    { exists lines. destruct fuel; simpl; rewrite app_nil_r; repeat split; lia. }
    destruct fuel as [|fuel]; [lia|].
    destruct (wrapCell_body_cuts width lines (r :: s)) as (line & rest & Hb & Hl & Hrs);
      [done|].
    cbn [wrapCell_loop snd]. rewrite Hb.
    assert (length rest < length (r :: s))%nat as Hlen.
    { rewrite Hrs, length_app. destruct line; [done|simpl; lia]. }
    destruct (IH fuel (lines ++ [line]) rest) as (out & H1 & H2 & H3 & H4);
      [simpl in *; lia..|].
    exists out. repeat split; [done..| |].
    + rewrite H3, concat_app, Hrs. simpl. by rewrite app_nil_r, <- app_assoc.
    + rewrite length_app in H4. simpl in *. lia.
Qed.

Lemma wrapCell_run_enough (s : gostring) (width : Z) (fuel : nat) :
  (length s ≤ fuel)%nat →
  ∃ out, wrapCell_run fuel s width = Some out
         ∧ wrapCell s width = out
         ∧ concat out = s.
Proof.
  intros Hfuel. unfold wrapCell, wrapCell_run.
  destruct ((width <=? 0) || (StringWidth s <=? width)).
  - exists [s]. simpl. by rewrite app_nil_r.
  - destruct (wrapCell_loop_enough width (length s) fuel [] s) as (out & H1 & H2 & H3 & _);
      [lia..|].
    exists out. by rewrite H1, H2.
Qed.

(** C8.  [wrapCell] terminates on every string and every wrap width:
    its loop ends within [len(s)] iterations (a larger budget changes
    nothing), because every iteration takes at least one character off
    the text that is left.  When the first character of what is left is
    wider than the wrap width, [Truncate] returns the empty prefix and
    the iteration consumes exactly that character as a line of its own.
    A cell that fits within the wrap width gives exactly one line. *)
Theorem wrapCell_terminates (s : gostring) (width : Z) :
  (∀ fuel, (length s ≤ fuel)%nat → wrapCell_run fuel s width = Some (wrapCell s width))
  ∧ (∀ lines, s ≠ [] →
       (length (wrapCell_body width (lines, s)).2 < length s)%nat)
  ∧ (∀ lines r rest, s = r :: rest → width < RuneWidth r →
       Truncate s width [] = []
       ∧ wrapCell_body width (lines, s) = (lines ++ [[r]], rest))
  ∧ (StringWidth s ≤ width → wrapCell s width = [s]).
Proof.
  repeat split.
  - intros fuel Hfuel.
    destruct (wrapCell_run_enough s width fuel Hfuel) as (out & -> & -> & _). done.
  - intros lines Hs.
    destruct (wrapCell_body_cuts width lines s Hs) as (line & rest & -> & Hl & ->).
    simpl. rewrite length_app. destruct line; [done|simpl; lia].
  - subst s. by apply Truncate_wide_first.
  - subst s. unfold wrapCell_body.
    rewrite Truncate_wide_first, StringWidth_nil by done.
    rewrite bool_decide_eq_true_2 by (simpl; lia). simpl. by rewrite drop_0.
  - intros Hfit. unfold wrapCell, wrapCell_run.
    destruct (Z.leb_spec (StringWidth s) width); [|lia].
    by rewrite orb_true_r.
Qed.

(** C10.  Wrapping loses nothing: the lines [wrapCell] returns, put end
    to end, are the string it was given. *)
Theorem wrapCell_lossless (s : gostring) (width : Z) :
  concat (wrapCell s width) = s.
Proof.
  destruct (wrapCell_run_enough s width (length s)) as (out & _ & -> & Hc); done.
Qed.

(** A property of every code point of a cell holds of every code point
    of its lines. *)
Lemma wrapCell_Forall (P : rune → Prop) (s : gostring) (width : Z) :
  Forall P s → Forall (Forall P) (wrapCell s width).
Proof.
  intros Hs.
  destruct (wrapCell_run_enough s width (length s)) as (out & _ & -> & Hc); [done|].
  apply Forall_concat. by rewrite Hc.
Qed.

(** The lines of a wrapped cell are never more than its characters, and
    at least one. *)
Lemma wrapCell_length (s : gostring) (width : Z) :
  (1 ≤ length (wrapCell s width) ≤ Nat.max 1 (length s))%nat.
Proof.
  unfold wrapCell, wrapCell_run.
  destruct ((width <=? 0) || (StringWidth s <=? width)) eqn:Hfit; [simpl; lia|].
  destruct (wrapCell_loop_enough width (length s) (length s) [] s)
    as (out & H1 & _ & Hc & Hl); [lia..|].
  rewrite H1. simpl in *. split; [|lia].
  destruct out; [|simpl; lia]. simpl in Hc. subst s. rewrite StringWidth_nil in Hfit.
  apply orb_false_iff in Hfit as [Hw Hs].
  apply Z.leb_gt in Hw, Hs. lia.
Qed.

End WrapFacts.

(** Two full-width characters (U+4F60 and U+597D), two columns each. *)
Definition ni : rune := 0x4F60.
Definition hao : rune := 0x597D.

(** The package's tests of [wrapCell], with the example width table. *)
Example wrapCell_wide : @wrapCell example_widths [ni; hao] 1 = [[ni]; [hao]].
Proof. reflexivity. Qed.

Example wrapCell_basic :
  @wrapCell example_widths (lit "Hello") 3 = [lit "Hel"; lit "lo"].
Proof. reflexivity. Qed.

Example wrapCell_no_wrap : @wrapCell example_widths (lit "hi") 0 = [lit "hi"].
Proof. reflexivity. Qed.

Lemma wrapCell_terminates_witness :
  @wrapCell_run example_widths 2 [ni; hao] 1 = Some [[ni]; [hao]]
  ∧ (length (@wrapCell_body example_widths 1 ([], [ni; hao])).2 < 2)%nat
  ∧ @wrapCell_body example_widths 1 ([], [ni; hao]) = ([[ni]], [hao])
  ∧ @wrapCell example_widths (lit "hi") 5 = [lit "hi"].
Proof.
  pose proof (@wrapCell_terminates example_widths [ni; hao] 1) as (H1 & H2 & H3 & _).
  pose proof (@wrapCell_terminates example_widths (lit "hi") 5) as (_ & _ & _ & H4).
  split; [|split; [|split]].
  - apply (H1 2%nat). simpl. lia.
  - apply (H2 []). discriminate.
  - apply (H3 [] ni [hao] eq_refl). vm_compute. reflexivity.
  - apply H4. vm_compute. discriminate.
Defined.

(** ** Column widths *)

(** The greatest of a list of widths, and at least zero. *)
Definition Zmax_list (l : list Z) : Z := foldr Z.max 0 l.

Lemma Zmax_list_nonneg (l : list Z) : 0 ≤ Zmax_list l.
Proof. induction l; simpl; lia. Qed.

Lemma Zmax_list_ge (l : list Z) (x : Z) : x ∈ l → x ≤ Zmax_list l.
Proof.
  induction l as [|y l IH]; [by intros ?%elem_of_nil|].
  intros [->|Hin]%elem_of_cons; simpl; [lia|]. specialize (IH Hin). lia.
Qed.

Lemma Zmax_list_app (l k : list Z) : Zmax_list (l ++ k) = Z.max (Zmax_list l) (Zmax_list k).
Proof.
  induction l as [|y l IH]; simpl; [pose proof (Zmax_list_nonneg k); lia|]. lia.
Qed.

Section ColumnFacts.
Context `{Runewidth}.

(** The widths of the cells of column [i] on the given lines; a line
    without a cell there counts as the empty string. *)
Definition column (i : nat) (lines : list (list gostring)) : list Z :=
  (λ cells, StringWidth (cell_at cells i)) <$> lines.

(** What one cell does to the width of its column. *)
Definition grow (cell : option gostring) (w : Z) : Z :=
  match cell with
  | Some c => Z.max w (StringWidth c)
  | None => w
  end.

Lemma grow_cell_at (cells : list gostring) (i : nat) (w : Z) :
  0 ≤ w → grow (cells !! i) w = Z.max w (StringWidth (cell_at cells i)).
Proof.
  unfold grow, cell_at. destruct (cells !! i); cbn [default]; [done|].
  rewrite StringWidth_nil. lia.
Qed.

Lemma widen_length (numCols i : nat) (cells : list gostring) (widths : list Z) :
  length (widen numCols i cells widths) = length widths.
Proof.
  revert i widths. induction cells as [|c cells IH]; intros i widths; [done|].
  simpl. rewrite IH. case_match; [apply length_insert|done].
Qed.

Lemma widen_lookup (numCols j : nat) (cells : list gostring) (widths : list Z) (i : nat) :
  length widths = numCols →
  widen numCols j cells widths !! i
  = (if bool_decide (j ≤ i)%nat then grow (cells !! (i - j)%nat) else id) <$> widths !! i.
Proof.
  revert j widths. induction cells as [|c cells IH]; intros j widths Hlen.
  - simpl. rewrite lookup_nil. destruct (widths !! i); simpl; [|done].
    by case_bool_decide.
  - cbn [widen]. cbv zeta.
    rewrite IH by (destruct (_ && _); by rewrite ?length_insert).
    destruct (decide (i = j)) as [->|Hne].
    + rewrite (bool_decide_eq_false_2 (S j ≤ j)%nat) by lia.
      rewrite (bool_decide_eq_true_2 (j ≤ j)%nat), Nat.sub_diag by lia.
      destruct (widths !! j) as [w0|] eqn:Hw; simpl.
      * assert (j < numCols)%nat by (apply lookup_lt_Some in Hw; lia).
        rewrite bool_decide_eq_true_2 by done. simpl.
        destruct (Z.ltb_spec w0 (StringWidth c)).
        -- rewrite list_lookup_insert_eq by lia. simpl. f_equal. lia.
        -- rewrite Hw. simpl. f_equal. lia.
      * case_match; [|by rewrite Hw].
        rewrite list_insert_ge; [by rewrite Hw|].
        apply lookup_ge_None in Hw. lia.
    + assert ((if bool_decide (j < numCols)%nat
                     && (default 0 (widths !! j) <? StringWidth c)
               then <[j:=StringWidth c]> widths else widths) !! i = widths !! i) as ->.
      { case_match; [|done]. by rewrite list_lookup_insert_ne. }
      destruct (widths !! i); [|done]. simpl. f_equal.
      destruct (decide (S j ≤ i)%nat).
      * rewrite !bool_decide_eq_true_2 by lia.
        replace (i - j)%nat with (S (i - S j)) by lia. done.
      * by rewrite !bool_decide_eq_false_2 by lia.
Qed.

Lemma foldl_widen_length (numCols : nat) (rows : list (list gostring)) (widths : list Z) :
  length (foldl (λ widths row, widen numCols 0 row widths) widths rows) = length widths.
Proof.
  revert widths. induction rows as [|row rows IH]; intros widths; [done|].
  simpl. by rewrite IH, widen_length.
Qed.

Lemma foldl_widen_lookup (numCols : nat) (rows : list (list gostring))
    (widths : list Z) (i : nat) :
  length widths = numCols →
  foldl (λ widths row, widen numCols 0 row widths) widths rows !! i
  = (λ w, foldl (λ m row, grow (row !! i) m) w rows) <$> widths !! i.
Proof.
  revert widths. induction rows as [|row rows IH]; intros widths Hlen.
  - simpl. by destruct (widths !! i).
  - cbn [foldl]. rewrite IH by (by rewrite widen_length).
    rewrite widen_lookup by done.
    rewrite bool_decide_eq_true_2, Nat.sub_0_r by lia.
    by destruct (widths !! i).
Qed.

Lemma foldl_grow (i : nat) (lines : list (list gostring)) (w : Z) :
  0 ≤ w →
  foldl (λ m cells, grow (cells !! i) m) w lines = Z.max w (Zmax_list (column i lines)).
Proof.
  revert w. induction lines as [|cells lines IH]; intros w Hw; simpl; [lia|].
  pose proof (StringWidth_nonneg (cell_at cells i)).
  rewrite IH; rewrite grow_cell_at by done; lia.
Qed.

Lemma computeWidths_length (numCols : nat) (header : list gostring)
    (rows : list (list gostring)) (footer : list gostring) :
  length (computeWidths numCols header rows footer) = numCols.
Proof.
  unfold computeWidths.
  by rewrite widen_length, foldl_widen_length, widen_length, length_replicate.
Qed.

(** [computeWidths] gives every column the greatest display width among
    its cells in the header, the rows and the footer. *)
Lemma computeWidths_lookup (numCols : nat) (header : list gostring)
    (rows : list (list gostring)) (footer : list gostring) (i : nat) :
  (i < numCols)%nat →
  computeWidths numCols header rows footer !! i
  = Some (Zmax_list (column i (header :: rows ++ [footer]))).
Proof.
  intros Hi. unfold computeWidths.
  rewrite widen_lookup by (by rewrite foldl_widen_length, widen_length, length_replicate).
  rewrite foldl_widen_lookup by (by rewrite widen_length, length_replicate).
  rewrite widen_lookup by (by rewrite length_replicate).
  rewrite lookup_replicate_2 by done.
  rewrite bool_decide_eq_true_2, Nat.sub_0_r by lia. cbn [fmap option_fmap option_map].
  f_equal. pose proof (StringWidth_nonneg (cell_at header i)).
  pose proof (Zmax_list_nonneg (column i rows)).
  rewrite !grow_cell_at, foldl_grow; rewrite ?grow_cell_at, ?foldl_grow; try lia.
  unfold column. rewrite fmap_cons, fmap_app. simpl.
  rewrite Zmax_list_app. simpl. lia.
Qed.

(** What a configured maximum does to the width of its column. *)
Definition clamp (max : option Z) (w : Z) : Z :=
  match max with
  | Some m => if (0 <? m) && (m <? w) then m else w
  | None => w
  end.

Lemma clamp_widths_length (numCols i : nat) (maxs widths : list Z) :
  length (clamp_widths numCols i maxs widths) = length widths.
Proof.
  revert i widths. induction maxs as [|m maxs IH]; intros i widths; [done|].
  cbn [clamp_widths]. cbv zeta. rewrite IH. destruct (_ && _); [apply length_insert|done].
Qed.

Lemma clamp_widths_lookup (numCols j : nat) (maxs widths : list Z) (i : nat) :
  length widths = numCols →
  clamp_widths numCols j maxs widths !! i
  = (if bool_decide (j ≤ i)%nat then clamp (maxs !! (i - j)%nat) else id) <$> widths !! i.
Proof.
  revert j widths. induction maxs as [|m maxs IH]; intros j widths Hlen.
  - simpl. rewrite lookup_nil. destruct (widths !! i); simpl; [|done].
    by case_bool_decide.
  - cbn [clamp_widths]. cbv zeta.
    rewrite IH by (destruct (_ && _); by rewrite ?length_insert).
    destruct (decide (i = j)) as [->|Hne].
    + rewrite (bool_decide_eq_false_2 (S j ≤ j)%nat) by lia.
      rewrite (bool_decide_eq_true_2 (j ≤ j)%nat), Nat.sub_diag by lia.
      destruct (widths !! j) as [w0|] eqn:Hw; simpl.
      * assert (j < numCols)%nat by (apply lookup_lt_Some in Hw; lia).
        rewrite bool_decide_eq_true_2 by done. simpl.
        destruct ((0 <? m) && (m <? w0)).
        -- by rewrite list_lookup_insert_eq by lia.
        -- by rewrite Hw.
      * destruct (_ && _); [|by rewrite Hw].
        rewrite list_insert_ge; [by rewrite Hw|].
        apply lookup_ge_None in Hw. lia.
    + assert ((if bool_decide (j < numCols)%nat && (0 <? m)
                     && (m <? default 0 (widths !! j))
               then <[j:=m]> widths else widths) !! i = widths !! i) as ->.
      { destruct (_ && _); [|done]. by rewrite list_lookup_insert_ne. }
      destruct (widths !! i); [|done]. simpl. f_equal.
      destruct (decide (S j ≤ i)%nat).
      * rewrite !bool_decide_eq_true_2 by lia.
        replace (i - j)%nat with (S (i - S j)) by lia. done.
      * by rewrite !bool_decide_eq_false_2 by lia.
Qed.

Lemma clamp_bounds (max : option Z) (w : Z) :
  0 ≤ w → 0 ≤ clamp max w ≤ w ∧ (clamp max w = w ∨ 0 < clamp max w).
Proof.
  intros Hw. unfold clamp. destruct max as [m|]; [|lia].
  destruct (Z.ltb_spec 0 m), (Z.ltb_spec m w); simpl; lia.
Qed.

End ColumnFacts.

(** ** Renderings that only write *)

(** [m] ends normally and every chunk it writes satisfies [P]. *)
Definition writes {A} (P : gostring → Prop) (m : W A) : Prop :=
  Forall P m.1 ∧ ∃ a, m.2 = Ok a.

Lemma writes_ret {A} (P : gostring → Prop) (a : A) : writes P (mret a).
Proof. split; [constructor|by eexists]. Qed.

Lemma writes_write (P : gostring → Prop) (p : gostring) : P p → writes P (write p).
Proof. intros Hp. split; [by repeat constructor|by eexists]. Qed.

Lemma writes_bind {A B} (P : gostring → Prop) (m : W A) (f : A → W B) :
  writes P m → (∀ a, writes P (f a)) → writes P (m ≫= f).
Proof.
  intros [Hm [a Ha]] Hf. destruct m as [out st]. simpl in *. subst st.
  unfold mbind, W_bind. destruct (Hf a) as [Hf1 [b Hf2]].
  destruct (f a) as [out' r]. simpl in *. subst r.
  split; [by apply Forall_app|by eexists].
Qed.

Lemma writes_range {A} (P : gostring → Prop) (l : list A) (body : A → W unit) :
  (∀ x, x ∈ l → writes P (body x)) → writes P (range l body).
Proof.
  induction l as [|x l IH]; intros Hb; simpl; [apply writes_ret|].
  apply writes_bind; [apply Hb; left|]. intros _. apply IH.
  intros y Hy. apply Hb. by right.
Qed.

Lemma writes_range_from {A} (P : gostring → Prop) (i : nat) (l : list A)
    (body : nat → A → W unit) :
  (∀ j x, x ∈ l → writes P (body j x)) → writes P (range_from i l body).
Proof.
  revert i. induction l as [|x l IH]; intros i Hb; simpl; [apply writes_ret|].
  apply writes_bind; [apply Hb; left|]. intros _. apply IH.
  intros j y Hy. apply Hb. by right.
Qed.

Lemma writes_if {A} (P : gostring → Prop) (b : bool) (m1 m2 : W A) :
  writes P m1 → writes P m2 → writes P (if b then m1 else m2).
Proof. by destruct b. Qed.

Lemma W_left_id {A B} (a : A) (f : A → W B) : (([], Ok a) : W A) ≫= f = f a.
Proof. unfold mbind, W_bind. by destruct (f a). Qed.

Lemma W_right_id {A} (m : W A) : m ≫= mret = m.
Proof.
  unfold mbind, W_bind, mret, W_ret. destruct m as [out [a| |]]; [|done..].
  by rewrite app_nil_r.
Qed.

Lemma W_assoc {A B C} (m : W A) (f : A → W B) (g : B → W C) :
  (m ≫= f) ≫= g = m ≫= (λ a, f a ≫= g).
Proof.
  unfold mbind, W_bind. destruct m as [out [a| |]]; [|done..].
  destruct (f a) as [out1 [b| |]]; [|done..].
  destruct (g b) as [out2 r]. by rewrite <- app_assoc.
Qed.

Lemma bind_chunks_prefix {A B} (m : W A) (f : A → W B) :
  ∃ rest, (m ≫= f).1 = m.1 ++ rest.
Proof.
  unfold mbind, W_bind. destruct m as [out [a| |]]; simpl.
  - destruct (f a) as [out' r]. by exists out'.
  - exists []. by rewrite app_nil_r.
  - exists []. by rewrite app_nil_r.
Qed.

(** One step through the structure of a rendering. *)
Ltac writes_step :=
  match goal with
  | |- writes _ (mret _) => apply writes_ret
  | |- writes _ (_ ≫= _) => apply writes_bind; [|intros ?]
  | |- writes _ (if bool_decide _ then _ else _) => case_bool_decide
  | |- writes _ (if _ then _ else _) => apply writes_if
  | |- writes _ (range_from _ _ _) => apply writes_range_from; intros ? ? ?
  | |- writes _ (range _ _) => apply writes_range; intros ? ?
  end.

(** ** Bordered tables *)

Section TableFacts.
Context `{Runewidth}.

(** Plain text: every code point is a stand-alone character or a mark
    of no width, and none is a line break. *)
Definition plain_rune (r : rune) : Prop := (base r || mark r = true) ∧ r ≠ nl.

Definition plain (s : gostring) : Prop := Forall plain_rune s.

(** One line of display width [total], written with its newline. *)
Definition line_of_width (total : Z) (chunk : gostring) : Prop :=
  ∃ line, chunk = line ++ [nl] ∧ (nl ∉ line) ∧ StringWidth line = total.

Lemma plain_simple (s : gostring) : plain s → simple s.
Proof. intros Hs. eapply Forall_impl; [exact Hs|]. by intros r [? _]. Qed.

Lemma plain_one_line (s : gostring) : plain s → nl ∉ s.
Proof.
  intros Hs Hin. unfold plain in Hs. rewrite Forall_forall in Hs.
  by destruct (Hs nl Hin) as [_ ?].
Qed.

Lemma plain_rune_ascii (r : rune) : 32 ≤ r < 127 → plain_rune r.
Proof.
  intros Hr. split; [by rewrite (base_ascii r Hr)|]. unfold nl. lia.
Qed.

Lemma plain_ascii (s : gostring) : Forall (λ r, 32 ≤ r < 127) s → plain s.
Proof. intros Hs. eapply Forall_impl; [exact Hs|]. apply plain_rune_ascii. Qed.

Lemma plain_StringWidth (s : gostring) : plain s → StringWidth s = RunesWidth s.
Proof. intros Hs. by apply StringWidth_simple, plain_simple. Qed.

Lemma plain_space : plain (lit " ").
Proof.
  apply plain_ascii. change (lit " ") with [32].
  apply Forall_cons. split; [lia|constructor].
Qed.

Lemma plain_Itoa (n : Z) : plain (Itoa n).
Proof.
  apply plain_ascii.
  assert (∀ u, Forall (λ r, 32 ≤ r < 127) (uint_digits u)) as Hu.
  { induction u; cbn [uint_digits]; [constructor|..]; apply Forall_cons; (split; [lia|done]). }
  destruct n; cbn [Itoa]; [|done|]; apply Forall_cons; (split; [lia|]); [constructor|done].
Qed.

Lemma writes_Fprintln (total : Z) (line : gostring) :
  plain line → RunesWidth line = total → writes (line_of_width total) (Fprintln line).
Proof.
  intros Hp Hw. apply writes_write. exists line.
  split; [done|]. split; [by apply plain_one_line|]. by rewrite plain_StringWidth.
Qed.

(** The width between the outer borders, in closed form. *)
Definition cells_width (widths : list Z) : Z :=
  foldr (λ w n, (w + 2) + n) 0 widths.

Lemma tableInnerWidth_eq (widths : list Z) :
  tableInnerWidth widths
  = cells_width widths + Z.max 0 (Z.of_nat (length widths) - 1).
Proof.
  unfold tableInnerWidth.
  assert (∀ n, foldl (λ n w, n + (w + 2)) n widths = n + cells_width widths) as ->.
  { induction widths as [|w ws IH]; intros n; simpl; [lia|]. rewrite IH. lia. }
  case_bool_decide; lia.
Qed.

(** The columns of a line with the glyph between them are plain text
    when the cells and the glyph are. *)
Lemma columns_plain (piece : nat → Z → gostring) (sep : gostring)
    (widths : list Z) (n : nat) :
  plain sep → (∀ i w, widths !! i = Some w → plain (piece i w)) →
  plain (concat (imap (λ i w, piece i w
                              ++ (if bool_decide (S i < n)%nat then sep else []))
                      widths)).
Proof.
  intros Hsep Hp. apply Forall_concat, Forall_lookup. intros i x Hi.
  rewrite list_lookup_imap in Hi. destruct (widths !! i) as [w|] eqn:Hw; [|done].
  injection Hi as <-. apply Forall_app. split; [by apply Hp|].
  case_bool_decide; [done|constructor].
Qed.

(** Each column is two wider than its cell, and the glyphs add one
    each. *)
Lemma columns_width (piece : nat → Z → gostring) (sep : gostring)
    (widths : list Z) (j n : nat) :
  n = (j + length widths)%nat → RunesWidth sep = 1 →
  (∀ i w, widths !! i = Some w → RunesWidth (piece (j + i)%nat w) = w + 2) →
  RunesWidth (concat (imap (λ i w, piece (j + i)%nat w
                                   ++ (if bool_decide (S (j + i) < n)%nat
                                       then sep else []))
                           widths))
  = cells_width widths + Z.max 0 (Z.of_nat (length widths) - 1).
Proof.
  intros -> Hsep. revert j. induction widths as [|w ws IH]; intros j Hp; [done|].
  rewrite imap_cons. cbn [concat cells_width length].
  rewrite !RunesWidth_app.
  rewrite (imap_ext _ (λ i w, piece (S j + i)%nat w
                               ++ (if bool_decide (S (S j + i) < j + S (length ws))%nat
                                   then sep else []))).
  2:{ intros i x _. simpl. by replace (j + S i)%nat with (S (j + i)) by lia. }
  replace (j + S (length ws))%nat with (S j + length ws)%nat by lia.
  rewrite IH.
  2:{ intros i x Hx. replace (S j + i)%nat with (j + S i)%nat by lia. by apply Hp. }
  rewrite (Hp 0%nat w eq_refl). rewrite Nat.add_0_r.
  destruct ws as [|w' ws].
  - rewrite bool_decide_eq_false_2 by (simpl; lia). simpl. lia.
  - rewrite bool_decide_eq_true_2 by (simpl; lia). rewrite Hsep.
    unfold cells_width. cbn [foldr length]. lia.
Qed.

(** A glyph of a border: plain text, one column wide. *)
Definition glyph (g : gostring) : Prop := plain g ∧ StringWidth g = 1.

Lemma glyph_width (g : gostring) : glyph g → RunesWidth g = 1.
Proof. intros [Hp Hw]. by rewrite <- plain_StringWidth. Qed.

Lemma drawHLine_text_width (widths : list Z) (left fill mid right : gostring) :
  glyph left → glyph fill → glyph mid → glyph right → Forall (λ w, 0 ≤ w) widths →
  plain (drawHLine_text widths left fill mid right)
  ∧ RunesWidth (drawHLine_text widths left fill mid right) = tableInnerWidth widths + 2.
Proof.
  intros Hl Hf Hm Hr Hw. unfold drawHLine_text. split.
  - apply Forall_app. split; [apply Hl|]. apply Forall_app. split; [|apply Hr].
    apply (columns_plain (λ _ w, Repeat fill (w + 2))); [apply Hm|].
    intros i w _. apply Forall_Repeat, Hf.
  - rewrite !RunesWidth_app, (glyph_width _ Hl), (glyph_width _ Hr), tableInnerWidth_eq.
    pose proof (columns_width (λ _ w, Repeat fill (w + 2)) mid widths 0 (length widths))
      as Hc.
    cbn [Nat.add] in Hc. rewrite Hc; [lia|done|by apply glyph_width|].
    intros i w Hi. rewrite Forall_lookup in Hw. specialize (Hw i w Hi).
    rewrite RunesWidth_Repeat, (glyph_width _ Hf) by lia. lia.
Qed.

Lemma drawBorderedRow_text_width (cell : nat → gostring) (widths : list Z)
    (aligns : list Alignment) (vert : gostring)
    (styles : list (option (gostring → gostring))) :
  glyph vert →
  (∀ i w, widths !! i = Some w →
     plain (styled_cell aligns styles i w (cell i))
     ∧ RunesWidth (styled_cell aligns styles i w (cell i)) = w) →
  plain (drawBorderedRow_text cell widths aligns vert styles)
  ∧ RunesWidth (drawBorderedRow_text cell widths aligns vert styles)
    = tableInnerWidth widths + 2.
Proof.
  intros Hv Hc. unfold drawBorderedRow_text.
  rewrite (imap_ext _ (λ i w, (lit " " ++ styled_cell aligns styles i w (cell i) ++ lit " ")
                              ++ (if bool_decide (S i < length widths)%nat
                                  then vert else [])))
    by (intros; by rewrite <- !app_assoc).
  split.
  - apply Forall_app. split; [apply Hv|]. apply Forall_app. split; [|apply Hv].
    apply (columns_plain
             (λ i w, lit " " ++ styled_cell aligns styles i w (cell i) ++ lit " "));
      [apply Hv|].
    intros i w Hi. repeat (apply Forall_app; split); try apply plain_space.
    by apply Hc.
  - rewrite !RunesWidth_app, (glyph_width _ Hv), tableInnerWidth_eq.
    pose proof (columns_width
                  (λ i w, lit " " ++ styled_cell aligns styles i w (cell i) ++ lit " ")
                  vert widths 0 (length widths)) as Hcw.
    cbn [Nat.add] in Hcw.
    rewrite Hcw; [lia|done|by apply glyph_width|].
    intros i w Hi. destruct (Hc i w Hi) as [_ Hwd].
    rewrite !RunesWidth_app, Hwd.
    change (lit " ") with [32]. cbn [RunesWidth foldr].
    rewrite (RuneWidth_ascii 32) by lia. lia.
Qed.

(** Style functions that return plain text as wide as the plain text
    they are given: a change of case, say.  A colour escape sequence is
    not one of them: its characters are counted like any others. *)
Definition styles_keep_width (styles : list (option (gostring → gostring))) : Prop :=
  ∀ i f, styles !! i = Some (Some f) →
         ∀ s, plain s → plain (f s) ∧ StringWidth (f s) = StringWidth s.

(** No style function, or one that returns its argument, is such a
    list of style functions. *)
Lemma styles_keep_width_id : styles_keep_width [None; Some (λ s, s)].
Proof. intros [|[|i]] f Hi; [done| |done]. injection Hi as <-. by intros s Hs. Qed.

(** Every cell of the line fits its column, unless the column has a
    positive width (and the cell is then cut to it). *)
Definition fits_columns (widths : list Z) (cells : list gostring) : Prop :=
  ∀ i w, widths !! i = Some w → 0 < w ∨ StringWidth (cell_at cells i) ≤ w.

Lemma plain_cell_at (cells : list gostring) (i : nat) :
  Forall plain cells → plain (cell_at cells i).
Proof.
  intros Hc. unfold cell_at. destruct (cells !! i) as [c|] eqn:Hi; [|constructor].
  rewrite Forall_lookup in Hc. by apply (Hc i).
Qed.

Lemma plain_formatTableCell (cell : gostring) (w : Z) (align : Alignment) :
  plain cell → 0 ≤ w → 0 < w ∨ StringWidth cell ≤ w →
  plain (formatTableCell cell w align)
  ∧ StringWidth (formatTableCell cell w align) = w.
Proof.
  intros Hp Hw Hc. split.
  - apply Forall_formatTableCell; [apply plain_rune_ascii; lia..|done].
  - apply formatTableCell_simple; [by apply plain_simple|lia].
Qed.

Lemma styled_cell_width (aligns : list Alignment)
    (styles : list (option (gostring → gostring))) (i : nat) (w : Z) (cell : gostring) :
  styles_keep_width styles → plain cell → 0 ≤ w → 0 < w ∨ StringWidth cell ≤ w →
  plain (styled_cell aligns styles i w cell)
  ∧ RunesWidth (styled_cell aligns styles i w cell) = w.
Proof.
  intros Hs Hp Hw Hc. unfold styled_cell.
  destruct (plain_formatTableCell cell w (default AlignLeft (aligns !! i)) Hp Hw Hc)
    as [Hfp Hfw].
  destruct (styles !! i) as [[f|]|] eqn:Hf; simpl.
  - destruct (Hs i f Hf _ Hfp) as [Hsp Hsw].
    split; [done|]. by rewrite <- plain_StringWidth, Hsw.
  - split; [done|]. by rewrite <- plain_StringWidth.
  - split; [done|]. by rewrite <- plain_StringWidth.
Qed.

Lemma wrapped_at_fits (cells : list gostring) (widths wrapWidths : list Z)
    (i line : nat) (w : Z) :
  widths !! i = Some w → 0 ≤ w → 0 < w ∨ StringWidth (cell_at cells i) ≤ w →
  0 < w ∨ StringWidth (wrapped_at (wrapRow cells widths wrapWidths) i line) ≤ w.
Proof.
  intros Hi Hw Hc. unfold wrapped_at, wrapRow.
  rewrite list_lookup_imap, Hi. cbn [fmap option_fmap option_map default].
  destruct ((0 <? default 0 (wrapWidths !! i)) && (default 0 (wrapWidths !! i) <? w)) eqn:Hww.
  - apply andb_true_iff in Hww as [?%Z.ltb_lt ?%Z.ltb_lt]. lia.
  - destruct line as [|line]; simpl; [done|]. rewrite ?lookup_nil. simpl.
    rewrite StringWidth_nil. lia.
Qed.

Lemma wrapped_at_plain (cells : list gostring) (widths wrapWidths : list Z)
    (i line : nat) :
  Forall plain cells → plain (wrapped_at (wrapRow cells widths wrapWidths) i line).
Proof.
  intros Hc. unfold wrapped_at, wrapRow. rewrite list_lookup_imap.
  destruct (widths !! i) as [w|]; cbn [fmap option_fmap option_map default];
    [|rewrite lookup_nil; constructor].
  pose proof (plain_cell_at cells i Hc) as Hcell. unfold cell_at in Hcell.
  match goal with |- plain (default [] (?l !! line)) =>
    assert (Forall plain l) as Hl
  end.
  { destruct (_ && _); [by apply wrapCell_Forall|by repeat constructor]. }
  rewrite Forall_lookup in Hl.
  match goal with |- plain (default [] (?l !! line)) =>
    destruct (l !! line) as [c|] eqn:Hline; [by apply (Hl line)|constructor]
  end.
Qed.

Lemma drawBorderedRow_writes (cells : list gostring) (widths : list Z)
    (aligns : list Alignment) (vert : gostring)
    (styles : list (option (gostring → gostring))) (wrapWidths : list Z) :
  glyph vert → Forall (λ w, 0 ≤ w) widths → styles_keep_width styles →
  fits_columns widths cells → Forall plain cells →
  writes (line_of_width (tableInnerWidth widths + 2))
         (drawBorderedRow cells widths aligns vert styles wrapWidths).
Proof.
  intros Hv Hw Hs Hc Hp. unfold drawBorderedRow.
  rewrite Forall_lookup in Hw. apply writes_if.
  - apply writes_range. intros line _.
    destruct (drawBorderedRow_text_width
                (λ i, wrapped_at (wrapRow cells widths wrapWidths) i line)
                widths aligns vert styles) as [? ?]; [done| |by apply writes_Fprintln].
    intros i w Hi.
    apply styled_cell_width; [done|by apply wrapped_at_plain|by eapply Hw|].
    apply wrapped_at_fits; [done|by eapply Hw|by apply Hc].
  - destruct (drawBorderedRow_text_width (cell_at cells) widths aligns vert styles)
      as [? ?]; [done| |by apply writes_Fprintln].
    intros i w Hi.
    apply styled_cell_width; [done|by apply plain_cell_at|by eapply Hw|by apply Hc].
Qed.

(** The glyphs of a border set. *)
Definition glyphs (bc : borderChars) : list gostring :=
  [topLeft bc; topRight bc; bottomLeft bc; bottomRight bc; horizontal bc;
   vertical bc; topTee bc; bottomTee bc; leftTee bc; rightTee bc; cross bc].

(** The glyphs of the ASCII border are plain and one column wide in
    every width table. *)
Lemma glyphs_ASCII : Forall glyph (glyphs (borderSets BorderASCII)).
Proof.
  assert (∀ r, 32 ≤ r < 127 → glyph [r]) as Hg.
  { intros r Hr. split; [apply plain_ascii, Forall_cons; split; [done|constructor]|].
    by rewrite StringWidth_single, RuneWidth_ascii. }
  repeat (apply Forall_cons; split; [apply Hg; vm_compute; by split|]). constructor.
Qed.

(** A style without an entry in [borderSets], [BorderNone] among them,
    has no glyphs. *)
Lemma glyphs_unlisted (style : BorderStyle) :
  style ∉ [BorderRounded; BorderASCII; BorderHeavy; BorderDouble] →
  Forall (λ g, g = []) (glyphs (borderSets style)).
Proof.
  intros Hs. unfold borderSets.
  repeat (case_bool_decide as Heq; [destruct Hs; subst style; set_solver|clear Heq]).
  by repeat constructor.
Qed.

Lemma glyphs_bordered (style : BorderStyle) :
  Forall glyph (glyphs (borderSets style)) → style ≠ BorderNone.
Proof.
  intros Hg ->. apply Forall_cons in Hg as [[_ Hw] _].
  change (topLeft (borderSets BorderNone)) with (@nil rune) in Hw.
  rewrite StringWidth_nil in Hw. lia.
Qed.

Lemma renderBorderedTable_writes (title : gostring) (header : list gostring)
    (rows : list (list gostring)) (footer : list gostring) (widths : list Z)
    (aligns : list Alignment) (style : BorderStyle)
    (styles : list (option (gostring → gostring))) (groups : list gostring)
    (wrapWidths : list Z) (pageSize : Z) :
  Forall glyph (glyphs (borderSets style)) →
  Forall (λ w, 0 ≤ w) widths →
  styles_keep_width styles →
  (∀ cells, cells ∈ header :: footer :: rows → fits_columns widths cells) →
  (∀ cells, cells ∈ header :: footer :: rows → Forall plain cells) →
  (title ≠ [] → plain title ∧ StringWidth title ≤ tableInnerWidth widths - 2) →
  writes (line_of_width (tableInnerWidth widths + 2))
         (renderBorderedTable title header rows footer widths aligns style styles
            groups wrapWidths pageSize).
Proof.
  intros Hg Hw Hs Hc Hp Ht. unfold renderBorderedTable.
  unfold glyphs in Hg. rewrite !Forall_cons in Hg.
  destruct Hg as (g1 & g2 & g3 & g4 & g5 & g6 & g7 & g8 & g9 & g10 & g11 & _).
  assert (∀ l f m r, glyph l → glyph f → glyph m → glyph r →
                     writes (line_of_width (tableInnerWidth widths + 2))
                            (drawHLine widths l f m r)) as Hline.
  { intros l f m r ? ? ? ?.
    destruct (drawHLine_text_width widths l f m r) as [? ?]; [done..|].
    by apply writes_Fprintln. }
  assert (∀ cells, cells ∈ header :: footer :: rows →
                   writes (line_of_width (tableInnerWidth widths + 2))
                          (drawBorderedRow cells widths aligns
                             (vertical (borderSets style)) styles wrapWidths)) as Hrow.
  { intros cells Hin. apply drawBorderedRow_writes; auto. }
  cbv zeta. repeat writes_step.
  all: try (apply Hline; assumption).
  all: try (apply Hrow; rewrite !elem_of_cons; by auto).
  match goal with Hne : title ≠ [] |- _ => destruct (Ht Hne) as [Htp Htw] end.
  destruct (alignCell_simple title (tableInnerWidth widths - 2) AlignCenter
              (plain_simple _ Htp)) as [_ Hpw].
  assert (plain (alignCell title (tableInnerWidth widths - 2) AlignCenter)) as Hpp.
  { apply Forall_alignCell; [apply plain_rune_ascii; lia|done]. }
  rewrite (plain_StringWidth _ Hpp) in Hpw.
  replace (vertical (borderSets style) ++ lit " "
           ++ alignCell title (tableInnerWidth widths - 2) AlignCenter
           ++ lit " " ++ vertical (borderSets style) ++ [nl])
    with ((vertical (borderSets style) ++ lit " "
           ++ alignCell title (tableInnerWidth widths - 2) AlignCenter
           ++ lit " " ++ vertical (borderSets style)) ++ [nl])
    by (by rewrite <- !app_assoc).
  apply (writes_Fprintln _ _).
  - repeat (apply Forall_app; split); try apply plain_space; try apply g6. done.
  - rewrite !RunesWidth_app, Hpw, (glyph_width _ g6).
    change (lit " ") with [32]. cbn [RunesWidth foldr].
    rewrite (RuneWidth_ascii 32) by lia. lia.
Qed.

(** The widths [writeTable] ends up with, for any header, rows, footer
    and configured maxima: none is negative, and a cell wider than its
    column is in a column that was clamped to a positive maximum. *)
Lemma table_widths_fit (numCols : nat) (header : list gostring)
    (rows : list (list gostring)) (footer : list gostring) (maxs : option (list Z)) :
  let widths :=
    match maxs with
    | Some maxs => clamp_widths numCols 0 maxs (computeWidths numCols header rows footer)
    | None => computeWidths numCols header rows footer
    end in
  length widths = numCols
  ∧ Forall (λ w, 0 ≤ w) widths
  ∧ (∀ cells, cells ∈ header :: footer :: rows → fits_columns widths cells)
  ∧ (∀ cells i w, cells ∈ header :: footer :: rows → widths !! i = Some w →
       w < StringWidth (cell_at cells i) →
       0 < w ∧ ∃ maxs', maxs = Some maxs' ∧ maxs' !! i = Some w).
Proof.
  intros widths.
  assert (∀ i w, widths !! i = Some w →
            (i < numCols)%nat
            ∧ w = clamp (maxs ≫= (.!! i))
                    (Zmax_list (column i (header :: rows ++ [footer])))) as Hlook.
  { intros i w Hi. subst widths.
    assert (i < numCols)%nat as Hlt.
    { apply lookup_lt_Some in Hi.
      destruct maxs; rewrite ?clamp_widths_length, computeWidths_length in Hi; done. }
    split; [done|]. destruct maxs as [maxs|]; simpl.
    - rewrite clamp_widths_lookup in Hi by apply computeWidths_length.
      rewrite computeWidths_lookup in Hi by done.
      rewrite bool_decide_eq_true_2, Nat.sub_0_r in Hi by lia. by injection Hi.
    - rewrite computeWidths_lookup in Hi by done. by injection Hi. }
  assert (∀ cells i, cells ∈ header :: footer :: rows →
            StringWidth (cell_at cells i)
            ≤ Zmax_list (column i (header :: rows ++ [footer]))) as Hmax.
  { intros cells i Hin. apply Zmax_list_ge. unfold column.
    apply list_elem_of_fmap. exists cells. split; [done|].
    rewrite !elem_of_cons in Hin. rewrite elem_of_cons, elem_of_app, list_elem_of_singleton.
    tauto. }
  split; [|split; [|split]].
  - subst widths. destruct maxs; by rewrite ?clamp_widths_length, computeWidths_length.
  - apply Forall_lookup. intros i w Hi. destruct (Hlook i w Hi) as [_ ->].
    apply clamp_bounds, Zmax_list_nonneg.
  - intros cells Hin i w Hi. destruct (Hlook i w Hi) as [_ ->].
    pose proof (Hmax cells i Hin).
    pose proof (clamp_bounds (maxs ≫= (.!! i))
                  (Zmax_list (column i (header :: rows ++ [footer])))
                  (Zmax_list_nonneg _)). lia.
  - intros cells i w Hin Hi Hwide. destruct (Hlook i w Hi) as [_ Hw].
    pose proof (Hmax cells i Hin).
    set (M := Zmax_list (column i (header :: rows ++ [footer]))) in *.
    unfold clamp in Hw. destruct maxs as [maxs|]; cbn [mbind option_bind] in Hw; [|lia].
    destruct (maxs !! i) as [m|] eqn:Hm; [|lia].
    destruct (Z.ltb_spec 0 m); cbn [andb] in Hw; [|lia].
    destruct (Z.ltb_spec m M); [|lia].
    subst w. split; [done|]. by exists maxs.
Qed.

End TableFacts.

Section TableTheorems.
Context `{Runewidth}.

Lemma extendStyles_keep_width (styles : list (option (gostring → gostring))) (n : nat) :
  styles_keep_width styles → styles_keep_width (extendStyles styles n).
Proof.
  intros Hs i f Hi. unfold extendStyles in Hi. case_bool_decide.
  - apply lookup_take_Some in Hi as [Hi _]. by apply (Hs i).
  - apply lookup_app_Some in Hi as [Hi|[_ Hi]]; [by apply (Hs i)|].
    by apply lookup_replicate in Hi as [? _].
Qed.

(** The layout of [writeTable], for any first item, rows and group keys. *)
Lemma writeTable_layout_fit (first : Item) (rows : list (list gostring))
    (groups : list gostring) :
  let l := writeTable_layout first rows groups in
  Forall (λ w, 0 ≤ w) (l_widths l)
  ∧ (∀ cells, cells ∈ l_header l :: l_footer l :: l_rows l →
       fits_columns (l_widths l) cells)
  ∧ (styles_keep_width (default [] (Styled_Styles first)) →
       styles_keep_width (l_styles l))
  ∧ (∀ cells i w, cells ∈ l_header l :: l_footer l :: l_rows l →
       l_widths l !! i = Some w → w < StringWidth (cell_at cells i) →
       0 < w ∧ ∃ maxs, Truncated_MaxWidths first = Some maxs ∧ maxs !! i = Some w).
Proof.
  unfold writeTable_layout.
  destruct (Numbered_NumberHeader first) as [numHdr|]; cbn [l_widths l_header l_footer
    l_rows l_styles];
    match goal with
    | |- context [match Truncated_MaxWidths first with
                  | Some maxs => clamp_widths ?n 0 maxs (computeWidths ?n ?h ?r ?f)
                  | None => _ end] =>
        destruct (table_widths_fit n h r f (Truncated_MaxWidths first))
          as (_ & Hw & Hc & Hm)
    end.
  - split_and!; [done..| |].
    + intros Hs. apply extendStyles_keep_width.
      intros [|i] f Hi; [done|]. by apply (Hs i).
    + intros cells i w Hin Hi Hwide. by eapply Hm.
  - split_and!; [done..| |].
    + intros Hs. by apply extendStyles_keep_width.
    + intros cells i w Hin Hi Hwide. by eapply Hm.
Qed.

(** The cells [writeTable] is given: the header, the footer and the
    numbering header of the first item, and the rows. *)
Definition plain_cells (first : Item) (rows : list (list gostring)) : Prop :=
  Forall plain (default [] (Headed_Header first))
  ∧ Forall plain (default [] (Footered_Footer first))
  ∧ Forall (Forall plain) rows
  ∧ plain (default [] (Numbered_NumberHeader first)).

(** The cells of the layout are plain when those of the items are: the
    numbering column holds decimal numbers. *)
Lemma writeTable_layout_plain (first : Item) (rows : list (list gostring))
    (groups : list gostring) :
  plain_cells first rows →
  let l := writeTable_layout first rows groups in
  ∀ cells, cells ∈ l_header l :: l_footer l :: l_rows l → Forall plain cells.
Proof.
  intros (Hh & Hf & Hr & Hn). unfold writeTable_layout.
  destruct (Numbered_NumberHeader first) as [numHdr|];
    cbn [l_header l_footer l_rows default] in *;
    intros cells; rewrite !elem_of_cons; intros [->|[->|Hin]].
  - case_bool_decide; [by constructor|done].
  - case_bool_decide; [by repeat constructor|done].
  - apply list_elem_of_lookup_1 in Hin as [i Hi]. rewrite list_lookup_imap in Hi.
    destruct (rows !! i) as [row|] eqn:Hrow; [|done]. injection Hi as <-.
    constructor; [apply plain_Itoa|]. rewrite Forall_lookup in Hr. by apply (Hr i).
  - done.
  - done.
  - rewrite Forall_forall in Hr. by apply Hr.
Qed.

(** Where [formatTableCell] cuts: it keeps whole clusters from the start
    of the cell, as many as fit in front of the tail. *)
Lemma formatTableCell_cut (s : gostring) (w : Z) (align : Alignment) :
  0 < w → w < StringWidth s →
  let k := if w <=? 3 then w else w - 3 in
  let tail := if w <=? 3 then [] else lit "..." in
  ∃ (n : nat) (c : gostring),
    graphemes s !! n = Some c
    ∧ StringWidth (concat (take n (graphemes s))) ≤ k
      < StringWidth (concat (take n (graphemes s))) + cluster_width c
    ∧ formatTableCell s w align = alignCell (concat (take n (graphemes s)) ++ tail) w align.
Proof.
  intros Hw Hs k tail.
  assert (StringWidth tail ≤ w ∧ k = w - StringWidth tail) as [Hk Hkw].
  { subst k tail. destruct (Z.leb_spec w 3); rewrite ?StringWidth_dots, ?StringWidth_nil; lia. }
  destruct (Truncate_kept s w tail Hs Hk) as (n & Hcut & Hfit & c & Hc & Hnext).
  exists n, c. rewrite Hkw. split; [done|]. split; [lia|].
  rewrite <- Hcut. unfold formatTableCell.
  destruct (Z.ltb_spec 0 w); [|lia]. destruct (Z.ltb_spec w (StringWidth s)); [|lia].
  cbn [andb]. subst tail. by destruct (w <=? 3).
Qed.

Lemma clusters_width_singletons (l : gostring) :
  Forall (λ r, RuneWidth r = 1) l →
  clusters_width ((λ r, [r]) <$> l) = Z.of_nat (length l).
Proof.
  induction 1 as [|r l Hr _ IH]; [done|].
  cbn [fmap list_fmap clusters_width foldr cluster_width length] in *.
  rewrite Hr. fold (clusters_width ((λ r, [r]) <$> l)). rewrite IH. lia.
Qed.

Lemma concat_singletons (l : gostring) : concat ((λ r, [r]) <$> l) = l.
Proof. induction l as [|r l IH]; [done|]. cbn [fmap list_fmap concat app]. by f_equal. Qed.

(** C5, as the code has it.  A cell line wider than its column's width
    [w] (which requires [w] to be positive) is cut by display width and
    between grapheme clusters: when [w > 3] the cell keeps the longest
    run of whole clusters from its start that fits in [w - 3] columns
    and gets a literal [...]; when [w <= 3] it keeps the longest such
    run that fits in [w] columns and gets no ellipsis; the run is
    followed in the line by a cluster that no longer fits; the kept text
    is then padded.  On text of stand-alone characters and marks of no
    width the formatted cell, padding included, is exactly [w] columns
    wide; and on text of stand-alone characters one column wide the cell
    is exactly its first [w - 3] characters and the ellipsis,
    respectively its first [w] characters.  In a table a cell is wider
    than its column only when the column was clamped, and [w] is then
    the configured maximum. *)
Theorem table_cell_truncation :
  (∀ (line : gostring) (w : Z) (align : Alignment),
     0 < w → w < StringWidth line →
     ∃ (n : nat) (c : gostring),
       let p := concat (take n (graphemes line)) in
       graphemes line !! n = Some c
       ∧ (3 < w → StringWidth p ≤ w - 3 < StringWidth p + cluster_width c
                  ∧ formatTableCell line w align = alignCell (p ++ lit "...") w align)
       ∧ (w ≤ 3 → StringWidth p ≤ w < StringWidth p + cluster_width c
                  ∧ formatTableCell line w align = alignCell p w align)
       ∧ (simple line → StringWidth (formatTableCell line w align) = w)
       ∧ (Forall (λ r, base r = true ∧ RuneWidth r = 1) line →
          formatTableCell line w align
          = if 3 <? w then take (Z.to_nat (w - 3)) line ++ lit "..."
            else take (Z.to_nat w) line))
  ∧ (∀ (first : Item) (rows : list (list gostring)) (groups : list gostring)
       (i : nat) (w : Z) (cells : list gostring),
       let l := writeTable_layout first rows groups in
       l_widths l !! i = Some w →
       cells ∈ l_header l :: l_footer l :: l_rows l →
       w < StringWidth (cell_at cells i) →
       0 < w ∧ ∃ maxs, Truncated_MaxWidths first = Some maxs ∧ maxs !! i = Some w).
Proof.
  split.
  - intros line w align Hw Hline.
    destruct (formatTableCell_cut line w align Hw Hline) as (n & c & Hc & Hfit & Hfmt).
    cbv zeta in *. exists n, c. split; [done|]. split; [|split; [|split]].
    + intros H3. destruct (Z.leb_spec w 3); [lia|]. done.
    + intros H3. destruct (Z.leb_spec w 3); [|lia]. by rewrite app_nil_r in Hfmt.
    + intros Hsimple. apply formatTableCell_simple; [done|lia].
    + intros Hone. rewrite Hfmt.
      assert (Forall (λ r, base r = true) line) as Hbase
        by (eapply Forall_impl; [exact Hone|]; by intros r [? _]).
      assert (Forall (λ r, RuneWidth r = 1) line) as Hwidth
        by (eapply Forall_impl; [exact Hone|]; by intros r [_ ?]).
      assert (simple line) as Hsimple.
      { eapply Forall_impl; [exact Hbase|]. intros r Hr. cbv beta. by rewrite Hr. }
      assert (graphemes line = (λ r, [r]) <$> line) as Hg
        by (rewrite (graphemes_simple line Hsimple); by apply group_all_base).
      rewrite Hg in Hc, Hfit, Hfmt |- *.
      apply lookup_lt_Some in Hc as Hn. rewrite length_fmap in Hn.
      rewrite list_lookup_fmap in Hc.
      apply fmap_Some in Hc as (r & Hr & ->).
      rewrite <- fmap_take, concat_singletons in Hfit, Hfmt |- *.
      assert (StringWidth (take n line) = Z.of_nat n) as Hp.
      { rewrite StringWidth_simple, RunesWidth_ones by (by apply Forall_take).
        rewrite length_take. lia. }
      rewrite Hp in Hfit. cbn [cluster_width] in Hfit.
      rewrite Forall_lookup in Hwidth. rewrite (Hwidth n r Hr) in Hfit.
      assert (simple (take n line)) as Hsp by (by apply Forall_take).
      destruct (Z.leb_spec w 3), (Z.ltb_spec 3 w); try lia.
      * replace (Z.to_nat w) with n by lia. rewrite app_nil_r.
        apply alignCell_exact. lia.
      * replace (Z.to_nat (w - 3)) with n by lia.
        apply alignCell_exact.
        rewrite StringWidth_simple, RunesWidth_app, <- !StringWidth_simple,
          StringWidth_dots, Hp; [lia| |done|].
        -- apply simple_ascii, ascii_dots.
        -- apply simple_app. split; [done|apply simple_ascii, ascii_dots].
  - intros first rows groups i w cells l Hi Hin Hwide.
    destruct (writeTable_layout_fit first rows groups) as (_ & _ & _ & Hm).
    by eapply Hm.
Qed.

(** The rows and the group keys [writeTable] collects from a batch in
    which every item has what the first one has. *)
Definition rows_of (items : list Item) : list (list gostring) :=
  (λ item, default [] (Rower_Row item)) <$> items.

Definition groups_of (items : list Item) : list gostring :=
  match items with
  | first :: _ =>
      match Grouped_Group first with
      | Some _ => (λ item, default [] (Grouped_Group item)) <$> items
      | None => []
      end
  | [] => []
  end.

(** Every item implements [Rower], and [Grouped] if the first one does:
    none of the type assertions of [writeTable] panics. *)
Definition uniform (items : list Item) : Prop :=
  Forall (λ item, is_Some (Rower_Row item)) items
  ∧ match items with
    | first :: _ =>
        is_Some (Grouped_Group first) →
        Forall (λ item, is_Some (Grouped_Group item)) items
    | [] => True
    end.

Lemma collect_assert {A} (f : Item → option A) (d : A) (items : list Item) :
  Forall (λ item, is_Some (f item)) items →
  collect items (λ item, assert (f item)) = ([], Ok ((λ item, default d (f item)) <$> items)).
Proof.
  induction 1 as [|x l [a Ha] _ IH]; [done|].
  cbn [collect]. rewrite Ha. cbn [assert]. unfold mbind, W_bind, mret, W_ret in *.
  rewrite IH. simpl. by rewrite Ha.
Qed.

Lemma writeTable_uniform (first : Item) (rest : list Item) :
  uniform (first :: rest) →
  let l := writeTable_layout first (rows_of (first :: rest)) (groups_of (first :: rest)) in
  writeTable (Some (first :: rest))
  = ((if bool_decide (l_border l = BorderNone) then
        renderPlainTable (l_header l) (l_rows l) (l_footer l) (l_widths l)
          (l_aligns l) (l_styles l) (l_groups l) (l_wrapWidths l) (l_pageSize l)
      else
        renderBorderedTable (l_title l) (l_header l) (l_rows l) (l_footer l)
          (l_widths l) (l_aligns l) (l_border l) (l_styles l) (l_groups l)
          (l_wrapWidths l) (l_pageSize l)) ;;
     if bool_decide (l_caption l ≠ []) then Fprintln (l_caption l) else mret tt).
Proof.
  intros [Hrows Hgroups] l. unfold writeTable.
  change (elems (Some (first :: rest))) with (first :: rest).
  pose proof Hrows as Hfirst. apply Forall_cons in Hfirst as [[row Hrow] _].
  rewrite Hrow. rewrite (collect_assert Rower_Row [] _ Hrows).
  subst l. unfold groups_of, rows_of.
  destruct (Grouped_Group first) as [g|] eqn:Hg.
  - rewrite (collect_assert Grouped_Group [] _ (Hgroups (mk_is_Some _ _ eq_refl))).
    by rewrite !W_left_id.
  - unfold mret, W_ret. by rewrite !W_left_id.
Qed.

(** C7, as the code has it.  In a bordered table all of whose items
    implement what the first one does, every write of the renderer
    (borders, title line, header, rows, footer) is one line, and all
    these lines have the same display width, whatever full-width
    characters or marks of no width the cells hold, provided that: the
    glyphs of the border are plain and one column wide (as those of the
    ASCII border always are; a style without glyphs has none); the cells
    and the numbering header are plain text, that is, stand-alone
    characters and marks of no width without a line break; the title, if
    any, is plain and no wider than the space between the border columns
    less the padding; and the style functions return plain text as wide
    as what they are given.  The caption, if any, follows as a write of
    its own. *)
Theorem bordered_table_aligned (first : Item) (rest : list Item) :
  let items := first :: rest in
  let l := writeTable_layout first (rows_of items) (groups_of items) in
  uniform items →
  Forall glyph (glyphs (borderSets (l_border l))) →
  plain_cells first (rows_of items) →
  (l_title l ≠ [] →
   plain (l_title l) ∧ StringWidth (l_title l) ≤ tableInnerWidth (l_widths l) - 2) →
  styles_keep_width (default [] (Styled_Styles first)) →
  ∃ chunks,
    writeTable (Some items)
    = (chunks ++ (if bool_decide (l_caption l ≠ []) then [l_caption l ++ [nl]] else []),
       Ok tt)
    ∧ chunks ≠ []
    ∧ Forall (line_of_width (tableInnerWidth (l_widths l) + 2)) chunks.
Proof.
  intros items l Hu Hg Hp Ht Hs. subst items.
  pose proof (glyphs_bordered _ Hg) as Hb.
  rewrite (writeTable_uniform first rest Hu). fold l.
  rewrite (bool_decide_eq_false_2 (l_border l = BorderNone)) by done.
  destruct (writeTable_layout_fit first (rows_of (first :: rest))
              (groups_of (first :: rest))) as (Hw & Hc & Hst & _).
  pose proof (writeTable_layout_plain first (rows_of (first :: rest))
                (groups_of (first :: rest)) Hp) as Hpl.
  fold l in Hw, Hc, Hst, Hpl. cbv zeta in Hpl.
  pose proof (renderBorderedTable_writes (l_title l) (l_header l) (l_rows l)
                (l_footer l) (l_widths l) (l_aligns l) (l_border l) (l_styles l)
                (l_groups l) (l_wrapWidths l) (l_pageSize l) Hg Hw (Hst Hs) Hc Hpl Ht)
    as [Hall [[] Hok]].
  assert ((renderBorderedTable (l_title l) (l_header l) (l_rows l)
                (l_footer l) (l_widths l) (l_aligns l) (l_border l) (l_styles l)
                (l_groups l) (l_wrapWidths l) (l_pageSize l)).1 ≠ []) as Hne.
  { unfold renderBorderedTable. cbv zeta.
    match goal with |- (?m ≫= ?f).1 ≠ [] =>
      destruct (bind_chunks_prefix m f) as [r ->] end.
    case_bool_decide; [|done].
    match goal with |- (?m ≫= ?f).1 ++ _ ≠ [] =>
      destruct (bind_chunks_prefix m f) as [r' ->] end.
    done. }
  destruct (renderBorderedTable _ _ _ _ _ _ _ _ _ _ _) as [chunks st].
  simpl in Hall, Hok, Hne. subst st. exists chunks.
  split; [|done]. unfold mbind, W_bind. by case_bool_decide.
Qed.

End TableTheorems.

(** ** Tables: examples *)

(** An item for the table formats: a row, and the optional interfaces
    given. *)
Definition table_item (row : list gostring) (header : option (list gostring))
    (title : option gostring) (border : option BorderStyle)
    (aligns : option (list Alignment)) (footer : option (list gostring))
    (maxs : option (list Z)) : Item :=
  {| type_name := lit "main.row"; default_text := lit "{}"; json_value := Some (JObject []);
     json_error := ExternalError [];
     Stringer_String := None; Formatter_Format := None; Indented_Indent := None;
     Rower_Row := Some row; Lister_List := None; Mappable_Pairs := None;
     Headed_Header := header; Titled_Title := title; Bordered_Border := border;
     Aligned_Alignments := aligns; Footered_Footer := footer;
     Numbered_NumberHeader := None; Captioned_Caption := None;
     Truncated_MaxWidths := maxs; Delimited_Delimiter := None;
     Separator_Sep := None; Exported_Export := None; Quoted_Quote := None;
     Styled_Styles := None; Grouped_Group := None; Wrapped_WrapWidths := None;
     Paged_PageSize := None |}.

(** The rows of the package's truncation tests, with the ASCII border:
    maximum widths 4 and 3, and 2 and 0. *)
Definition truncatedRow : Item :=
  table_item [lit "Alexander"; lit "30"] (Some [lit "Name"; lit "Age"]) None
    (Some BorderASCII) None None (Some [4; 3]).

Definition tinyTruncRow : Item :=
  table_item [lit "Alexander"; lit "30"] (Some [lit "Name"; lit "Age"]) None
    (Some BorderASCII) None None (Some [2; 0]).

Example writeTable_truncated :
  bytes (@writeTable example_widths (Some [truncatedRow]))
  = lit "+------+-----+" ++ [nl]
    ++ lit "| Name | Age |" ++ [nl]
    ++ lit "+------+-----+" ++ [nl]
    ++ lit "| A... | 30  |" ++ [nl]
    ++ lit "+------+-----+" ++ [nl].
Proof. vm_compute. reflexivity. Qed.

Example writeTable_truncated_tiny :
  bytes (@writeTable example_widths (Some [tinyTruncRow]))
  = lit "+----+-----+" ++ [nl]
    ++ lit "| Na | Age |" ++ [nl]
    ++ lit "+----+-----+" ++ [nl]
    ++ lit "| Al | 30  |" ++ [nl]
    ++ lit "+----+-----+" ++ [nl].
Proof. vm_compute. reflexivity. Qed.

(** The claim of C5 fails where a full-width character straddles the
    cut: in a column of width 3 the text kept of two full-width
    characters is one of them, two columns and not three, and in a column
    of width 4 nothing is kept in front of the ellipsis, where the claim
    has one column; the padding makes up the difference. *)
Lemma truncation_not_exact :
  @Truncate example_widths [ni; hao] 3 [] = [ni]
  ∧ @StringWidth example_widths (@Truncate example_widths [ni; hao] 3 []) ≠ 3
  ∧ @formatTableCell example_widths [ni; hao] 3 AlignLeft = [ni; 32]
  ∧ @Truncate example_widths [ni; hao; ni; hao] 4 (lit "...") = lit "..."
  ∧ @formatTableCell example_widths [ni; hao; ni; hao] 4 AlignLeft = lit "... ".
Proof. vm_compute. repeat split; discriminate. Qed.

Lemma table_cell_truncation_witness :
  @formatTableCell example_widths (lit "Alexander") 4 AlignLeft = lit "A..."
  ∧ @formatTableCell example_widths (lit "Alexander") 2 AlignLeft = lit "Al"
  ∧ (0 < 4 ∧ ∃ maxs, Truncated_MaxWidths truncatedRow = Some maxs ∧ maxs !! 0%nat = Some 4).
Proof.
  destruct (@table_cell_truncation example_widths) as [HA HB].
  split; [|split].
  - destruct (HA (lit "Alexander") 4 AlignLeft) as (n & c & _ & _ & _ & _ & Hs);
      [lia|vm_compute; reflexivity|].
    rewrite Hs; [reflexivity|]. repeat constructor.
  - destruct (HA (lit "Alexander") 2 AlignLeft) as (n & c & _ & _ & _ & _ & Hs);
      [lia|vm_compute; reflexivity|].
    rewrite Hs; [reflexivity|]. repeat constructor.
  - apply (HB truncatedRow [[lit "Alexander"; lit "30"]] [] 0%nat 4
              [lit "Alexander"; lit "30"]).
    + reflexivity.
    + do 2 right. left.
    + vm_compute. reflexivity.
Defined.

(** A table with full-width characters and a combining mark, a title, a
    header and a footer: U+0301 is a combining acute accent. *)
Definition wideRows : list Item :=
  [ table_item [[ni; hao]; lit "e" ++ [0x301] ++ lit "t" ++ [0x301]]
      (Some [lit "Key"; lit "Value"]) (Some (lit "Title")) None None
      (Some [lit "Total"; []]) None;
    table_item [lit "Status"; [hao]] None None None None None None ].

Lemma bordered_table_aligned_witness :
  ∃ chunks,
    @writeTable example_widths (Some wideRows) = (chunks, Ok tt)
    ∧ length chunks = 10%nat
    ∧ Forall (@line_of_width example_widths 18) chunks.
Proof.
  destruct (@bordered_table_aligned example_widths
              (table_item [[ni; hao]; lit "e" ++ [0x301] ++ lit "t" ++ [0x301]]
                 (Some [lit "Key"; lit "Value"]) (Some (lit "Title")) None None
                 (Some [lit "Total"; []]) None)
              [table_item [lit "Status"; [hao]] None None None None None None])
    as (chunks & Hw & Hne & Hall).
  - split; [|intros [? [=]]].
    repeat constructor; by eexists.
  - repeat (apply Forall_cons; split;
              [split; [by repeat constructor|vm_compute; reflexivity]|]).
    constructor.
  - split_and!; repeat constructor; discriminate.
  - intros _. split; [repeat constructor; discriminate|vm_compute; discriminate].
  - intros i f Hi. by destruct i.
  - exists chunks. split; [|split].
    + rewrite app_nil_r in Hw. exact Hw.
    + rewrite app_nil_r in Hw. apply (f_equal (λ r, length r.1)) in Hw.
      simpl in Hw. rewrite <- Hw. vm_compute. reflexivity.
    + exact Hall.
Defined.

(** A one-column table of a single full-width character under a title
    that is wider than the column. *)
Definition titledRow : Item :=
  table_item [[ni]] None (Some (lit "People")) None None None None.

(** The claim of C7 fails on it: the title line is ten columns wide
    between borders of six. *)
Lemma bordered_table_title_overflows :
  (λ chunk, @StringWidth example_widths (removelast chunk))
    <$> (@writeTable example_widths (Some [titledRow])).1
  = [6; 10; 6; 6; 6]
  ∧ ¬ ∃ total, Forall (@line_of_width example_widths total)
                 (@writeTable example_widths (Some [titledRow])).1.
Proof.
  split; [vm_compute; reflexivity|].
  intros [total Hall].
  rewrite Forall_lookup in Hall.
  destruct (Hall 0%nat _ eq_refl) as (l0 & E0 & _ & W0).
  destruct (Hall 1%nat _ eq_refl) as (l1 & E1 & _ & W1).
  pose proof (removelast_last l0 nl) as R0. rewrite <- E0 in R0.
  pose proof (removelast_last l1 nl) as R1. rewrite <- E1 in R1.
  rewrite <- R0 in W0. rewrite <- R1 in W1.
  vm_compute in W0, W1. congruence.
Qed.

(** A cell with a line break is written as it is: the write of its row
    is two lines, neither as wide as the borders. *)
Example bordered_table_line_break :
  (@writeTable example_widths
     (Some [table_item [[97; nl; 98]] None None (Some BorderASCII) None None None])).1
  = [lit "+----+" ++ [nl]; lit "| a" ++ [nl] ++ lit "b |" ++ [nl]; lit "+----+" ++ [nl]].
Proof. vm_compute. reflexivity. Qed.

(** ** Markdown *)

(** The marker of the separator row, in the words of the specification:
    [width-1] dashes and a colon for a right-aligned column, a colon,
    [width-2] dashes and a colon for a centred one, [width] dashes
    otherwise. *)
Definition spec_marker (width : Z) (align : Alignment) : gostring :=
  match align with
  | AlignRight => replicate (Z.to_nat (width - 1)) 45 ++ [58]
  | AlignCenter => [58] ++ replicate (Z.to_nat (width - 2)) 45 ++ [58]
  | AlignLeft => replicate (Z.to_nat width) 45
  end.

Lemma Repeat_dash (n : Z) : Repeat (lit "-") n = replicate (Z.to_nat n) 45.
Proof.
  unfold Repeat. induction (Z.to_nat n) as [|k IH]; [done|].
  simpl. by rewrite IH.
Qed.

Lemma extendAligns_lookup (aligns : list Alignment) (n i : nat) :
  (i < n)%nat →
  default AlignLeft (extendAligns aligns n !! i) = default AlignLeft (aligns !! i).
Proof.
  intros Hi. unfold extendAligns. case_bool_decide.
  - by rewrite lookup_take_lt.
  - destruct (aligns !! i) eqn:Ha.
    + by rewrite (lookup_app_l_Some _ _ _ _ Ha).
    + apply lookup_ge_None in Ha. rewrite lookup_app_r by done.
      by rewrite lookup_replicate_2 by lia.
Qed.

Section MarkdownFacts.
Context `{Runewidth}.

Lemma writeMarkdown_widths_length (header : list gostring) (rows : list (list gostring)) :
  length (writeMarkdown_widths header rows) = length header.
Proof.
  unfold writeMarkdown_widths.
  by rewrite length_map, foldl_widen_length, widen_length, length_replicate.
Qed.

Lemma writeMarkdown_widths_lookup (header : list gostring) (rows : list (list gostring))
    (i : nat) :
  (i < length header)%nat →
  writeMarkdown_widths header rows !! i
  = Some (Z.max 3 (Zmax_list (column i (header :: rows)))).
Proof.
  intros Hi. unfold writeMarkdown_widths.
  change (map ?f ?l) with (f <$> l). rewrite list_lookup_fmap.
  rewrite foldl_widen_lookup by (by rewrite widen_length, length_replicate).
  rewrite widen_lookup by (by rewrite length_replicate).
  rewrite lookup_replicate_2 by done.
  rewrite bool_decide_eq_true_2, Nat.sub_0_r by lia.
  cbn [fmap option_fmap option_map]. f_equal.
  pose proof (StringWidth_nonneg (cell_at header i)).
  rewrite grow_cell_at, foldl_grow by lia.
  unfold column. rewrite fmap_cons. simpl.
  destruct (Z.ltb_spec
              (Z.max (Z.max 0 (StringWidth (cell_at header i)))
                 (Zmax_list ((λ cells, StringWidth (cell_at cells i)) <$> rows))) 3); lia.
Qed.

Lemma writeMarkdown_sep_spec (widths : list Z) (aligns : list Alignment) (n : nat) :
  length widths = n →
  writeMarkdown_sep widths (extendAligns aligns n)
  = imap (λ i w, spec_marker w (default AlignLeft (aligns !! i))) widths.
Proof.
  intros Hlen. unfold writeMarkdown_sep. apply imap_ext. intros i w Hi.
  assert (i < n)%nat as Hlt by (apply lookup_lt_Some in Hi; lia).
  rewrite (extendAligns_lookup _ _ _ Hlt).
  destruct (default AlignLeft (aligns !! i)); simpl; by rewrite Repeat_dash.
Qed.

Lemma range_writeMarkdownRow (rows : list (list gostring)) (widths : list Z)
    (aligns : list Alignment) :
  ∃ out, range rows (λ row, writeMarkdownRow row widths aligns) = (out, Ok tt)
         ∧ length out = length rows.
Proof.
  induction rows as [|r rs [out [IH Hlen]]]; [by exists []|].
  cbn [range]. rewrite IH. eexists. split; [reflexivity|]. simpl. by rewrite Hlen.
Qed.

(** C6.  In the Markdown rendering of a batch with a header (every item
    implementing [Rower]) there is one width per header cell; the width
    of a column is the greatest display width among its header cell and
    its cell in every row, and at least 3; and the second line written
    is the separator row, whose marker for a column of width [w] is
    [w-1] dashes and [:] when it is right-aligned, [:], [w-2] dashes and
    [:] when centred, and [w] dashes otherwise. *)
Theorem markdown_widths_and_markers (first : Item) (rest : list Item)
    (header : list gostring) :
  let items := first :: rest in
  let rows := rows_of items in
  let widths := writeMarkdown_widths header rows in
  let aligns := default [] (Aligned_Alignments first) in
  let markers := imap (λ i w, spec_marker w (default AlignLeft (aligns !! i))) widths in
  Headed_Header first = Some header →
  Forall (λ item, is_Some (Rower_Row item)) items →
  length widths = length header
  ∧ (∀ i, (i < length header)%nat →
       widths !! i = Some (Z.max 3 (Zmax_list (column i (header :: rows)))))
  ∧ ∃ headerRow dataRows,
      writeMarkdown (Some items)
      = (headerRow
         :: (lit "| " ++ Join markers (lit " | ") ++ lit " |" ++ [nl])
         :: dataRows, Ok tt)
      ∧ length dataRows = length items.
Proof.
  intros items rows widths aligns markers Hh Hrows.
  split; [apply writeMarkdown_widths_length|].
  split; [intros i Hi; by apply writeMarkdown_widths_lookup|].
  unfold writeMarkdown. change (elems (Some items)) with items.
  pose proof Hrows as Hfirst. apply Forall_cons in Hfirst as [[row Hrow] _].
  subst items. cbv beta iota.
  rewrite Hrow, Hh. rewrite (collect_assert Rower_Row [] _ Hrows), W_left_id.
  rewrite (writeMarkdown_sep_spec _ _ (length header))
    by apply writeMarkdown_widths_length.
  destruct (range_writeMarkdownRow
              ((λ item, default [] (Rower_Row item)) <$> first :: rest)
              (writeMarkdown_widths header
                 ((λ item, default [] (Rower_Row item)) <$> first :: rest))
              (extendAligns (default [] (Aligned_Alignments first)) (length header)))
    as (out & -> & Hlen).
  eexists _, out. split; [reflexivity|].
  rewrite length_fmap in Hlen. exact Hlen.
Qed.

End MarkdownFacts.

(** The package's Markdown tests: a plain table, and one with a
    right-aligned second column. *)
Example writeMarkdown_basic :
  bytes (@writeMarkdown example_widths
           (Some [table_item [lit "Alice"; lit "30"] (Some [lit "Name"; lit "Age"])
                    None None (Some [AlignLeft; AlignRight]) None None;
                  table_item [lit "Bob"; lit "25"] (Some [lit "Name"; lit "Age"])
                    None None (Some [AlignLeft; AlignRight]) None None]))
  = lit "| Name  | Age |" ++ [nl]
    ++ lit "| ----- | --: |" ++ [nl]
    ++ lit "| Alice |  30 |" ++ [nl]
    ++ lit "| Bob   |  25 |" ++ [nl].
Proof. vm_compute. reflexivity. Qed.

Example writeMarkdown_center_floor :
  bytes (@writeMarkdown example_widths
           (Some [table_item [lit "a"; [ni; hao]] (Some [lit "X"; lit "Y"])
                    None None (Some [AlignCenter; AlignCenter]) None None]))
  = lit "|  X  |  Y   |" ++ [nl]
    ++ lit "| :-: | :--: |" ++ [nl]
    ++ lit "|  a  | " ++ [ni; hao] ++ lit " |" ++ [nl].
Proof. vm_compute. reflexivity. Qed.

Lemma markdown_widths_and_markers_witness :
  let first := table_item [lit "a"; [ni; hao]] (Some [lit "X"; lit "Y"])
                 None None (Some [AlignCenter; AlignRight]) None None in
  @writeMarkdown_widths example_widths [lit "X"; lit "Y"] (rows_of [first]) = [3; 4]
  ∧ (@writeMarkdown example_widths (Some [first])).1 !! 1%nat
    = Some (lit "| :-: | ---: |" ++ [nl]).
Proof.
  intros first.
  destruct (@markdown_widths_and_markers example_widths first [] [lit "X"; lit "Y"])
    as (Hlen & Hw & hd & rows & Hwrite & Hrows).
  - reflexivity.
  - repeat constructor. by eexists.
  - split.
    + apply (list_eq_same_length _ _ 2%nat); [done|done|].
      intros i x y Hi Hx Hy. rewrite Hw in Hx by (simpl; lia).
      destruct i as [|[|i]]; [| |simpl in Hi; lia];
        vm_compute in Hx, Hy; congruence.
    + rewrite Hwrite. reflexivity.
Defined.

(** ** The dispatcher *)

(** Stand-ins for the encoders outside the repository, to run examples
    with: the template engine copies the template text, the YAML encoder
    refuses everything, and [%q] puts the value between double quotes. *)
Definition example_externals : Externals :=
  {| yaml_Encode := λ _ _, inr (ExternalError (lit "yaml: not available"));
     template := gostring;
     template_Parse := inl;
     template_Execute := λ tmpl _, (tmpl, None);
     strconv_Quote := λ s, [dquote] ++ s ++ [dquote] |}.

(** A Go string as an item of a [[]any] batch. *)
Definition string_item (s : gostring) : Item :=
  plain_item (lit "string") s (Some (JString s)).

(** An item whose [Format] answers every format with the bytes
    [CUSTOM] and a newline, and one whose [Format] always returns
    [(nil, nil)]; neither implements another interface. *)
Definition custom_item : Item :=
  {| type_name := lit "main.custom"; default_text := lit "{}";
     json_value := Some (JObject []); json_error := ExternalError [];
     Stringer_String := None;
     Formatter_Format := Some (λ _, FormatBytes (lit "CUSTOM" ++ [nl]));
     Indented_Indent := None;
     Rower_Row := None; Lister_List := None; Mappable_Pairs := None;
     Headed_Header := None; Titled_Title := None; Bordered_Border := None;
     Aligned_Alignments := None; Footered_Footer := None;
     Numbered_NumberHeader := None; Captioned_Caption := None;
     Truncated_MaxWidths := None; Delimited_Delimiter := None;
     Separator_Sep := None; Exported_Export := None; Quoted_Quote := None;
     Styled_Styles := None; Grouped_Group := None; Wrapped_WrapWidths := None;
     Paged_PageSize := None |}.

Definition fallthrough_item : Item :=
  {| type_name := lit "main.fallthrough"; default_text := lit "{}";
     json_value := Some (JObject []); json_error := ExternalError [];
     Stringer_String := None;
     Formatter_Format := Some (λ _, FormatNil);
     Indented_Indent := None;
     Rower_Row := None; Lister_List := None; Mappable_Pairs := None;
     Headed_Header := None; Titled_Title := None; Bordered_Border := None;
     Aligned_Alignments := None; Footered_Footer := None;
     Numbered_NumberHeader := None; Captioned_Caption := None;
     Truncated_MaxWidths := None; Delimited_Delimiter := None;
     Separator_Sep := None; Exported_Export := None; Quoted_Quote := None;
     Styled_Styles := None; Grouped_Group := None; Wrapped_WrapWidths := None;
     Paged_PageSize := None |}.

Section WriteFacts.
Context `{Runewidth} `{Externals}.

Lemma render_JSON items : render JSON items = writeJSON items.
Proof. reflexivity. Qed.
Lemma render_YAML items : render YAML items = writeYAML items.
Proof. reflexivity. Qed.
Lemma render_CSV items : render CSV items = writeCSV items.
Proof. reflexivity. Qed.
Lemma render_Table items : render Table items = writeTable items.
Proof. reflexivity. Qed.
Lemma render_Markdown items : render Markdown items = writeMarkdown items.
Proof. reflexivity. Qed.
Lemma render_List items : render List items = writeList items.
Proof. reflexivity. Qed.
Lemma render_ENV items : render ENV items = writeENV items.
Proof. reflexivity. Qed.
Lemma render_Plain items : render Plain items = writePlain items.
Proof. reflexivity. Qed.
Lemma render_TSV items : render TSV items = writeTSV items.
Proof. reflexivity. Qed.
Lemma render_JSONL items : render JSONL items = writeJSONL items.
Proof. reflexivity. Qed.
Lemma render_HTML items : render HTML items = writeHTML items.
Proof. reflexivity. Qed.

(** Without a [Formatter] on the first item, [Write] is the switch. *)
Lemma Write_render (f : Format) (items : slice Item) :
  match elems items with
  | first :: _ => Formatter_Format first = None
  | [] => True
  end →
  Write f items = render f items.
Proof.
  unfold Write. destruct (elems items) as [|first rest]; [done|].
  by intros ->.
Qed.

(** C3, as the code has it.  When the first item does not implement
    [Formatter] and lacks the interface the format requires ([Rower] for
    CSV, Table and Markdown, [Lister] for List, [Mappable] for ENV),
    [Write] fails with an error that matches [ErrMissingInterface] and
    names the format and the interface, and it has written nothing. *)
Theorem Write_missing_interface (f : Format) (items : slice Item)
    (first : Item) (rest : list Item) :
  elems items = first :: rest →
  Formatter_Format first = None →
  (f ∈ [CSV; Table; Markdown] ∧ Rower_Row first = None)
  ∨ (f = List ∧ Lister_List first = None)
  ∨ (f = ENV ∧ Mappable_Pairs first = None) →
  ∃ required,
    Write f items = ([], Fail (MissingInterfaceError f required (type_name first)))
    ∧ errors_Is (MissingInterfaceError f required (type_name first)) ErrMissingInterface
      = true
    ∧ bytes (Write f items) = [].
Proof.
  intros Hitems Hfmt Hmiss.
  rewrite Write_render by (by rewrite Hitems).
  destruct Hmiss as [[Hf Hrow]|[[-> Hlist]|[-> Hpairs]]].
  - exists (lit "Rower").
    rewrite !elem_of_cons, elem_of_nil in Hf.
    destruct Hf as [->|[->|[->|[]]]].
    + rewrite render_CSV. unfold writeCSV. by rewrite Hitems, Hrow.
    + rewrite render_Table. unfold writeTable. by rewrite Hitems, Hrow.
    + rewrite render_Markdown. unfold writeMarkdown. by rewrite Hitems, Hrow.
  - exists (lit "Lister"). rewrite render_List. unfold writeList.
    by rewrite Hitems, Hlist.
  - exists (lit "Mappable"). rewrite render_ENV. unfold writeENV.
    by rewrite Hitems, Hpairs.
Qed.

(** The indent the JSON encoder is given: that of the first item. *)
Definition json_indent (first : Item) : option gostring :=
  let indent := default [] (Indented_Indent first) in
  if bool_decide (indent = []) then None else Some indent.


End WriteFacts.

(** The package's JSON tests: a single struct, two strings, a nil item,
    and no item at all. *)
Example Write_JSON_examples :
  let W := @Write example_widths example_externals in
  bytes (W JSON (Some [plain_item (lit "struct") (lit "{Alice}")
                         (Some (JObject [(lit "name", JString (lit "Alice"))]))]))
  = lit "{" ++ [dquote] ++ lit "name" ++ [dquote] ++ lit ":"
    ++ [dquote] ++ lit "Alice" ++ [dquote] ++ lit "}" ++ [nl]
  ∧ bytes (W JSON (Some [string_item (lit "a")])) = [dquote] ++ lit "a" ++ [dquote; nl]
  ∧ bytes (W JSON (Some [string_item (lit "a"); string_item (lit "b")]))
    = lit "[" ++ [dquote] ++ lit "a" ++ [dquote] ++ lit "," ++ [dquote] ++ lit "b"
      ++ [dquote] ++ lit "]" ++ [nl]
  ∧ bytes (W JSON (Some [plain_item (lit "<nil>") (lit "<nil>") (Some JNull)]))
    = lit "null" ++ [nl]
  ∧ bytes (W JSON None) = lit "null" ++ [nl].
Proof. vm_compute. done. Qed.



Lemma Write_missing_interface_witness :
  let W := @Write example_widths example_externals in
  (∃ required,
     W CSV (Some [string_item (lit "a")])
     = ([], Fail (MissingInterfaceError CSV required (lit "string")))
     ∧ errors_Is (MissingInterfaceError CSV required (lit "string")) ErrMissingInterface
       = true
     ∧ bytes (W CSV (Some [string_item (lit "a")])) = [])
  ∧ (∃ required,
       W ENV (Some [string_item (lit "a")])
       = ([], Fail (MissingInterfaceError ENV required (lit "string")))
       ∧ errors_Is (MissingInterfaceError ENV required (lit "string")) ErrMissingInterface
         = true
       ∧ bytes (W ENV (Some [string_item (lit "a")])) = []).
Proof.
  split.
  - apply (@Write_missing_interface example_widths example_externals CSV
             (Some [string_item (lit "a")]) (string_item (lit "a")) []);
      [reflexivity|reflexivity|].
    left. split; [left|reflexivity].
  - apply (@Write_missing_interface example_widths example_externals ENV
             (Some [string_item (lit "a")]) (string_item (lit "a")) []);
      [reflexivity|reflexivity|].
    right; right. split; reflexivity.
Defined.

(** The claim of C3 fails on items that implement [Formatter]: a first
    item without [Rower] whose override answers is rendered with no error
    at all, and when a later item falls through to the CSV renderer the
    [ErrMissingInterface] comes after bytes have been written. *)
Lemma Write_missing_interface_not_always :
  Rower_Row custom_item = None
  ∧ @Write example_widths example_externals CSV (Some [custom_item])
    = ([lit "CUSTOM" ++ [nl]], Ok tt)
  ∧ @Write example_widths example_externals CSV (Some [custom_item; fallthrough_item])
    = ([lit "CUSTOM" ++ [nl]],
       Fail (MissingInterfaceError CSV (lit "Rower") (lit "main.fallthrough"))).
Proof. vm_compute. done. Qed.

(** ** Streaming and batch rendering *)

Lemma W_ret_bind {A B} (a : A) (f : A → W B) : mret a ≫= f = f a.
Proof. apply W_left_id. Qed.

Lemma W_crash_bind {A B} (out : list gostring) (f : A → W B) :
  ((out, Crash) : W A) ≫= f = (out, Crash).
Proof. reflexivity. Qed.

Lemma W_fail_bind {A B} (out : list gostring) (e : error) (f : A → W B) :
  ((out, Fail e) : W A) ≫= f = (out, Fail e).
Proof. reflexivity. Qed.

Lemma W_ok_bind {A B} (out : list gostring) (a : A) (f : A → W B) :
  ((out, Ok a) : W A) ≫= f = ((out ++ (f a).1), (f a).2).
Proof. unfold mbind, W_bind. by destruct (f a). Qed.

Section StreamFacts.
Context `{Runewidth} `{Externals}.

Lemma WriteIter_JSON seq : WriteIter JSON seq = streamJSON seq.
Proof. reflexivity. Qed.
Lemma WriteIter_YAML seq : WriteIter YAML seq = streamCollect YAML seq.
Proof. reflexivity. Qed.
Lemma WriteIter_Table seq : WriteIter Table seq = streamCollect Table seq.
Proof. reflexivity. Qed.
Lemma WriteIter_Markdown seq : WriteIter Markdown seq = streamCollect Markdown seq.
Proof. reflexivity. Qed.
Lemma WriteIter_HTML seq : WriteIter HTML seq = streamCollect HTML seq.
Proof. reflexivity. Qed.
Lemma WriteIter_List seq : WriteIter List seq = streamCollect List seq.
Proof. reflexivity. Qed.
Lemma WriteIter_ENV seq : WriteIter ENV seq = streamCollect ENV seq.
Proof. reflexivity. Qed.
Lemma WriteIter_CSV seq : WriteIter CSV seq = streamCSV seq.
Proof. reflexivity. Qed.
Lemma WriteIter_TSV seq : WriteIter TSV seq = streamTSV seq.
Proof. reflexivity. Qed.
Lemma WriteIter_JSONL seq : WriteIter JSONL seq = streamJSONL seq.
Proof. reflexivity. Qed.
Lemma WriteIter_Plain seq : WriteIter Plain seq = streamPlain seq.
Proof. reflexivity. Qed.

(** A tag that is none of the eleven static ones reaches the default
    branch of both switches. *)
Lemma render_other (f : Format) (items : slice Item) :
  f ∉ formats →
  render f items
  = match CutPrefix f goTemplatePrefix with
    | Some tmpl => writeGoTemplate tmpl items
    | None => fail (UnsupportedFormatError f)
    end.
Proof.
  unfold formats. rewrite !not_elem_of_cons. intros Hf. unfold render.
  by rewrite !bool_decide_eq_false_2 by tauto.
Qed.

Lemma WriteIter_other (f : Format) (seq : list Item) :
  f ∉ formats →
  WriteIter f seq
  = match CutPrefix f goTemplatePrefix with
    | Some tmpl => streamGoTemplate tmpl seq
    | None => fail (UnsupportedFormatError f)
    end.
Proof.
  unfold formats. rewrite !not_elem_of_cons. intros Hf. unfold WriteIter.
  by rewrite !bool_decide_eq_false_2 by tauto.
Qed.

(** The callback that appends to a slice collects the whole source. *)
Lemma produce_collect (seq : list Item) (items : slice Item) :
  produce seq (λ item (items : slice Item), mret (Some (elems items ++ [item]), true)) items
  = mret (match seq with [] => items | _ :: _ => Some (elems items ++ seq) end).
Proof.
  revert items. induction seq as [|item seq IH]; intros items; [done|].
  cbn [produce]. rewrite W_ret_bind. cbv beta iota. rewrite IH.
  destruct seq; [done|]. simpl. by rewrite <- app_assoc.
Qed.

Lemma streamCollect_Write (f : Format) (first : Item) (rest : list Item) :
  streamCollect f (first :: rest) = Write f (Some (first :: rest)).
Proof. unfold streamCollect. by rewrite produce_collect, W_ret_bind. Qed.

Lemma streamGoTemplate_write (tmpl : gostring) (first : Item) (rest : list Item) :
  streamGoTemplate tmpl (first :: rest) = writeGoTemplate tmpl (Some (first :: rest)).
Proof. unfold streamGoTemplate. by rewrite produce_collect, W_ret_bind. Qed.

(** A callback that runs [body], never asks to stop and leaves the
    captured variables as they are, is the loop of the batch renderer. *)
Lemma produce_steady {L} (seq : list Item) (body : Item → W unit)
    (yield : Item → L → W (L * bool)) (l : L) :
  (∀ item, yield item l = body item ≫= λ _, mret (l, true)) →
  produce seq yield l = range seq body ≫= λ _, mret l.
Proof.
  intros Hy. induction seq as [|item seq IH]; [done|].
  cbn [produce range]. rewrite Hy. destruct (body item) as [out [[]|e|]]; [|done..].
  rewrite !W_ok_bind. cbn [mret W_ret fst snd]. rewrite app_nil_r.
  rewrite !W_ok_bind. cbv beta iota. rewrite IH.
  destruct (range seq body) as [o [[]|e|]]; unfold mbind, W_bind, mret, W_ret; simpl;
    by rewrite ?app_nil_r.
Qed.

(** A callback that stops at the first error of [body] and hands it
    over is the loop of the batch renderer, which returns it. *)
Lemma produce_try (seq : list Item) (body : Item → W unit) :
  produce seq (λ item (streamErr : option error),
                 err ← try (body item);
                 match err with
                 | Some e => mret (Some e, false)
                 | None => mret (streamErr, true)
                 end) None ≫= return_err
  = range seq body.
Proof.
  induction seq as [|item seq IH]; [done|].
  cbn [produce range]. destruct (body item) as [out [[]|e|]]; cbn [try].
  - rewrite !W_ok_bind. cbn [mret W_ret fst snd]. rewrite app_nil_r.
    rewrite W_assoc, W_ok_bind. cbv beta iota. rewrite IH. reflexivity.
  - unfold mbind, W_bind, mret, W_ret, return_err, fail. simpl.
    by rewrite ?app_nil_r.
  - reflexivity.
Qed.

Lemma streamPlain_write (seq : list Item) : streamPlain seq = writePlain (Some seq).
Proof.
  unfold streamPlain, writePlain. cbn [elems default from_option id].
  rewrite (produce_steady seq
             (λ item, Fprintln (match Stringer_String item with
                                | Some str => str
                                | None => default_text item
                                end))) by done.
  destruct (range seq _) as [o [[]|e|]];
    unfold mbind, W_bind, mret, W_ret, return_err; simpl; by rewrite ?app_nil_r.
Qed.

Lemma streamJSONL_write (seq : list Item) : streamJSONL seq = writeJSONL (Some seq).
Proof. unfold streamJSONL, writeJSONL. apply produce_try. Qed.


(** Unfolds the operations of a rendering to pairs of chunks and status. *)
Ltac W_compute :=
  unfold mbind, W_bind, mret, W_ret, Fprintln, write, fail, crash, assert, try,
    return_err, buffered;
  simpl; rewrite ?app_nil_r.

Lemma streamTSV_yield_first (item : Item) (streamErr : option error) :
  streamTSV_yield item (true, streamErr)
  = match Rower_Row item with
    | None =>
        mret ((false, Some (MissingInterfaceError TSV (lit "Rower") (type_name item))),
              false)
    | Some _ =>
        err ← try (Write TSV (Some [item]));
        match err with
        | Some e => mret ((false, Some e), false)
        | None => mret ((false, streamErr), true)
        end
    end.
Proof. reflexivity. Qed.

Lemma streamCSV_yield_first (item : Item) (streamErr : option error) :
  streamCSV_yield item (true, streamErr)
  = match Rower_Row item with
    | None =>
        mret ((false, Some (MissingInterfaceError CSV (lit "Rower") (type_name item))),
              false)
    | Some _ =>
        err ← try (Write CSV (Some [item]));
        match err with
        | Some e => mret ((false, Some e), false)
        | None => mret ((false, streamErr), true)
        end
    end.
Proof. reflexivity. Qed.

Lemma streamTSV_write (first : Item) (rest : list Item) :
  Formatter_Format first = None →
  streamTSV (first :: rest) = writeTSV (Some (first :: rest)).
Proof.
  intros Hfmt. unfold streamTSV. cbn [produce]. rewrite streamTSV_yield_first.
  unfold writeTSV at 1. change (elems (Some (first :: rest))) with (first :: rest).
  cbv beta iota.
  destruct (Rower_Row first) as [row|] eqn:Hrow; [|reflexivity].
  rewrite (Write_render TSV (Some [first])) by done.
  rewrite render_TSV. unfold writeTSV. change (elems (Some [first])) with [first].
  cbv beta iota. rewrite Hrow. cbn [range]. rewrite Hrow.
  set (body := λ item : Item, row ← assert (Rower_Row item); Fprintln (Join row [9])).
  assert (produce rest streamTSV_yield (false, None)
          = range rest body ≫= λ _, mret (false, None)) as Hrest.
  { apply produce_steady. intros item. unfold streamTSV_yield. subst body.
    cbv beta iota. by rewrite W_assoc. }
  destruct (Headed_Header first) as [header|]; W_compute; rewrite Hrest;
    destruct (range rest body) as [o2 [[]|e|]]; W_compute; done.
Qed.

Lemma csv_Write_comma (record : list gostring) :
  csv_Write 44 record = write (Join (map (csv_field 44) record) [44] ++ [nl]).
Proof. reflexivity. Qed.

Lemma writeCSVRow_write (row : list gostring) :
  writeCSVRow row = write (Join (map (csv_field 44) row) [44] ++ [nl]).
Proof.
  unfold writeCSVRow. rewrite csv_Write_comma. unfold buffered, write. simpl.
  rewrite app_nil_r. rewrite bool_decide_eq_false_2; [done|].
  by destruct (Join _ _).
Qed.

Lemma range_assert_write_status {A} (f : Item → option A) (g : A → gostring)
    (seq : list Item) (e : error) :
  (range seq (λ item, a ← assert (f item); write (g a))).2 ≠ Fail e.
Proof.
  induction seq as [|item seq IH]; [done|].
  cbn [range]. destruct (f item) as [a|]; [|done].
  W_compute. by destruct (range seq _) as [o st].
Qed.

Lemma concat_buffer (c : gostring) :
  concat (if bool_decide (c = []) then [] else [c]) = c.
Proof. case_bool_decide as Hc; simpl; by rewrite ?app_nil_r, ?Hc. Qed.

Lemma observe_buffered (m : W unit) :
  (∀ e, m.2 ≠ Fail e) → observe (buffered m) = observe m.
Proof.
  destruct m as [out [[]|e|]]; simpl; intros Hm; [|by destruct (Hm e)|done].
  by case_bool_decide as Hc; simpl; rewrite ?app_nil_r, ?Hc.
Qed.

Lemma streamCSV_observe (first : Item) (rest : list Item) :
  Formatter_Format first = None →
  default 44 (Delimited_Delimiter first) = 44 →
  observe (streamCSV (first :: rest)) = observe (writeCSV (Some (first :: rest))).
Proof.
  intros Hfmt Hcomma. unfold streamCSV. cbn [produce]. rewrite streamCSV_yield_first.
  unfold writeCSV at 1. change (elems (Some (first :: rest))) with (first :: rest).
  cbv beta iota.
  destruct (Rower_Row first) as [row|] eqn:Hrow; [|reflexivity].
  rewrite (Write_render CSV (Some [first])) by done.
  rewrite render_CSV. unfold writeCSV. change (elems (Some [first])) with [first].
  cbv beta iota. rewrite Hrow, Hcomma. cbn [range]. rewrite Hrow.
  set (line := λ record : list gostring, Join (map (csv_field 44) record) [44] ++ [nl]).
  set (body := λ item : Item, row ← assert (Rower_Row item); write (line row)).
  assert (produce rest streamCSV_yield (false, None)
          = range rest body ≫= λ _, mret (false, None)) as Hrest.
  { apply produce_steady. intros item. unfold streamCSV_yield. subst body.
    cbv beta iota. destruct (Rower_Row item) as [r|]; [|reflexivity].
    cbn [assert]. rewrite !W_ret_bind, writeCSVRow_write. reflexivity. }
  pose proof (range_assert_write_status Rower_Row line rest) as Hst. fold body in Hst.
  change (range rest (λ item, row0 ← assert (Rower_Row item); csv_Write 44 row0))
    with (range rest body).
  assert (∀ r, csv_Write 44 r = write (line r)) as Hcw by reflexivity.
  cbn [assert]. rewrite ?W_ret_bind.
  destruct (Headed_Header first) as [header|]; rewrite !Hcw;
    W_compute; rewrite Hrest;
    destruct (range rest body) as [o2 [[]|e|]]; W_compute;
    try done; try (by destruct (Hst e)).
  all: rewrite ?concat_app, !concat_buffer; by rewrite <- ?app_assoc.
Qed.


(** Two calls that a caller cannot tell apart end the same way, and
    have written the same bytes unless they panicked. *)
Lemma observe_eq (m1 m2 : W unit) :
  observe m1 = observe m2 → m1.2 = m2.2 ∧ (m2.2 ≠ Crash → bytes m1 = bytes m2).
Proof.
  destruct m1 as [out1 [[]|e1|]], m2 as [out2 [[]|e2|]]; unfold bytes; simpl;
    intros Heq; try discriminate; split; try done; congruence.
Qed.

(** The batch CSV renderer ends normally when every item has a row. *)
Lemma writeCSV_ok (first : Item) (rest : list Item) :
  default 44 (Delimited_Delimiter first) = 44 →
  Forall (λ item, is_Some (Rower_Row item)) (first :: rest) →
  (writeCSV (Some (first :: rest))).2 = Ok tt.
Proof.
  intros Hcomma Hrows. unfold writeCSV.
  change (elems (Some (first :: rest))) with (first :: rest). cbv beta iota.
  pose proof Hrows as Hfirst. apply Forall_cons in Hfirst as [[row Hrow] _].
  rewrite Hrow, Hcomma.
  assert (∀ (seq : list Item),
            Forall (λ item, is_Some (Rower_Row item)) seq →
            ∃ out, range seq (λ item, row ← assert (Rower_Row item); csv_Write 44 row)
                   = (out, Ok tt)) as Hrange.
  { induction 1 as [|item seq [r Hr] _ [out IH]]; [by exists []|].
    cbn [range]. rewrite Hr, IH. cbn [assert]. rewrite W_ret_bind, csv_Write_comma.
    eexists. W_compute. reflexivity. }
  destruct (Hrange _ Hrows) as [out ->].
  destruct (Headed_Header first) as [header|]; rewrite ?csv_Write_comma; by W_compute.
Qed.


(** What a streamed item looks like in the JSON array: its document,
    with HTML escaping off, and a newline. *)
Definition streamJSON_elem (item : Item) : gostring :=
  match json_value item with
  | Some j => json_text false (json_indent item) 0 j ++ [nl]
  | None => []
  end.

Lemma Join_cons (e : gostring) (l : list gostring) (sep : gostring) :
  Join (e :: l) sep = e ++ concat ((λ x, sep ++ x) <$> l).
Proof.
  revert e. induction l as [|x l IH]; intros e; [by rewrite app_nil_r|].
  change (Join (e :: x :: l) sep) with (e ++ sep ++ Join (x :: l) sep).
  rewrite IH. simpl. by rewrite <- app_assoc.
Qed.

Lemma streamJSON_yield_eq (item : Item) (first : bool) (encErr : option error) :
  streamJSON_yield item (first, encErr)
  = ((if negb first then write (lit ",") else mret tt) ;;
     err ← try (json_Encode false (default [] (Indented_Indent item)) (VItem item));
     match err with
     | Some e => mret ((false, Some e), false)
     | None => mret ((false, encErr), true)
     end).
Proof. reflexivity. Qed.

Lemma produce_streamJSON (seq : list Item) (first : bool) :
  Forall (λ item, is_Some (json_value item)) seq →
  ∃ out b,
    produce seq streamJSON_yield (first, None) = (out, Ok (b, None))
    ∧ concat out
      = if first then Join (streamJSON_elem <$> seq) (lit ",")
        else concat ((λ x, lit "," ++ x) <$> (streamJSON_elem <$> seq)).
Proof.
  intros Hseq. revert first. induction Hseq as [|item seq [j Hj] _ IH]; intros first.
  { exists [], first. by destruct first. }
  destruct (IH false) as (out & b & Hout & Hcat).
  assert (json_Encode false (default [] (Indented_Indent item)) (VItem item)
          = write (streamJSON_elem item)) as Henc.
  { unfold json_Encode, streamJSON_elem, json_indent. cbn [json_of]. by rewrite Hj. }
  assert (produce (item :: seq) streamJSON_yield (first, None)
          = ((if first then [] else [lit ","]) ++ streamJSON_elem item :: out,
             Ok (b, None))) as ->.
  { cbn [produce]. rewrite streamJSON_yield_eq, Henc.
    destruct first; W_compute; by rewrite Hout. }
  eexists _, b. split; [reflexivity|].
  rewrite concat_app, !fmap_cons. cbn [concat]. rewrite Hcat.
  destruct first.
  - by rewrite Join_cons.
  - simpl. by rewrite ?app_nil_r.
Qed.

(** Streaming JSON, by design: an opening bracket, the items one by one,
    each with its newline and with a comma before all but the first, and
    a closing bracket.  A single item is in an array too. *)
Lemma streamJSON_bytes (seq : list Item) :
  Forall (λ item, is_Some (json_value item)) seq →
  (WriteIter JSON seq).2 = Ok tt
  ∧ bytes (WriteIter JSON seq)
    = lit "[" ++ Join (streamJSON_elem <$> seq) (lit ",") ++ lit "]" ++ [nl].
Proof.
  intros Hseq. rewrite WriteIter_JSON. unfold streamJSON, bytes.
  destruct (produce_streamJSON seq true Hseq) as (out & b & -> & Hcat).
  W_compute. split; [done|]. rewrite concat_app, Hcat. simpl. by rewrite ?app_nil_r.
Qed.

End StreamFacts.

(** The package's streaming tests for CSV and TSV. *)
Definition headedRows : list Item :=
  [ table_item [lit "Alice"; lit "30"] (Some [lit "Name"; lit "Age"])
      None None None None None;
    table_item [lit "Bob"; lit "25"] (Some [lit "Name"; lit "Age"])
      None None None None None ].

Example WriteIter_CSV_TSV :
  bytes (@WriteIter example_widths example_externals CSV headedRows)
  = lit "Name,Age" ++ [nl] ++ lit "Alice,30" ++ [nl] ++ lit "Bob,25" ++ [nl]
  ∧ bytes (@WriteIter example_widths example_externals TSV headedRows)
    = lit "Name" ++ [9] ++ lit "Age" ++ [nl] ++ lit "Alice" ++ [9] ++ lit "30" ++ [nl]
      ++ lit "Bob" ++ [9] ++ lit "25" ++ [nl].
Proof. vm_compute. done. Qed.


(** An item after the first without a row makes both calls panic, the
    streaming one after it has written the rows before it, the batch
    one before its buffer is flushed. *)
Example stream_batch_CSV_panic :
  let alice := table_item [lit "Alice"; lit "30"] (Some [lit "Name"; lit "Age"])
                 None None None None None in
  let x := string_item (lit "x") in
  @WriteIter example_widths example_externals CSV [alice; x]
  = ([lit "Name,Age" ++ [nl] ++ lit "Alice,30" ++ [nl]], Crash)
  ∧ @Write example_widths example_externals CSV (Some [alice; x]) = ([], Crash).
Proof. vm_compute. done. Qed.


(** * Further properties *)

(** ** Tags, templates and unsupported formats *)

Lemma GoTemplate_not_static (tmpl : gostring) : GoTemplate tmpl ∉ formats.
Proof.
  unfold GoTemplate, formats. intros Hin.
  repeat (apply elem_of_cons in Hin as [Hin|Hin]; [vm_compute in Hin; discriminate|]).
  by apply elem_of_nil in Hin.
Qed.

Lemma CutPrefix_GoTemplate (tmpl : gostring) :
  CutPrefix (GoTemplate tmpl) goTemplatePrefix = Some tmpl.
Proof.
  unfold CutPrefix, GoTemplate. rewrite HasPrefix_app. by rewrite drop_app_length.
Qed.

Lemma CutPrefix_None (s prefix : gostring) :
  HasPrefix s prefix = false → CutPrefix s prefix = None.
Proof. unfold CutPrefix. by intros ->. Qed.

Section TagFacts.
Context `{Runewidth} `{Externals}.

(** X1.  A tag made by [GoTemplate] is accepted by [ParseFormat] as it is, is
    none of the static tags, and gives its template text back, whatever
    the text is: [Write] (when the first item is not a [Formatter]) and
    [WriteIter] hand exactly that text to the template renderer. *)
Theorem GoTemplate_round_trip (tmpl : gostring) (items : slice Item) (seq : list Item) :
  ParseFormat (GoTemplate tmpl) = (GoTemplate tmpl, None)
  ∧ (GoTemplate tmpl ∉ formats)
  ∧ CutPrefix (GoTemplate tmpl) goTemplatePrefix = Some tmpl
  ∧ ((match elems items with
      | first :: _ => Formatter_Format first = None
      | [] => True
      end) → Write (GoTemplate tmpl) items = writeGoTemplate tmpl items)
  ∧ WriteIter (GoTemplate tmpl) seq = streamGoTemplate tmpl seq.
Proof.
  pose proof (GoTemplate_not_static tmpl) as Hns.
  split_and!; [|done|apply CutPrefix_GoTemplate|..].
  - unfold ParseFormat, GoTemplate. by rewrite HasPrefix_app.
  - intros Hfmt. rewrite Write_render by done.
    by rewrite render_other, CutPrefix_GoTemplate.
  - by rewrite WriteIter_other, CutPrefix_GoTemplate.
Qed.

(** X2.  A tag that [ParseFormat] rejects, one that neither starts with
    [go-template=] nor is a static tag, is rejected by the entry points
    too, with the same error and before anything is written: by [Write]
    and [Marshal] when the first item is not a [Formatter] (or there is
    no item), and by [WriteIter] for every sequence. *)
Theorem unsupported_tag (s : gostring) (items : slice Item) (seq : list Item) :
  HasPrefix s goTemplatePrefix = false → s ∉ formats →
  match elems items with
  | first :: _ => Formatter_Format first = None
  | [] => True
  end →
  ParseFormat s = ([], Some (UnsupportedFormatError s))
  ∧ Write s items = ([], Fail (UnsupportedFormatError s))
  ∧ Marshal s items = Fail (UnsupportedFormatError s)
  ∧ WriteIter s seq = ([], Fail (UnsupportedFormatError s))
  ∧ errors_Is (UnsupportedFormatError s) ErrUnsupportedFormat = true.
Proof.
  intros Hp Hs Hfmt.
  assert (Write s items = ([], Fail (UnsupportedFormatError s))) as HW.
  { rewrite Write_render by done. by rewrite render_other, CutPrefix_None. }
  split_and!; [|done| |by rewrite WriteIter_other, CutPrefix_None|done].
  - unfold ParseFormat. by rewrite Hp, ParseFormat_range_None.
  - unfold Marshal. by rewrite HW.
Qed.

End TagFacts.

Lemma GoTemplate_round_trip_witness :
  @Write example_widths example_externals (GoTemplate (lit "{{.Name}}"))
    (Some [string_item (lit "a")])
  = @writeGoTemplate example_externals (lit "{{.Name}}") (Some [string_item (lit "a")]).
Proof.
  by apply (@GoTemplate_round_trip example_widths example_externals (lit "{{.Name}}")
              (Some [string_item (lit "a")]) []).
Defined.

Lemma unsupported_tag_witness :
  @Write example_widths example_externals (lit "xml") (Some [string_item (lit "a")])
  = ([], Fail (UnsupportedFormatError (lit "xml")))
  ∧ @WriteIter example_widths example_externals (lit "xml") [string_item (lit "a")]
    = ([], Fail (UnsupportedFormatError (lit "xml"))).
Proof.
  destruct (@unsupported_tag example_widths example_externals (lit "xml")
              (Some [string_item (lit "a")]) [string_item (lit "a")])
    as (_ & HW & _ & HI & _); [reflexivity| |reflexivity|by split].
  unfold formats. intros Hin.
  repeat (apply elem_of_cons in Hin as [Hin|Hin]; [vm_compute in Hin; discriminate|]).
  by apply elem_of_nil in Hin.
Defined.

(** ** Renderings that fail only where the CSV writer fails *)

(** When [m] ends with an error, the error is the one of the CSV writer
    for a delimiter it refuses, which wraps nothing. *)
Definition external_fail {A} (m : W A) : Prop :=
  ∀ e, m.2 = Fail e → ∃ msg, e = ExternalError msg.

Lemma external_writes {A} (P : gostring → Prop) (m : W A) : writes P m → external_fail m.
Proof. intros [_ [a Ha]] e He. congruence. Qed.

Lemma external_ret {A} (a : A) : external_fail (mret a).
Proof. by intros e. Qed.

Lemma external_write (p : gostring) : external_fail (write p).
Proof. by intros e. Qed.

Lemma external_assert {A} (m : option A) : external_fail (assert m).
Proof. by destruct m; intros e. Qed.

Lemma external_bind {A B} (m : W A) (f : A → W B) :
  external_fail m → (∀ a, external_fail (f a)) → external_fail (m ≫= f).
Proof.
  intros Hm Hf e. unfold mbind, W_bind. destruct m as [out [a|e'|]]; simpl.
  - specialize (Hf a e). by destruct (f a) as [out' r].
  - intros [= ->]. by apply Hm.
  - done.
Qed.

Lemma external_range {A} (l : list A) (body : A → W unit) :
  (∀ x, external_fail (body x)) → external_fail (range l body).
Proof.
  intros Hb. induction l as [|x l IH]; simpl; [apply external_ret|].
  by apply external_bind.
Qed.

Lemma external_range_from {A} (i : nat) (l : list A) (body : nat → A → W unit) :
  (∀ j x, external_fail (body j x)) → external_fail (range_from i l body).
Proof.
  intros Hb. revert i. induction l as [|x l IH]; intros i; simpl; [apply external_ret|].
  by apply external_bind.
Qed.

Lemma external_collect {A B} (l : list A) (f : A → W B) :
  (∀ x, external_fail (f x)) → external_fail (collect l f).
Proof.
  intros Hf. induction l as [|x l IH]; simpl; [apply external_ret|].
  apply external_bind; [done|]. intros y.
  apply external_bind; [done|]. intros ys. apply external_ret.
Qed.

Lemma external_buffered (m : W unit) : external_fail m → external_fail (buffered m).
Proof. intros Hm e. destruct m as [out [[]|e'|]]; simpl; [done| |done]. apply Hm. Qed.

Lemma external_csv_Write (comma : rune) (record : list gostring) :
  external_fail (csv_Write comma record).
Proof.
  unfold csv_Write. destruct (csv_validDelim comma); [apply external_write|].
  intros e [= <-]. by eexists.
Qed.

(** One step through the structure of a rendering. *)
Ltac external_step :=
  match goal with
  | |- external_fail (mret _) => apply external_ret
  | |- external_fail (assert _) => apply external_assert
  | |- external_fail (csv_Write _ _) => apply external_csv_Write
  | |- external_fail (write _) => apply external_write
  | |- external_fail (Fprintln _) => apply external_write
  | |- external_fail (buffered _) => apply external_buffered
  | |- external_fail (_ ≫= _) => apply external_bind; [|intros ?]
  | |- external_fail (range_from _ _ _) => apply external_range_from; intros ? ?
  | |- external_fail (range _ _) => apply external_range; intros ?
  | |- external_fail (collect _ _) => apply external_collect; intros ?
  | |- external_fail (match ?x with _ => _ end) => destruct x
  end.

(** A rendering that only writes: it ends normally. *)
Ltac writes_any :=
  repeat first [ writes_step | apply writes_write; exact I ].

Lemma writes_assert {A B} (P : gostring → Prop) (m : option A) (f : A → W B) :
  is_Some m → (∀ a, writes P (f a)) → writes P (assert m ≫= f).
Proof. intros [a ->] Hf. cbn [assert]. rewrite W_ret_bind. apply Hf. Qed.

Section SupportFacts.
Context `{Runewidth} `{Externals}.

Lemma writeHTML_cells_ok (tag : gostring) (aligns : list Alignment) (cells : list gostring) :
  writes (λ _, True) (writeHTML_cells tag aligns cells).
Proof. unfold writeHTML_cells. writes_any. Qed.

Lemma writePlainSep_ok (widths : list Z) : writes (λ _, True) (writePlainSep widths).
Proof. unfold writePlainSep, Fprintln. writes_any. Qed.

Lemma writePlainRow_ok cells widths aligns styles wrapWidths :
  writes (λ _, True) (writePlainRow cells widths aligns styles wrapWidths).
Proof. unfold writePlainRow, Fprintln. cbv zeta. writes_any. Qed.

Lemma drawHLine_ok widths left fill mid right :
  writes (λ _, True) (drawHLine widths left fill mid right).
Proof. unfold drawHLine, Fprintln. writes_any. Qed.

Lemma drawBorderedRow_ok cells widths aligns vert styles wrapWidths :
  writes (λ _, True) (drawBorderedRow cells widths aligns vert styles wrapWidths).
Proof. unfold drawBorderedRow, Fprintln. cbv zeta. writes_any. Qed.

Lemma renderPlainTable_ok header rows footer widths aligns styles groups wrapWidths pageSize :
  writes (λ _, True)
    (renderPlainTable header rows footer widths aligns styles groups wrapWidths pageSize).
Proof.
  unfold renderPlainTable.
  repeat first [ apply writePlainSep_ok | apply writePlainRow_ok | writes_step ].
Qed.

Lemma renderBorderedTable_ok title header rows footer widths aligns style styles groups
    wrapWidths pageSize :
  writes (λ _, True)
    (renderBorderedTable title header rows footer widths aligns style styles groups
       wrapWidths pageSize).
Proof.
  unfold renderBorderedTable. cbv zeta.
  repeat first [ apply drawHLine_ok | apply drawBorderedRow_ok
               | apply writes_write; exact I | writes_step ].
Qed.

(** What [writeTable] does once the rows and the group keys are there. *)
Lemma writeTable_body_ok (first : Item) (rows : list (list gostring))
    (groups : list gostring) :
  let l := writeTable_layout first rows groups in
  writes (λ _, True)
    ((if bool_decide (l_border l = BorderNone) then
        renderPlainTable (l_header l) (l_rows l) (l_footer l) (l_widths l)
          (l_aligns l) (l_styles l) (l_groups l) (l_wrapWidths l) (l_pageSize l)
      else
        renderBorderedTable (l_title l) (l_header l) (l_rows l) (l_footer l)
          (l_widths l) (l_aligns l) (l_border l) (l_styles l) (l_groups l)
          (l_wrapWidths l) (l_pageSize l)) ;;
     if bool_decide (l_caption l ≠ []) then Fprintln (l_caption l) else mret tt).
Proof.
  intros l. unfold Fprintln.
  repeat first [ apply renderPlainTable_ok | apply renderBorderedTable_ok
               | apply writes_write; exact I | writes_step ].
Qed.

(** With the required interface on the first item, a renderer that
    calls no encoder fails only where the CSV writer fails. *)
Lemma writePlain_external (items : slice Item) : external_fail (writePlain items).
Proof. unfold writePlain. cbv zeta. repeat external_step. Qed.

Lemma writeCSV_external (first : Item) (rest : list Item) :
  is_Some (Rower_Row first) → external_fail (writeCSV (Some (first :: rest))).
Proof.
  intros [row Hrow]. unfold writeCSV.
  change (elems (Some (first :: rest))) with (first :: rest). cbv iota beta. rewrite Hrow. cbv zeta.
  repeat external_step.
Qed.

Lemma writeTSV_external (first : Item) (rest : list Item) :
  is_Some (Rower_Row first) → external_fail (writeTSV (Some (first :: rest))).
Proof.
  intros [row Hrow]. unfold writeTSV.
  change (elems (Some (first :: rest))) with (first :: rest). cbv iota beta. rewrite Hrow.
  repeat external_step.
Qed.

Lemma writeHTML_external (first : Item) (rest : list Item) :
  is_Some (Rower_Row first) → external_fail (writeHTML (Some (first :: rest))).
Proof.
  intros [row Hrow]. unfold writeHTML.
  change (elems (Some (first :: rest))) with (first :: rest). cbv iota beta. rewrite Hrow. cbv zeta.
  repeat first [ apply (external_writes _ _ (writeHTML_cells_ok _ _ _)) | external_step ].
Qed.

Lemma writeList_external (first : Item) (rest : list Item) :
  is_Some (Lister_List first) → external_fail (writeList (Some (first :: rest))).
Proof.
  intros [l Hl]. unfold writeList.
  change (elems (Some (first :: rest))) with (first :: rest). cbv iota beta. rewrite Hl. cbv zeta.
  repeat external_step.
Qed.

Lemma writeENV_external (first : Item) (rest : list Item) :
  is_Some (Mappable_Pairs first) → external_fail (writeENV (Some (first :: rest))).
Proof.
  intros [l Hl]. unfold writeENV.
  change (elems (Some (first :: rest))) with (first :: rest). cbv iota beta. rewrite Hl. cbv zeta.
  repeat external_step.
Qed.

Lemma writeMarkdownRow_ok cells widths aligns :
  writes (λ _, True) (writeMarkdownRow cells widths aligns).
Proof. unfold writeMarkdownRow. cbv zeta. writes_any. Qed.

Lemma writeMarkdown_external (first : Item) (rest : list Item) :
  is_Some (Rower_Row first) → is_Some (Headed_Header first) →
  external_fail (writeMarkdown (Some (first :: rest))).
Proof.
  intros [row Hrow] [header Hh]. unfold writeMarkdown.
  change (elems (Some (first :: rest))) with (first :: rest). cbv iota beta.
  rewrite Hrow, Hh. cbv zeta.
  repeat first [ apply (external_writes _ _ (writeMarkdownRow_ok _ _ _)) | external_step ].
Qed.

Lemma writeTable_external (first : Item) (rest : list Item) :
  is_Some (Rower_Row first) → external_fail (writeTable (Some (first :: rest))).
Proof.
  intros [row Hrow]. unfold writeTable.
  change (elems (Some (first :: rest))) with (first :: rest). cbv iota beta. rewrite Hrow.
  apply external_bind; [repeat external_step|]. intros rows.
  apply external_bind; [repeat external_step|]. intros groups.
  apply (external_writes _ _ (writeTable_body_ok first rows groups)).
Qed.

End SupportFacts.

(** ** [IsSupported] and the errors of [Write] *)

(** The four interfaces a format can require are implemented by [a]
    exactly when they are by [b]: what holds of the zero value of a
    concrete type and a value of that type. *)
Definition same_methods (a b : Item) : Prop :=
  (is_Some (Rower_Row a) ↔ is_Some (Rower_Row b))
  ∧ (is_Some (Headed_Header a) ↔ is_Some (Headed_Header b))
  ∧ (is_Some (Lister_List a) ↔ is_Some (Lister_List b))
  ∧ (is_Some (Mappable_Pairs a) ↔ is_Some (Mappable_Pairs b)).

Lemma not_is_Some_None {A} (m : option A) : ¬ is_Some m → m = None.
Proof. destruct m; [|done]. intros []. by eexists. Qed.

Section SupportTheorems.
Context `{Runewidth} `{Externals}.

(** X3.  [IsSupported] tells when [Write] fails for want of an interface.
    For a static format, a first item that is not a [Formatter] and
    implements what the zero value of its type implements: when
    [IsSupported] is false, [Write] fails with the error that matches
    [ErrMissingInterface] and writes nothing; when it is true and the
    format is none of JSON, YAML and JSONL (whose encoders return the
    error of an item's own marshalling method, which may wrap any
    error), no error of [Write] into a sink that takes every write
    matches [ErrMissingInterface], whatever the other items. *)
Theorem IsSupported_Write (zero first : Item) (rest : list Item) (f : Format) :
  f ∈ formats →
  Formatter_Format first = None →
  same_methods zero first →
  (IsSupported zero f = false →
     ∃ required,
       Write f (Some (first :: rest))
       = ([], Fail (MissingInterfaceError f required (type_name first)))
       ∧ errors_Is (MissingInterfaceError f required (type_name first))
           ErrMissingInterface = true)
  ∧ (IsSupported zero f = true → f ∉ [JSON; YAML; JSONL] →
     ∀ e, (Write f (Some (first :: rest))).2 = Fail e →
          errors_Is e ErrMissingInterface = false).
Proof.
  intros Hf Hfmt (Hrow & Hhead & Hlist & Hpairs).
  rewrite Write_render by done.
  assert (∀ m : W unit, external_fail m →
            ∀ e, m.2 = Fail e → errors_Is e ErrMissingInterface = false) as Hext.
  { intros m Hm e He. by destruct (Hm e He) as [msg ->]. }
  unfold formats in Hf. rewrite !elem_of_cons, elem_of_nil in Hf.
  destruct Hf as [->|[->|[->|[->|[->|[->|[->|[->|[->|[->|[->|[]]]]]]]]]]]].
  - split; [done|]. intros _ Hno. destruct Hno. by left.
  - split; [done|]. intros _ Hno. destruct Hno. by right; left.
  - change (IsSupported zero CSV) with (bool_decide (is_Some (Rower_Row zero))). split.
    + intros Hz%bool_decide_eq_false. rewrite Hrow in Hz.
      apply not_is_Some_None in Hz. exists (lit "Rower").
      rewrite render_CSV. unfold writeCSV.
      change (elems (Some (first :: rest))) with (first :: rest). cbv iota beta. by rewrite Hz.
    + intros Hz%bool_decide_eq_true _. apply Hext, writeCSV_external. by apply Hrow.
  - change (IsSupported zero Table) with (bool_decide (is_Some (Rower_Row zero))). split.
    + intros Hz%bool_decide_eq_false. rewrite Hrow in Hz.
      apply not_is_Some_None in Hz. exists (lit "Rower").
      rewrite render_Table. unfold writeTable.
      change (elems (Some (first :: rest))) with (first :: rest). cbv iota beta. by rewrite Hz.
    + intros Hz%bool_decide_eq_true _. apply Hext, writeTable_external. by apply Hrow.
  - change (IsSupported zero Markdown)
      with (bool_decide (is_Some (Rower_Row zero))
            && bool_decide (is_Some (Headed_Header zero))). split.
    + intros Hz%andb_false_iff. rewrite render_Markdown. unfold writeMarkdown.
      change (elems (Some (first :: rest))) with (first :: rest). cbv iota beta.
      destruct (Rower_Row first) as [row|] eqn:Hr; [|by exists (lit "Rower")].
      destruct (Headed_Header first) as [header|] eqn:Hh; [|by exists (lit "Headed")].
      destruct Hz as [Hz%bool_decide_eq_false|Hz%bool_decide_eq_false]; destruct Hz.
      * apply Hrow. by eexists.
      * apply Hhead. by eexists.
    + intros [Hr%bool_decide_eq_true Hh%bool_decide_eq_true]%andb_true_iff _.
      apply Hext, writeMarkdown_external; [by apply Hrow|by apply Hhead].
  - change (IsSupported zero List) with (bool_decide (is_Some (Lister_List zero))). split.
    + intros Hz%bool_decide_eq_false. rewrite Hlist in Hz.
      apply not_is_Some_None in Hz. exists (lit "Lister").
      rewrite render_List. unfold writeList.
      change (elems (Some (first :: rest))) with (first :: rest). cbv iota beta. by rewrite Hz.
    + intros Hz%bool_decide_eq_true _. apply Hext, writeList_external. by apply Hlist.
  - change (IsSupported zero ENV) with (bool_decide (is_Some (Mappable_Pairs zero))). split.
    + intros Hz%bool_decide_eq_false. rewrite Hpairs in Hz.
      apply not_is_Some_None in Hz. exists (lit "Mappable").
      rewrite render_ENV. unfold writeENV.
      change (elems (Some (first :: rest))) with (first :: rest). cbv iota beta. by rewrite Hz.
    + intros Hz%bool_decide_eq_true _. apply Hext, writeENV_external. by apply Hpairs.
  - split; [done|]. intros _ _. apply Hext, writePlain_external.
  - change (IsSupported zero TSV) with (bool_decide (is_Some (Rower_Row zero))). split.
    + intros Hz%bool_decide_eq_false. rewrite Hrow in Hz.
      apply not_is_Some_None in Hz. exists (lit "Rower").
      rewrite render_TSV. unfold writeTSV.
      change (elems (Some (first :: rest))) with (first :: rest). cbv iota beta. by rewrite Hz.
    + intros Hz%bool_decide_eq_true _. apply Hext, writeTSV_external. by apply Hrow.
  - split; [done|]. intros _ Hno. destruct Hno. by do 2 right; left.
  - change (IsSupported zero HTML) with (bool_decide (is_Some (Rower_Row zero))). split.
    + intros Hz%bool_decide_eq_false. rewrite Hrow in Hz.
      apply not_is_Some_None in Hz. exists (lit "Rower").
      rewrite render_HTML. unfold writeHTML.
      change (elems (Some (first :: rest))) with (first :: rest). cbv iota beta. by rewrite Hz.
    + intros Hz%bool_decide_eq_true _. apply Hext, writeHTML_external. by apply Hrow.
Qed.

(** X4.  Rendering into a buffer cannot fail for Table, TSV, HTML, Markdown,
    List, ENV and Plain: when the first item is not a [Formatter] and
    every item implements the interface the format reads ([Rower], and
    [Grouped] if the first item has it, for Table; [Rower] for TSV and
    HTML; [Rower], and [Headed] on the first item, for Markdown; [Lister]
    for List; [Mappable] for ENV), [Write] returns no error and [Marshal]
    returns the bytes written. *)
Theorem Write_never_fails (f : Format) (first : Item) (rest : list Item) :
  let items := first :: rest in
  Formatter_Format first = None →
  (f = Table ∧ uniform items)
  ∨ (f ∈ [TSV; HTML] ∧ Forall (λ item, is_Some (Rower_Row item)) items)
  ∨ (f = Markdown ∧ is_Some (Headed_Header first)
     ∧ Forall (λ item, is_Some (Rower_Row item)) items)
  ∨ (f = List ∧ Forall (λ item, is_Some (Lister_List item)) items)
  ∨ (f = ENV ∧ Forall (λ item, is_Some (Mappable_Pairs item)) items)
  ∨ f = Plain →
  (Write f (Some items)).2 = Ok tt
  ∧ Marshal f (Some items) = Ok (bytes (Write f (Some items))).
Proof.
  intros items Hfmt Hcase. subst items.
  assert (writes (λ _, True) (Write f (Some (first :: rest)))) as [_ [[] HW]].
  { rewrite Write_render by done.
    destruct Hcase as [[-> Hu]|[[Hf Hr]|[(-> & [header Hh] & Hr)|[[-> Hl]|[[-> Hp]| ->]]]]].
    - rewrite render_Table, writeTable_uniform by done. apply writeTable_body_ok.
    - pose proof (Forall_inv Hr) as [row Hrow].
      rewrite !elem_of_cons, elem_of_nil in Hf. destruct Hf as [->|[->|[]]].
      + rewrite render_TSV. unfold writeTSV.
        change (elems (Some (first :: rest))) with (first :: rest). cbv iota beta.
        rewrite Hrow. unfold Fprintln.
        apply writes_bind; [destruct (Headed_Header first); writes_any|]. intros _.
        apply writes_range. intros x Hx. apply writes_assert.
        * by apply (proj1 (Forall_forall _ _) Hr).
        * intros r. by apply writes_write.
      + rewrite render_HTML. unfold writeHTML.
        change (elems (Some (first :: rest))) with (first :: rest). cbv iota beta zeta.
        rewrite Hrow. unfold Fprintln.
        repeat first
          [ apply writeHTML_cells_ok
          | apply writes_write; exact I
          | match goal with
            | |- writes _ (assert _ ≫= _) =>
                apply writes_assert;
                [by apply (proj1 (Forall_forall _ _) Hr)|intros ?]
            | |- writes _ (match ?x with _ => _ end) => destruct x
            end
          | writes_step ].
    - pose proof (Forall_inv Hr) as [row Hrow].
      rewrite render_Markdown. unfold writeMarkdown.
      change (elems (Some (first :: rest))) with (first :: rest). cbv iota beta.
      rewrite Hrow, Hh. rewrite (collect_assert Rower_Row [] (first :: rest) Hr), W_left_id.
      cbv zeta.
      repeat first [ apply writeMarkdownRow_ok | apply writes_write; exact I | writes_step ].
    - pose proof (Forall_inv Hl) as [l Hfirst].
      rewrite render_List. unfold writeList.
      change (elems (Some (first :: rest))) with (first :: rest). cbv iota beta.
      rewrite Hfirst. cbv zeta.
      rewrite (collect_assert Lister_List [] (first :: rest) Hl), W_left_id.
      writes_any.
    - pose proof (Forall_inv Hp) as [l Hfirst].
      rewrite render_ENV. unfold writeENV.
      change (elems (Some (first :: rest))) with (first :: rest). cbv iota beta.
      rewrite Hfirst. cbv zeta. unfold Fprintln.
      repeat first
        [ apply writes_write; exact I
        | match goal with
          | |- writes _ (assert _ ≫= _) =>
              apply writes_assert;
              [by apply (proj1 (Forall_forall _ _) Hp)|intros ?]
          | |- writes _ (if ?b then _ else _) => destruct b
          end
        | writes_step ].
    - rewrite render_Plain. unfold writePlain, Fprintln. cbv zeta. writes_any. }
  split; [done|]. unfold Marshal, bytes.
  destruct (Write f (Some (first :: rest))) as [out st]. simpl in HW. by subst st.
Qed.

End SupportTheorems.

Lemma IsSupported_Write_witness :
  let alice := table_item [lit "Alice"; lit "30"] (Some [lit "Name"; lit "Age"])
                 None None None None None in
  (∃ required,
     @Write example_widths example_externals CSV (Some [string_item (lit "a")])
     = ([], Fail (MissingInterfaceError CSV required (lit "string")))
     ∧ errors_Is (MissingInterfaceError CSV required (lit "string")) ErrMissingInterface
       = true)
  ∧ ∀ e, (@Write example_widths example_externals CSV (Some [alice; alice])).2 = Fail e →
         errors_Is e ErrMissingInterface = false.
Proof.
  intros alice. split.
  - apply (@IsSupported_Write example_widths example_externals
             (string_item []) (string_item (lit "a")) [] CSV);
      [unfold formats; rewrite !elem_of_cons; by do 2 right; left|reflexivity
      |by repeat split|reflexivity].
  - apply (@IsSupported_Write example_widths example_externals alice alice [alice] CSV);
      [unfold formats; rewrite !elem_of_cons; by do 2 right; left|reflexivity
      |by repeat split|reflexivity|].
    rewrite !not_elem_of_cons. by repeat split; [..|apply not_elem_of_nil].
Defined.

Lemma Write_never_fails_witness :
  let alice := table_item [lit "Alice"; lit "30"] (Some [lit "Name"; lit "Age"])
                 None None None None None in
  (@Write example_widths example_externals Table (Some [alice; alice])).2 = Ok tt
  ∧ @Marshal example_widths example_externals Table (Some [alice; alice])
    = Ok (bytes (@Write example_widths example_externals Table (Some [alice; alice]))).
Proof.
  intros alice.
  apply (@Write_never_fails example_widths example_externals Table alice [alice]);
    [done|].
  left. split; [done|]. split; [repeat constructor; by eexists|by intros [? ?]].
Defined.

(** ** Calls without items *)

Section EmptyFacts.
Context `{Runewidth} `{Externals}.

(** X5.  [Write] without items (a nil or an empty slice) writes nothing and
    returns no error for CSV, Table, Markdown, List, ENV, Plain, TSV,
    JSONL and HTML; for a template tag it parses the template all the
    same, so that a template that does not parse is reported with
    [ErrInvalidTemplate]. *)
Theorem Write_no_items (f : Format) (items : slice Item) :
  elems items = [] →
  (f ∈ [CSV; Table; Markdown; List; ENV; Plain; TSV; JSONL; HTML] →
     Write f items = ([], Ok tt))
  ∧ (∀ tmpl, f = GoTemplate tmpl →
       Write f items = match template_Parse tmpl with
                       | inl _ => ([], Ok tt)
                       | inr detail => ([], Fail (InvalidTemplateError detail))
                       end).
Proof.
  intros Hitems. rewrite Write_render by (by rewrite Hitems). split.
  - rewrite !elem_of_cons, elem_of_nil.
    intros [->|[->|[->|[->|[->|[->|[->|[->|[->|[]]]]]]]]]].
    + rewrite render_CSV. unfold writeCSV. by rewrite Hitems.
    + rewrite render_Table. unfold writeTable. by rewrite Hitems.
    + rewrite render_Markdown. unfold writeMarkdown. by rewrite Hitems.
    + rewrite render_List. unfold writeList. by rewrite Hitems.
    + rewrite render_ENV. unfold writeENV. by rewrite Hitems.
    + rewrite render_Plain. unfold writePlain. by rewrite Hitems.
    + rewrite render_TSV. unfold writeTSV. by rewrite Hitems.
    + rewrite render_JSONL. unfold writeJSONL. by rewrite Hitems.
    + rewrite render_HTML. unfold writeHTML. by rewrite Hitems.
  - intros tmpl ->.
    rewrite render_other, CutPrefix_GoTemplate by apply GoTemplate_not_static.
    unfold writeGoTemplate. rewrite Hitems. by destruct (template_Parse tmpl).
Qed.

(** X6.  [WriteIter] on a sequence that produces nothing: for JSON it writes
    the empty array, [[] and a newline, in two writes; for every other
    static tag and for every template tag it writes nothing and returns
    no error (the YAML encoder is not called, and the template is not
    parsed); any other tag is rejected as unsupported. *)
Theorem WriteIter_no_items (f : Format) :
  WriteIter f []
  = if bool_decide (f = JSON) then ([lit "["; lit "]" ++ [nl]], Ok tt)
    else if bool_decide (f ∈ formats) || HasPrefix f goTemplatePrefix then ([], Ok tt)
    else ([], Fail (UnsupportedFormatError f)).
Proof.
  destruct (decide (f ∈ formats)) as [Hin|Hin].
  - unfold formats in Hin. rewrite !elem_of_cons, elem_of_nil in Hin.
    destruct Hin as [->|[->|[->|[->|[->|[->|[->|[->|[->|[->|[->|[]]]]]]]]]]]];
      reflexivity.
  - rewrite WriteIter_other by done.
    rewrite bool_decide_eq_false_2
      by (intros ->; apply Hin; unfold formats; rewrite elem_of_cons; by left).
    rewrite (bool_decide_eq_false_2 _ Hin). cbn [orb].
    unfold CutPrefix. by destruct (HasPrefix f goTemplatePrefix).
Qed.

End EmptyFacts.

Lemma Write_no_items_witness :
  @Write example_widths example_externals Table None = ([], Ok tt)
  ∧ @Write example_widths example_externals (GoTemplate (lit "{{.Name}}")) (Some [])
    = ([], Ok tt).
Proof.
  split.
  - apply (@Write_no_items example_widths example_externals Table None); [done|].
    rewrite !elem_of_cons. by right; left.
  - destruct (@Write_no_items example_widths example_externals
                (GoTemplate (lit "{{.Name}}")) (Some []) eq_refl) as [_ Htmpl].
    exact (Htmpl (lit "{{.Name}}") eq_refl).
Defined.

(** ** The [Formatter] escape hatch *)

(** What [Format] answers for an item, when the item implements
    [Formatter]. *)
Definition Format_of (f : Format) (item : Item) : option formatted :=
  (λ fmtr, fmtr f) <$> Formatter_Format item.

(** The item implements [Formatter] and its [Format] returns no error. *)
Definition formats_cleanly (f : Format) (item : Item) : Prop :=
  match Format_of f item with
  | Some (FormatBytes _) | Some FormatNil => True
  | Some (FormatError _) | None => False
  end.

(** The bytes of the items that answer with bytes, and the items that
    answer [(nil, nil)], both in the order of the batch. *)
Definition overrides (f : Format) (items : list Item) : list gostring :=
  omap (λ item, match Format_of f item with
                | Some (FormatBytes data) => Some data
                | _ => None
                end) items.

Definition fall_through (f : Format) (items : list Item) : list Item :=
  List.filter (λ item, match Format_of f item with
                       | Some FormatNil => true
                       | _ => false
                       end) items.

Lemma range_write (chunks : list gostring) : range chunks write = (chunks, Ok tt).
Proof.
  induction chunks as [|c chunks IH]; [done|].
  cbn [range]. rewrite IH. reflexivity.
Qed.

Lemma overrides_cons (f : Format) (item : Item) (items : list Item) :
  overrides f (item :: items)
  = match Format_of f item with
    | Some (FormatBytes data) => data :: overrides f items
    | _ => overrides f items
    end.
Proof.
  unfold overrides. cbn [omap list_omap].
  by destruct (Format_of f item) as [[| |]|].
Qed.

Lemma fall_through_cons (f : Format) (item : Item) (items : list Item) :
  fall_through f (item :: items)
  = match Format_of f item with
    | Some FormatNil => item :: fall_through f items
    | _ => fall_through f items
    end.
Proof.
  unfold fall_through. cbn [List.filter].
  by destruct (Format_of f item) as [[| |]|].
Qed.

Lemma writeFormatted_range_cons (f : Format) (item : Item) (rest : list Item)
    (fallback : slice Item) :
  writeFormatted_range f (item :: rest) fallback
  = match Format_of f item with
    | None => crash
    | Some (FormatError e) => fail e
    | Some (FormatBytes data) => write data ;; writeFormatted_range f rest fallback
    | Some FormatNil => writeFormatted_range f rest (Some (elems fallback ++ [item]))
    end.
Proof.
  cbn [writeFormatted_range]. unfold Format_of.
  destruct (Formatter_Format item) as [fmtr|]; [|done].
  cbn [fmap option_fmap option_map assert]. by rewrite W_ret_bind.
Qed.

Lemma writeFormatted_range_clean (f : Format) (items : list Item) (fallback : slice Item) :
  Forall (formats_cleanly f) items →
  writeFormatted_range f items fallback
  = (overrides f items,
     Ok (match fall_through f items with
         | [] => fallback
         | _ :: _ => Some (elems fallback ++ fall_through f items)
         end)).
Proof.
  intros Hall. revert fallback.
  induction Hall as [|item items Hitem _ IH]; intros fallback; [done|].
  unfold formats_cleanly in Hitem.
  rewrite writeFormatted_range_cons, overrides_cons, fall_through_cons.
  destruct (Format_of f item) as [[e|data|]|]; [done| | |done].
  - by rewrite IH.
  - rewrite IH.
    change (elems (Some (elems fallback ++ [item]))) with (elems fallback ++ [item]).
    f_equal. f_equal.
    destruct (fall_through f items); [done|]. by rewrite <- app_assoc.
Qed.

Lemma writeFormatted_range_stops (f : Format) (pre post : list Item) (x : Item)
    (fallback : slice Item) :
  Forall (formats_cleanly f) pre →
  (∀ e, Format_of f x = Some (FormatError e) →
        writeFormatted_range f (pre ++ x :: post) fallback = (overrides f pre, Fail e))
  ∧ (Formatter_Format x = None →
     writeFormatted_range f (pre ++ x :: post) fallback = (overrides f pre, Crash)).
Proof.
  intros Hall. revert fallback.
  induction Hall as [|item items Hitem _ IH]; intros fallback.
  - cbn [app]. rewrite writeFormatted_range_cons. split.
    + by intros e ->.
    + intros Hx. unfold Format_of. by rewrite Hx.
  - unfold formats_cleanly in Hitem.
    cbn [app]. rewrite writeFormatted_range_cons, overrides_cons.
    destruct (Format_of f item) as [[e|data|]|]; [done| | |done]; split.
    + intros e He. by rewrite (proj1 (IH fallback) e He).
    + intros Hx. by rewrite (proj2 (IH fallback) Hx).
    + intros e He. by rewrite (proj1 (IH _) e He).
    + intros Hx. by rewrite (proj2 (IH _) Hx).
Qed.

Lemma formats_cleanly_Formatter (f : Format) (item : Item) :
  formats_cleanly f item → ∃ fmtr, Formatter_Format item = Some fmtr.
Proof.
  unfold formats_cleanly, Format_of. destruct (Formatter_Format item); [by eexists|done].
Qed.

Section FormatterFacts.
Context `{Runewidth} `{Externals}.

(** X7.  A batch whose items all implement [Formatter], none returning an
    error: [Write] first writes the bytes of the items that answer with
    bytes, one write each and in their order, and only then renders the
    items that answered [(nil, nil)], together, as one batch of the
    format; when none is left it returns without looking at the format,
    so that no tag is unsupported for such a batch. *)
Theorem Write_overrides_first (f : Format) (first : Item) (rest : list Item) :
  Forall (formats_cleanly f) (first :: rest) →
  Write f (Some (first :: rest))
  = (range (overrides f (first :: rest)) write ;;
     if bool_decide (fall_through f (first :: rest) = []) then mret tt
     else render f (Some (fall_through f (first :: rest)))).
Proof.
  intros Hall.
  destruct (formats_cleanly_Formatter f first (Forall_inv Hall)) as [fmtr Hfirst].
  unfold Write. change (elems (Some (first :: rest))) with (first :: rest).
  cbv iota beta. rewrite Hfirst. unfold writeFormatted.
  change (elems (Some (first :: rest))) with (first :: rest).
  rewrite (writeFormatted_range_clean f (first :: rest) None Hall), range_write.
  rewrite !W_ok_bind.
  destruct (fall_through f (first :: rest)) as [|y ys]; reflexivity.
Qed.

(** X8.  [Write] on a batch of [Formatter] items stops at the first item whose
    [Format] returns an error: it returns that error, having written the
    bytes of the items before it that answered with bytes and nothing
    else, and the items that fell through are not rendered.  When the
    first item is a [Formatter] and a later one is not, the call panics
    at that item. *)
Theorem Write_Formatter_stops (f : Format) (pre post : list Item) (x : Item) :
  Forall (formats_cleanly f) pre →
  (∀ e, Format_of f x = Some (FormatError e) →
        Write f (Some (pre ++ x :: post)) = (overrides f pre, Fail e))
  ∧ (pre ≠ [] → Formatter_Format x = None →
     Write f (Some (pre ++ x :: post)) = (overrides f pre, Crash)).
Proof.
  intros Hall.
  destruct (writeFormatted_range_stops f pre post x None Hall) as [Herr Hpanic].
  assert (is_Some (Formatter_Format x) ∨ pre ≠ [] →
          Write f (Some (pre ++ x :: post)) = writeFormatted f (Some (pre ++ x :: post)))
    as HW.
  { intros Hfirst. unfold Write.
    change (elems (Some (pre ++ x :: post))) with (pre ++ x :: post).
    destruct Hall as [|item items Hitem _].
    - destruct Hfirst as [[fmtr Hx]|]; [|done]. cbn [app]. by rewrite Hx.
    - destruct (formats_cleanly_Formatter f item Hitem) as [fmtr Hf].
      cbn [app]. by rewrite Hf. }
  split.
  - intros e He. rewrite HW.
    + unfold writeFormatted.
      change (elems (Some (pre ++ x :: post))) with (pre ++ x :: post).
      by rewrite (Herr e He).
    + left. unfold Format_of in He. by destruct (Formatter_Format x).
  - intros Hpre Hx. rewrite HW by (by right). unfold writeFormatted.
    change (elems (Some (pre ++ x :: post))) with (pre ++ x :: post).
    by rewrite (Hpanic Hx).
Qed.

End FormatterFacts.

(** An item whose [Format] returns an error. *)
Definition failing_item : Item :=
  {| type_name := lit "main.failing"; default_text := lit "{}";
     json_value := Some (JObject []); json_error := ExternalError [];
     Stringer_String := None;
     Formatter_Format := Some (λ _, FormatError (ExternalError (lit "boom")));
     Indented_Indent := None;
     Rower_Row := None; Lister_List := None; Mappable_Pairs := None;
     Headed_Header := None; Titled_Title := None; Bordered_Border := None;
     Aligned_Alignments := None; Footered_Footer := None;
     Numbered_NumberHeader := None; Captioned_Caption := None;
     Truncated_MaxWidths := None; Delimited_Delimiter := None;
     Separator_Sep := None; Exported_Export := None; Quoted_Quote := None;
     Styled_Styles := None; Grouped_Group := None; Wrapped_WrapWidths := None;
     Paged_PageSize := None |}.

Lemma Write_overrides_first_witness :
  @Write example_widths example_externals (lit "xml")
    (Some [custom_item; custom_item])
  = ([lit "CUSTOM" ++ [nl]; lit "CUSTOM" ++ [nl]], Ok tt)
  ∧ @Write example_widths example_externals Plain
      (Some [fallthrough_item; custom_item])
    = ([lit "CUSTOM" ++ [nl]; lit "{}" ++ [nl]], Ok tt).
Proof.
  split.
  - by rewrite (@Write_overrides_first example_widths example_externals (lit "xml")
                  custom_item [custom_item]) by (by repeat constructor).
  - by rewrite (@Write_overrides_first example_widths example_externals Plain
                  fallthrough_item [custom_item]) by (by repeat constructor).
Defined.

Lemma Write_Formatter_stops_witness :
  @Write example_widths example_externals Plain
    (Some [custom_item; fallthrough_item; failing_item; custom_item])
  = ([lit "CUSTOM" ++ [nl]], Fail (ExternalError (lit "boom")))
  ∧ @Write example_widths example_externals Plain
      (Some [custom_item; string_item (lit "a")])
    = ([lit "CUSTOM" ++ [nl]], Crash).
Proof.
  split.
  - by apply (@Write_Formatter_stops example_widths example_externals Plain
                [custom_item; fallthrough_item] [custom_item] failing_item);
      [by repeat constructor|].
  - by apply (@Write_Formatter_stops example_widths example_externals Plain
                [custom_item] [] (string_item (lit "a")));
      [by repeat constructor|..].
Defined.

(** ** Streaming *)

Lemma range_app {A} (xs ys : list A) (body : A → W unit) :
  range (xs ++ ys) body = (range xs body ;; range ys body).
Proof.
  induction xs as [|x xs IH]; cbn [app range].
  - by rewrite W_ret_bind.
  - by rewrite IH, W_assoc.
Qed.

Lemma W_then_ret (m : W unit) : (m ;; mret tt) = m.
Proof.
  destruct m as [out [[]|e|]]; unfold mbind, W_bind, mret, W_ret; [|done..].
  by rewrite app_nil_r.
Qed.

(** Unfolds the operations of a rendering to pairs of chunks and status. *)
Ltac W_run :=
  unfold mbind, W_bind, mret, W_ret, Fprintln, write, fail, crash, assert, try,
    return_err, buffered;
  simpl; rewrite ?app_nil_r.

Section StreamTheorems.
Context `{Runewidth} `{Externals}.

Lemma writeGoTemplate_app (tmpl : gostring) (xs ys : list Item) :
  writeGoTemplate tmpl (Some (xs ++ ys))
  = (writeGoTemplate tmpl (Some xs) ;; writeGoTemplate tmpl (Some ys)).
Proof.
  unfold writeGoTemplate. destruct (template_Parse tmpl) as [t|detail]; [|done].
  change (elems (Some (xs ++ ys))) with (xs ++ ys).
  change (elems (Some xs)) with xs. change (elems (Some ys)) with ys.
  apply range_app.
Qed.

(** X9.  Plain, JSONL and template output is made item by item: streaming a
    sequence in two parts, one call of [WriteIter] after the other into
    the same sink, gives what streaming it in one call gives, the second
    call being made only when the first returns no error. *)
Theorem WriteIter_concat (f : Format) (xs ys : list Item) :
  f = Plain ∨ f = JSONL ∨ (∃ tmpl, f = GoTemplate tmpl) →
  WriteIter f (xs ++ ys) = (WriteIter f xs ;; WriteIter f ys).
Proof.
  intros [->|[->|[tmpl ->]]].
  - rewrite !WriteIter_Plain, !streamPlain_write. unfold writePlain. apply range_app.
  - rewrite !WriteIter_JSONL, !streamJSONL_write. unfold writeJSONL. apply range_app.
  - rewrite !WriteIter_other, !CutPrefix_GoTemplate by apply GoTemplate_not_static.
    destruct xs as [|x xs].
    { change (streamGoTemplate tmpl []) with (mret tt : W unit). by rewrite W_ret_bind. }
    destruct ys as [|y ys].
    + rewrite app_nil_r. change (streamGoTemplate tmpl []) with (mret tt : W unit).
      by rewrite W_then_ret.
    + change ((x :: xs) ++ y :: ys) with (x :: (xs ++ y :: ys)).
      rewrite !streamGoTemplate_write. apply (writeGoTemplate_app tmpl (x :: xs) (y :: ys)).
Qed.

Lemma produce_streamJSON_stops (pre post : list Item) (bad : Item) (first : bool) :
  Forall (λ item, is_Some (json_value item)) pre →
  json_value bad = None →
  ∃ out,
    produce (pre ++ bad :: post) streamJSON_yield (first, None)
    = (out, Ok (false, Some (json_error bad)))
    ∧ concat out
      = (if first then [] else lit ",")
        ++ concat ((λ item, streamJSON_elem item ++ lit ",") <$> pre).
Proof.
  intros Hpre Hbad. revert first.
  induction Hpre as [|item pre [j Hj] _ IH]; intros first.
  - assert (json_Encode false (default [] (Indented_Indent bad)) (VItem bad)
            = fail (json_error bad)) as Henc.
    { unfold json_Encode. cbn [json_of]. by rewrite Hbad. }
    exists (if first then [] else [lit ","]).
    cbn [app produce]. rewrite streamJSON_yield_eq, Henc.
    destruct first; W_run; done.
  - destruct (IH false) as (out & Hout & Hcat).
    assert (json_Encode false (default [] (Indented_Indent item)) (VItem item)
            = write (streamJSON_elem item)) as Henc.
    { unfold json_Encode, streamJSON_elem, json_indent. cbn [json_of]. by rewrite Hj. }
    exists ((if first then [] else [lit ","]) ++ streamJSON_elem item :: out). split.
    + cbn [app produce]. rewrite streamJSON_yield_eq, Henc.
      destruct first; W_run; by rewrite Hout.
    + rewrite concat_app, fmap_cons. cbn [concat]. rewrite Hcat.
      destruct first; simpl; by rewrite <- ?app_assoc.
Qed.

(** X10.  What streaming JSON writes.  When every item can be encoded: an
    opening bracket, the items in order, each followed by a newline and
    separated by commas, and a closing bracket with a newline.  When an
    item cannot be encoded: the call returns the error the encoder gives
    for that item after the opening bracket, the items before that one and a comma after
    each of them have been written; the array is left open, and the rest
    of the sequence is not asked for. *)
Theorem WriteIter_JSON_shape (pre post : list Item) (bad : Item) :
  Forall (λ item, is_Some (json_value item)) pre →
  ((WriteIter JSON pre).2 = Ok tt
   ∧ bytes (WriteIter JSON pre)
     = lit "[" ++ Join (streamJSON_elem <$> pre) (lit ",") ++ lit "]" ++ [nl])
  ∧ (json_value bad = None →
     (WriteIter JSON (pre ++ bad :: post)).2
     = Fail (json_error bad)
     ∧ bytes (WriteIter JSON (pre ++ bad :: post))
       = lit "[" ++ concat ((λ item, streamJSON_elem item ++ lit ",") <$> pre)).
Proof.
  intros Hpre. split; [by apply streamJSON_bytes|].
  intros Hbad. rewrite WriteIter_JSON. unfold streamJSON, bytes.
  destruct (produce_streamJSON_stops pre post bad true Hpre Hbad) as (out & -> & Hcat).
  W_run. by rewrite Hcat.
Qed.

(** X11.  Streaming CSV and TSV look for [Rower] on the first item before
    anything else, whether or not the item is a [Formatter]: without it
    the call fails with the error that matches [ErrMissingInterface],
    nothing is written and the rest of the sequence is not asked for. *)
Theorem WriteIter_first_Rower (first : Item) (rest : list Item) :
  Rower_Row first = None →
  WriteIter CSV (first :: rest)
  = ([], Fail (MissingInterfaceError CSV (lit "Rower") (type_name first)))
  ∧ WriteIter TSV (first :: rest)
    = ([], Fail (MissingInterfaceError TSV (lit "Rower") (type_name first))).
Proof.
  intros Hrow. split.
  - rewrite WriteIter_CSV. unfold streamCSV. cbn [produce].
    rewrite streamCSV_yield_first, Hrow. by W_run.
  - rewrite WriteIter_TSV. unfold streamTSV. cbn [produce].
    rewrite streamTSV_yield_first, Hrow. by W_run.
Qed.

End StreamTheorems.

Lemma WriteIter_concat_witness :
  @WriteIter example_widths example_externals Plain
    ([string_item (lit "a")] ++ [string_item (lit "b")])
  = ([lit "a" ++ [nl]; lit "b" ++ [nl]], Ok tt).
Proof.
  by rewrite (@WriteIter_concat example_widths example_externals Plain
                [string_item (lit "a")] [string_item (lit "b")]) by (by left).
Defined.

Lemma WriteIter_JSON_shape_witness :
  let bad := plain_item (lit "chan int") (lit "0xc000") None in
  bytes (@WriteIter example_widths example_externals JSON
           ([string_item (lit "a")] ++ bad :: [string_item (lit "b")]))
  = lit "[" ++ [dquote] ++ lit "a" ++ [dquote; nl] ++ lit ","
  ∧ (@WriteIter example_widths example_externals JSON
       ([string_item (lit "a")] ++ bad :: [string_item (lit "b")])).2
    = Fail (ExternalError (lit "json: unsupported type: chan int")).
Proof.
  intros bad.
  destruct (@WriteIter_JSON_shape example_widths example_externals
              [string_item (lit "a")] [string_item (lit "b")] bad)
    as [_ Hstop]; [by repeat constructor|].
  destruct (Hstop eq_refl) as [Hst Hbytes]. split; [|exact Hst].
  rewrite Hbytes. reflexivity.
Defined.

Lemma WriteIter_first_Rower_witness :
  @WriteIter example_widths example_externals CSV [custom_item; custom_item]
  = ([], Fail (MissingInterfaceError CSV (lit "Rower") (lit "main.custom"))).
Proof.
  by apply (@WriteIter_first_Rower example_widths example_externals
              custom_item [custom_item]).
Defined.

(** ** The helpers of the table renderer *)

Lemma colCount_foldl (rows : list (list gostring)) (n : nat) :
  let m := foldl (λ n row, if bool_decide (n < length row)%nat then length row else n)
             n rows in
  (n ≤ m)%nat
  ∧ Forall (λ row, (length row ≤ m)%nat) rows
  ∧ (m = n ∨ ∃ row, row ∈ rows ∧ m = length row).
Proof.
  revert n. induction rows as [|row rows IH]; intros n; cbn [foldl].
  - split; [done|]. split; [constructor|by left].
  - destruct (IH (if bool_decide (n < length row)%nat then length row else n))
      as (Hge & Hall & Hmax).
    case_bool_decide; (split; [lia|]); (split; [constructor; [lia|done]|]).
    + right. destruct Hmax as [->|(r & Hr & ->)].
      * exists row. split; [left|done].
      * exists r. split; [by right|done].
    + destruct Hmax as [->|(r & Hr & ->)]; [by left|].
      right. exists r. split; [by right|done].
Qed.

Lemma maxLines_foldl (wrapped : list (list gostring)) (n : nat) :
  let m := foldl (λ n lines, if bool_decide (n < length lines)%nat then length lines else n)
             n wrapped in
  (n ≤ m)%nat ∧ Forall (λ lines, (length lines ≤ m)%nat) wrapped.
Proof. split; apply (colCount_foldl wrapped n). Qed.

(** The lines of a wrapped cell, read line by line up to any count that
    covers them, give the cell back. *)
Lemma concat_lines_upto (lines : list gostring) (n : nat) :
  (length lines ≤ n)%nat →
  concat ((λ k, default [] (lines !! k)) <$> seq 0 n) = concat lines.
Proof.
  revert n. induction lines as [|line lines IH]; intros n Hn.
  - induction (seq 0 n) as [|k ks IHk]; [done|]. by rewrite fmap_cons.
  - destruct n as [|n]; [simpl in Hn; lia|].
    cbn [seq]. rewrite fmap_cons. cbn [concat lookup list_lookup default from_option id].
    f_equal. rewrite <- fmap_S_seq, <- list_fmap_compose.
    rewrite <- (IH n) by (simpl in Hn; lia). done.
Qed.

Section HelperFacts.
Context `{Runewidth}.

(** X12.  [colCount] is the largest number of cells of the header, the rows
    and the footer, so that every index the loops of [computeWidths] use
    is within the widths; and [computeWidths] sets the width of every
    column to the largest display width of the cells of the column, the
    header and the footer included (0 for a column of empty cells): every
    cell fits the width of its column. *)
Theorem computeWidths_columns (header : list gostring) (rows : list (list gostring))
    (footer : list gostring) :
  let numCols := colCount header rows footer in
  let widths := computeWidths numCols header rows footer in
  Forall (λ cells, (length cells ≤ numCols)%nat) (header :: footer :: rows)
  ∧ (∃ cells, cells ∈ header :: footer :: rows ∧ numCols = length cells)
  ∧ length widths = numCols
  ∧ (∀ i, (i < numCols)%nat →
       widths !! i = Some (Zmax_list (column i (header :: rows ++ [footer]))))
  ∧ (∀ cells i cell, cells ∈ header :: footer :: rows → cells !! i = Some cell →
       ∃ w, widths !! i = Some w ∧ StringWidth cell ≤ w).
Proof.
  intros numCols widths.
  pose proof (colCount_foldl rows (length header)) as (Hge & Hall & Hmax).
  assert (Forall (λ cells, (length cells ≤ numCols)%nat) (header :: footer :: rows))
    as Hlen.
  { subst numCols. unfold colCount. cbv zeta.
    case_bool_decide; repeat constructor; try lia.
    - eapply Forall_impl; [exact Hall|]. simpl. intros; lia.
    - done. }
  split_and!; [done| |apply computeWidths_length|by apply computeWidths_lookup|].
  - subst numCols. unfold colCount. cbv zeta. case_bool_decide.
    + exists footer. split; [by right; left|done].
    + destruct Hmax as [->|(r & Hr & ->)].
      * exists header. split; [left|done].
      * exists r. split; [by do 2 right|done].
  - intros cells i cell Hin Hcell.
    assert (i < numCols)%nat as Hi.
    { apply lookup_lt_Some in Hcell.
      pose proof (proj1 (Forall_forall _ _) Hlen cells Hin). simpl in *. lia. }
    exists (Zmax_list (column i (header :: rows ++ [footer]))).
    split; [by apply computeWidths_lookup|].
    apply Zmax_list_ge. unfold column. apply list_elem_of_fmap. exists cells. split.
    + cbv beta. f_equal. symmetry. exact (f_equal (default []) Hcell).
    + rewrite !elem_of_cons in Hin.
      rewrite elem_of_cons, elem_of_app, list_elem_of_singleton. tauto.
Qed.

End HelperFacts.

(** X13.  [extendAligns] and [extendStyles] return exactly one entry per
    column: the entry given for the column, or [AlignLeft] and no style
    function for a column past the end of what was given; entries past
    the last column are dropped. *)
Theorem extend_one_per_column (aligns : list Alignment)
    (styles : list (option (gostring → gostring))) (numCols : nat) :
  length (extendAligns aligns numCols) = numCols
  ∧ length (extendStyles styles numCols) = numCols
  ∧ ∀ i, (i < numCols)%nat →
      extendAligns aligns numCols !! i = Some (default AlignLeft (aligns !! i))
      ∧ extendStyles styles numCols !! i = Some (default None (styles !! i)).
Proof.
  unfold extendAligns, extendStyles. split_and!.
  - case_bool_decide; [rewrite length_take; lia|].
    rewrite length_app, length_replicate. lia.
  - case_bool_decide; [rewrite length_take; lia|].
    rewrite length_app, length_replicate. lia.
  - intros i Hi. split.
    + case_bool_decide.
      * rewrite lookup_take_lt by done.
        destruct (aligns !! i) eqn:Ha; [done|]. apply lookup_ge_None in Ha. lia.
      * destruct (aligns !! i) eqn:Ha.
        -- by rewrite (lookup_app_l_Some _ _ _ _ Ha).
        -- apply lookup_ge_None in Ha. rewrite lookup_app_r by done.
           rewrite lookup_replicate_2 by lia. done.
    + case_bool_decide.
      * rewrite lookup_take_lt by done.
        destruct (styles !! i) eqn:Ha; [done|]. apply lookup_ge_None in Ha. lia.
      * destruct (styles !! i) eqn:Ha.
        -- by rewrite (lookup_app_l_Some _ _ _ _ Ha).
        -- apply lookup_ge_None in Ha. rewrite lookup_app_r by done.
           rewrite lookup_replicate_2 by lia. done.
Qed.

Lemma extend_one_per_column_witness :
  extendAligns [AlignRight] 3 = [AlignRight; AlignLeft; AlignLeft]
  ∧ extendAligns [AlignRight; AlignCenter] 1 !! 0%nat = Some AlignRight.
Proof.
  split; [reflexivity|].
  by destruct (extend_one_per_column [AlignRight; AlignCenter] [] 1)
    as (_ & _ & Hcol); destruct (Hcol 0%nat) as [-> _]; [lia|].
Defined.

(** X14.  The loop of [writeTable] over [MaxWidths] only narrows: a column
    with a positive maximum gets the smaller of its width and the
    maximum; a column whose maximum is zero, negative or not given keeps
    its width; and maxima past the last column are ignored. *)
Theorem clamp_widths_bounds (numCols : nat) (maxs widths : list Z) :
  length widths = numCols →
  length (clamp_widths numCols 0 maxs widths) = numCols
  ∧ ∀ i w, widths !! i = Some w →
      ∃ w', clamp_widths numCols 0 maxs widths !! i = Some w'
        ∧ w' ≤ w
        ∧ (∀ m, maxs !! i = Some m → 0 < m → w' = Z.min m w)
        ∧ (∀ m, maxs !! i = Some m → m ≤ 0 → w' = w)
        ∧ (maxs !! i = None → w' = w).
Proof.
  intros Hlen. split; [by rewrite clamp_widths_length|].
  intros i w Hi. rewrite clamp_widths_lookup by done.
  rewrite bool_decide_eq_true_2, Nat.sub_0_r, Hi by lia.
  eexists. split; [reflexivity|]. unfold clamp.
  destruct (maxs !! i) as [m|].
  - destruct (Z.ltb_spec 0 m), (Z.ltb_spec m w); cbn [andb];
      split_and!; try lia; try (intros m' [= <-]; lia); done.
  - split_and!; [lia| | |]; done.
Qed.

Lemma clamp_widths_bounds_witness :
  ∃ w', clamp_widths 3 0 [4; 0; 9; 1] [9; 9; 9] !! 0%nat = Some w'
    ∧ w' ≤ 9
    ∧ (∀ m, [4; 0; 9; 1] !! 0%nat = Some m → 0 < m → w' = Z.min m 9)
    ∧ (∀ m, [4; 0; 9; 1] !! 0%nat = Some m → m ≤ 0 → w' = 9)
    ∧ ([4; 0; 9; 1] !! 0%nat = None → w' = 9).
Proof.
  destruct (clamp_widths_bounds 3 [4; 0; 9; 1] [9; 9; 9] eq_refl) as [_ Hcol].
  exact (Hcol 0%nat 9 eq_refl).
Defined.

(** ** Cells: wrapping, padding, formatting *)

Section CellFacts.
Context `{Runewidth}.

(** A line fits the wrap width, or it is one character that is wider
    than the wrap width on its own. *)
Definition wrapped_line_fits (width : Z) (line : gostring) : Prop :=
  StringWidth line ≤ width ∨ ∃ r, line = [r] ∧ width < RuneWidth r.

Lemma wrapCell_body_fits (width : Z) (lines : list gostring) (s : gostring) :
  s ≠ [] →
  ∃ line rest, wrapCell_body width (lines, s) = (lines ++ [line], rest)
               ∧ line ≠ [] ∧ (0 ≤ width → wrapped_line_fits width line).
Proof.
  intros Hs. unfold wrapCell_body.
  destruct (Z.eqb_spec (StringWidth (Truncate s width [])) 0) as [Hz|Hz]; simpl.
  - destruct s as [|r s]; [done|].
    rewrite bool_decide_eq_true_2 by (simpl; lia).
    exists [r], (drop 1 (r :: s)). split; [done|]. split; [done|]. intros _.
    destruct (Z.le_gt_cases (RuneWidth r) width).
    + left. rewrite StringWidth_single. lia.
    + right. by exists r.
  - eexists _, _. split; [reflexivity|]. split.
    + by intros Heq; rewrite Heq, StringWidth_nil in Hz.
    + intros Hw. left. by apply Truncate_width_nil.
Qed.

Lemma wrapCell_loop_fits (width : Z) (fuel : nat) :
  ∀ (lines : list gostring) (s : gostring) (out : list gostring),
    wrapCell_loop fuel width (lines, s) = Some out →
    (Forall (λ line, line ≠ []) lines → Forall (λ line, line ≠ []) out)
    ∧ (0 ≤ width → Forall (wrapped_line_fits width) lines →
       Forall (wrapped_line_fits width) out).
Proof.
  induction fuel as [|fuel IH]; intros lines s out Hout.
  - destruct s; [|done]. by injection Hout as <-.
  - destruct s as [|r s]; [by injection Hout as <-|].
    destruct (wrapCell_body_fits width lines (r :: s)) as (line & rest & Hb & Hne & Hfit);
      [done|].
    cbn [wrapCell_loop snd] in Hout. rewrite Hb in Hout.
    destruct (IH _ _ _ Hout) as [IH1 IH2]. split.
    + intros Hl. apply IH1. apply Forall_app. by split; [|repeat constructor].
    + intros Hw Hl. apply IH2; [done|]. apply Forall_app.
      split; [done|]. constructor; [by apply Hfit|constructor].
Qed.

(** X15.  The lines of a wrapped cell.  With a wrap width of zero or less the
    cell is not wrapped.  With a positive wrap width every line fits the
    wrap width, unless it is a single character that is wider than the
    wrap width by itself.  And no line of a cell that is not empty is
    empty. *)
Theorem wrapCell_lines_fit (s : gostring) (width : Z) :
  (width ≤ 0 → wrapCell s width = [s])
  ∧ (0 < width → Forall (wrapped_line_fits width) (wrapCell s width))
  ∧ (s ≠ [] → Forall (λ line, line ≠ []) (wrapCell s width)).
Proof.
  destruct (wrapCell_run_enough s width (length s)) as (out & Hrun & Hout & _); [done|].
  rewrite Hout. unfold wrapCell_run in Hrun.
  destruct (Z.leb_spec width 0) as [Hw|Hw]; cbn [orb] in Hrun.
  { injection Hrun as <-. split_and!; [done|lia|by repeat constructor]. }
  destruct (Z.leb_spec (StringWidth s) width) as [Hs|Hs].
  { injection Hrun as <-. split_and!; [lia| |by repeat constructor].
    intros _. constructor; [by left|constructor]. }
  destruct (wrapCell_loop_fits width _ _ _ _ Hrun) as [Hne Hfit].
  split_and!; [lia| |].
  - intros _. apply Hfit; [lia|constructor].
  - intros _. apply Hne. constructor.
Qed.

(** X16.  A wrapped row has one list of lines per column; the lines of a
    column put end to end are the cell of the column (the empty string in
    a row that is too short), so the text of a row survives wrapping; the
    row takes as many display lines as its longest column, at least one,
    and reading a column down all of them gives its cell back. *)
Theorem wrapRow_keeps_text (cells : list gostring) (widths wrapWidths : list Z) :
  let wrapped := wrapRow cells widths wrapWidths in
  length wrapped = length widths
  ∧ (1 ≤ maxLines wrapped)%nat
  ∧ ∀ i, (i < length widths)%nat →
      ∃ lines, wrapped !! i = Some lines
        ∧ (1 ≤ length lines ≤ maxLines wrapped)%nat
        ∧ concat lines = cell_at cells i
        ∧ concat ((λ line, wrapped_at wrapped i line) <$> seq 0 (maxLines wrapped))
          = cell_at cells i.
Proof.
  intros wrapped.
  pose proof (maxLines_foldl wrapped 1) as [Hone Hall]. fold (maxLines wrapped) in Hone, Hall.
  split_and!; [by unfold wrapped, wrapRow; rewrite length_imap|done|].
  intros i Hi. destruct (lookup_lt_is_Some_2 widths i Hi) as [width Hwidth].
  assert (∃ lines, wrapped !! i = Some lines
                   ∧ (1 ≤ length lines)%nat ∧ concat lines = cell_at cells i)
    as (lines & Hlines & Hlen & Hcat).
  { unfold wrapped, wrapRow. rewrite list_lookup_imap, Hwidth. cbn [fmap option_fmap option_map].
    eexists. split; [reflexivity|]. fold (cell_at cells i).
    destruct ((0 <? default 0 (wrapWidths !! i)) && (default 0 (wrapWidths !! i) <? width)).
    - split; [apply wrapCell_length|].
      by destruct (wrapCell_run_enough (cell_at cells i) (default 0 (wrapWidths !! i))
                     (length (cell_at cells i))) as (out & _ & -> & Hcat).
    - split; [done|]. simpl. by rewrite app_nil_r. }
  exists lines. split; [done|].
  assert (length lines ≤ maxLines wrapped)%nat as Hmax.
  { apply (proj1 (Forall_forall _ _) Hall). by eapply list_elem_of_lookup_2. }
  split_and!; [done|done|done|].
  rewrite <- Hcat, <- (concat_lines_upto lines (maxLines wrapped) Hmax).
  f_equal. apply list_fmap_ext. intros k line _. unfold wrapped_at. by rewrite Hlines.
Qed.

(** X17.  [alignCell] never removes text: it returns the cell between two runs
    of spaces that together make up what the cell lacks to the width
    (nothing, for a cell at least as wide); none is put on the left of a
    left-aligned cell, none on the right of a right-aligned one, and a
    centred cell gets the odd space on its right.  On text of
    stand-alone characters and marks of no width the result is as wide
    as the column, or as the cell when that is wider. *)
Theorem alignCell_pads (s : gostring) (width : Z) (align : Alignment) :
  (∃ left right,
     alignCell s width align = Repeat (lit " ") left ++ s ++ Repeat (lit " ") right
     ∧ 0 ≤ left ∧ 0 ≤ right
     ∧ left + right = Z.max 0 (width - StringWidth s)
     ∧ match align with
       | AlignLeft => left = 0
       | AlignRight => right = 0
       | AlignCenter => left ≤ right ≤ left + 1
       end)
  ∧ (simple s → StringWidth (alignCell s width align) = Z.max width (StringWidth s)).
Proof.
  split; [|intros Hs; by apply alignCell_simple].
  set (pad := width - StringWidth s).
  destruct (Z.leb_spec pad 0) as [Hpad|Hpad].
  - exists 0, 0. unfold alignCell. fold pad.
    destruct (Z.leb_spec pad 0); [|lia].
    split_and!; [by rewrite app_nil_r|done|done|lia|by destruct align].
  - assert (0 ≤ pad / 2 ∧ 2 * (pad / 2) ≤ pad ≤ 2 * (pad / 2) + 1) as Hhalf.
    { pose proof (Z.div_mod pad 2). pose proof (Z.mod_pos_bound pad 2).
      split; [apply Z.div_pos; lia|lia]. }
    exists (match align with AlignLeft => 0 | AlignRight => pad | AlignCenter => pad / 2 end),
           (match align with AlignLeft => pad | AlignRight => 0
                           | AlignCenter => pad - pad / 2 end).
    split_and!.
    + unfold alignCell. fold pad. destruct (Z.leb_spec pad 0); [lia|].
      destruct align; [done..|]. by rewrite app_nil_r.
    + destruct align; lia.
    + destruct align; lia.
    + destruct align; lia.
    + destruct align; lia.
Qed.

(** X18.  In a column of positive width a cell that fits is only padded; and
    on text of stand-alone characters and marks of no width a formatted
    cell is exactly as wide as the column, and formatting what has been
    formatted changes nothing. *)
Theorem formatTableCell_fills (s : gostring) (width : Z) (align : Alignment) :
  0 < width →
  (StringWidth s ≤ width → formatTableCell s width align = alignCell s width align)
  ∧ (simple s →
     StringWidth (formatTableCell s width align) = width
     ∧ formatTableCell (formatTableCell s width align) width align
       = formatTableCell s width align).
Proof.
  intros Hw. split.
  - intros Hs. unfold formatTableCell.
    destruct (Z.ltb_spec width (StringWidth s)); [lia|]. by rewrite andb_false_r.
  - intros Hs.
    destruct (formatTableCell_simple s width align Hs) as [_ Hfill]; [by left|].
    split; [done|].
    unfold formatTableCell at 1. rewrite Hfill, Z.ltb_irrefl, andb_false_r.
    by apply alignCell_exact.
Qed.

End CellFacts.

Lemma computeWidths_columns_witness :
  let header := [lit "Name"; lit "Age"] in
  let rows := [[lit "Alexander"]; [[ni; hao]; lit "7"; lit "x"]] in
  @computeWidths example_widths (colCount header rows []) header rows [] !! 0%nat = Some 9
  ∧ ∃ w, @computeWidths example_widths (colCount header rows []) header rows [] !! 2%nat
         = Some w
         ∧ @StringWidth example_widths (lit "x") ≤ w.
Proof.
  intros header rows.
  destruct (@computeWidths_columns example_widths header rows [])
    as (_ & _ & _ & Hcol & Hfit).
  split.
  - rewrite Hcol by (vm_compute; lia). reflexivity.
  - apply (Hfit [[ni; hao]; lit "7"; lit "x"] 2%nat (lit "x")); [|reflexivity].
    rewrite !elem_of_cons. by do 3 right; left.
Defined.

Lemma wrapCell_lines_fit_witness :
  @wrapCell example_widths (lit "Hello") 0 = [lit "Hello"]
  ∧ Forall (@wrapped_line_fits example_widths 1) (@wrapCell example_widths [ni; 97] 1)
  ∧ Forall (λ line, line ≠ []) (@wrapCell example_widths [ni; 97] 1).
Proof.
  destruct (@wrapCell_lines_fit example_widths (lit "Hello") 0) as (Hzero & _ & _).
  destruct (@wrapCell_lines_fit example_widths [ni; 97] 1) as (_ & Hfit & Hne).
  split_and!; [apply Hzero; lia|apply Hfit; lia|by apply Hne].
Defined.

Lemma wrapRow_keeps_text_witness :
  let wrapped := @wrapRow example_widths [lit "Hello world"; lit "ok"] [11; 2] [4; 0] in
  ∃ lines, wrapped !! 0%nat = Some lines
    ∧ (1 ≤ length lines ≤ maxLines wrapped)%nat
    ∧ concat lines = lit "Hello world"
    ∧ concat ((λ line, wrapped_at wrapped 0 line) <$> seq 0 (maxLines wrapped))
      = lit "Hello world".
Proof.
  intros wrapped.
  destruct (@wrapRow_keeps_text example_widths [lit "Hello world"; lit "ok"] [11; 2] [4; 0])
    as (_ & _ & Hcol).
  apply (Hcol 0%nat). simpl. lia.
Defined.

Lemma alignCell_pads_witness :
  @StringWidth example_widths (@alignCell example_widths [ni; 0x301] 5 AlignCenter) = 5.
Proof.
  destruct (@alignCell_pads example_widths [ni; 0x301] 5 AlignCenter) as [_ Hw].
  rewrite Hw; [reflexivity|]. by repeat constructor.
Defined.

Lemma formatTableCell_fills_witness :
  @StringWidth example_widths (@formatTableCell example_widths [ni; hao; ni] 4 AlignRight)
  = 4
  ∧ @formatTableCell example_widths (lit "ab") 4 AlignRight = lit "  ab".
Proof.
  destruct (@formatTableCell_fills example_widths [ni; hao; ni] 4 AlignRight)
    as (_ & Hsimple); [lia|].
  destruct (@formatTableCell_fills example_widths (lit "ab") 4 AlignRight) as (Hpad & _);
    [lia|].
  split.
  - apply Hsimple. by repeat constructor.
  - rewrite Hpad by (vm_compute; discriminate). reflexivity.
Defined.

(** ** Markdown rows line up *)

Section MarkdownLines.
Context `{Runewidth}.

Lemma RunesWidth_Join (cells : list gostring) (widths : list Z) (sep : gostring) :
  Forall2 (λ c w, plain c ∧ RunesWidth c = w) cells widths →
  RunesWidth (Join cells sep)
  = foldr Z.add 0 widths + Z.max 0 (Z.of_nat (length widths) - 1) * RunesWidth sep.
Proof.
  induction 1 as [|c w cells widths [_ Hc] Hrest IH]; [done|].
  destruct Hrest as [|c' w' cells widths Hc' Hrest].
  - simpl. lia.
  - change (Join (c :: c' :: cells) sep) with (c ++ sep ++ Join (c' :: cells) sep).
    rewrite !RunesWidth_app, IH, Hc. cbn [foldr length].
    pose proof (RunesWidth_nonneg sep). nia.
Qed.

Lemma plain_Join (cells : list gostring) (widths : list Z) (sep : gostring) :
  Forall2 (λ c w, plain c ∧ RunesWidth c = w) cells widths → plain sep →
  plain (Join cells sep).
Proof.
  intros Hcells Hsep. induction Hcells as [|c w cells widths [Hc _] Hrest IH]; [constructor|].
  destruct Hrest as [|c' w' cells widths Hc' Hrest]; [done|].
  change (Join (c :: c' :: cells) sep) with (c ++ sep ++ Join (c' :: cells) sep).
  repeat (apply Forall_app; split); done.
Qed.

Lemma Forall2_imap_widths (f : nat → Z → gostring) (widths : list Z) :
  (∀ i w, widths !! i = Some w → plain (f i w) ∧ RunesWidth (f i w) = w) →
  Forall2 (λ c w, plain c ∧ RunesWidth c = w) (imap f widths) widths.
Proof.
  revert f. induction widths as [|w widths IH]; intros f Hf; [constructor|].
  cbn [imap]. constructor; [by apply (Hf 0%nat)|].
  apply IH. intros i w' Hi. by apply (Hf (S i)).
Qed.

(** The display width of a Markdown line for the given column widths,
    without its newline. *)
Definition markdown_line_width (widths : list Z) : Z :=
  4 + foldr Z.add 0 widths + Z.max 0 (Z.of_nat (length widths) - 1) * 3.

Lemma markdown_line (parts : list gostring) (widths : list Z) :
  Forall2 (λ c w, plain c ∧ RunesWidth c = w) parts widths →
  line_of_width (markdown_line_width widths)
    (lit "| " ++ Join parts (lit " | ") ++ lit " |" ++ [nl]).
Proof.
  intros Hparts.
  assert (Forall (λ r, 32 ≤ r < 127) (lit "| ")) as H1
    by (change (lit "| ") with [124; 32]; repeat (apply Forall_cons; split; [lia|]); constructor).
  assert (Forall (λ r, 32 ≤ r < 127) (lit " | ")) as H2
    by (change (lit " | ") with [32; 124; 32];
        repeat (apply Forall_cons; split; [lia|]); constructor).
  assert (Forall (λ r, 32 ≤ r < 127) (lit " |")) as H3
    by (change (lit " |") with [32; 124]; repeat (apply Forall_cons; split; [lia|]); constructor).
  assert (plain (lit "| " ++ Join parts (lit " | ") ++ lit " |")) as Hplain.
  { repeat (apply Forall_app; split); try (by apply plain_ascii).
    eapply plain_Join; [done|by apply plain_ascii]. }
  exists (lit "| " ++ Join parts (lit " | ") ++ lit " |").
  split; [by rewrite <- !app_assoc|]. split; [by apply plain_one_line|].
  rewrite (plain_StringWidth _ Hplain).
  rewrite !RunesWidth_app, (RunesWidth_Join _ _ _ Hparts).
  rewrite !RunesWidth_ascii by done.
  unfold markdown_line_width. simpl. lia.
Qed.

Lemma writeMarkdownRow_line (cells : list gostring) (widths : list Z)
    (aligns : list Alignment) :
  Forall plain cells →
  (∀ i w, widths !! i = Some w → StringWidth (cell_at cells i) ≤ w) →
  writes (line_of_width (markdown_line_width widths)) (writeMarkdownRow cells widths aligns).
Proof.
  intros Hplain Hfit. unfold writeMarkdownRow. cbv zeta. apply writes_write, markdown_line.
  apply Forall2_imap_widths. intros i w Hi.
  pose proof (plain_cell_at cells i Hplain) as Hcell. unfold cell_at in Hcell, Hfit.
  specialize (Hfit i w Hi).
  destruct (alignCell_simple (default [] (cells !! i)) w (default AlignLeft (aligns !! i))
              (plain_simple _ Hcell)) as [_ Hw].
  assert (plain (alignCell (default [] (cells !! i)) w (default AlignLeft (aligns !! i))))
    as Hp by (apply Forall_alignCell; [apply plain_rune_ascii; lia|done]).
  split; [done|]. rewrite <- (plain_StringWidth _ Hp), Hw. lia.
Qed.

Lemma writeMarkdown_sep_line (widths : list Z) (aligns : list Alignment) :
  Forall (λ w, 3 ≤ w) widths →
  line_of_width (markdown_line_width widths)
    (lit "| " ++ Join (writeMarkdown_sep widths aligns) (lit " | ") ++ lit " |" ++ [nl]).
Proof.
  intros Hw. apply markdown_line. unfold writeMarkdown_sep.
  apply Forall2_imap_widths. intros i w Hi.
  pose proof (proj1 (Forall_lookup _ _) Hw i w Hi) as Hge. cbv beta in Hge.
  change (lit "-") with [45]. change (lit ":") with [58].
  assert (Forall (λ r, 32 ≤ r < 127) [45]) as Hdash
    by (apply Forall_cons; split; [lia|constructor]).
  assert (Forall (λ r, 32 ≤ r < 127) [58]) as Hcolon
    by (apply Forall_cons; split; [lia|constructor]).
  assert (∀ n, plain (Repeat [45] n)) as Hrep
    by (intros n; by apply Forall_Repeat, plain_ascii).
  pose proof (plain_ascii _ Hcolon) as Hpc.
  destruct (default AlignLeft (aligns !! i));
    (split; [first [apply Hrep
                   |repeat (apply Forall_app; split); first [apply Hrep|apply Hpc]]|]);
    rewrite ?RunesWidth_app, ?RunesWidth_Repeat by lia;
    rewrite !RunesWidth_ascii by done; simpl; lia.
Qed.

(** X19.  The rows of a Markdown table line up.  When the first item is not a
    [Formatter] and has a header, every item has a row, and the cells of
    the header and of the rows are plain text (stand-alone characters
    and marks of no width, without a line break), [Write] returns no
    error and writes one line per write: the header, the separator and
    one line per item; and all these lines have the same display width,
    whatever the width of the characters in the cells (cells past the
    last header column are left out). *)
Theorem markdown_lines_aligned `{Externals} (first : Item) (rest : list Item)
    (header : list gostring) :
  let items := first :: rest in
  let widths := writeMarkdown_widths header (rows_of items) in
  Formatter_Format first = None →
  Headed_Header first = Some header →
  Forall (λ item, is_Some (Rower_Row item)) items →
  Forall (Forall plain) (header :: rows_of items) →
  ∃ out,
    Write Markdown (Some items) = (out, Ok tt)
    ∧ length out = (length items + 2)%nat
    ∧ Forall (line_of_width (markdown_line_width widths)) out.
Proof.
  intros items widths Hfmt Hh Hrows Hplain. subst items.
  rewrite Forall_forall in Hplain.
  pose proof (Forall_inv Hrows) as [row Hrow].
  rewrite Write_render by done. rewrite render_Markdown. unfold writeMarkdown.
  change (elems (Some (first :: rest))) with (first :: rest). cbv iota beta.
  rewrite Hrow, Hh, (collect_assert Rower_Row [] (first :: rest) Hrows), W_left_id.
  fold (rows_of (first :: rest)). cbv zeta. fold widths.
  set (aligns := extendAligns (default [] (Aligned_Alignments first)) (length header)).
  assert (∀ cells i w, cells ∈ header :: rows_of (first :: rest) →
            widths !! i = Some w → 3 ≤ w ∧ StringWidth (cell_at cells i) ≤ w) as Hfit.
  { intros cells i w Hin Hi. unfold widths in Hi.
    assert (i < length header)%nat as Hlt.
    { apply lookup_lt_Some in Hi. by rewrite writeMarkdown_widths_length in Hi. }
    rewrite writeMarkdown_widths_lookup in Hi by done.
    assert (StringWidth (cell_at cells i)
            ≤ Zmax_list (column i (header :: rows_of (first :: rest)))) as Hmax;
      [|revert Hi Hmax; generalize (Zmax_list (column i (header :: rows_of (first :: rest))));
        intros M [= <-] Hmax; lia].
    apply Zmax_list_ge. unfold column. apply list_elem_of_fmap. by exists cells. }
  destruct (range_writeMarkdownRow (rows_of (first :: rest)) widths aligns)
    as (out & Hout & Hlen).
  assert (Forall (line_of_width (markdown_line_width widths)) out) as Hlines.
  { assert (writes (line_of_width (markdown_line_width widths))
              (range (rows_of (first :: rest)) (λ row, writeMarkdownRow row widths aligns)))
      as [Hall _].
    { apply writes_range. intros cells Hin.
      apply writeMarkdownRow_line; [apply Hplain; by right|].
      intros i w Hi. apply (Hfit cells i w); [by right|done]. }
    by rewrite Hout in Hall. }
  destruct (writeMarkdownRow_line header widths aligns) as [Hhead _].
  { apply Hplain. by left. }
  { intros i w Hi. apply (Hfit header i w); [by left|done]. }
  rewrite Hout. unfold writeMarkdownRow in *. cbv zeta in *.
  eexists. split; [reflexivity|]. split.
  - simpl. unfold rows_of in Hlen. rewrite length_fmap in Hlen. simpl in Hlen. lia.
  - cbn [fst write] in Hhead. apply Forall_inv in Hhead.
    cbn [app]. constructor; [exact Hhead|]. constructor; [|done].
    apply writeMarkdown_sep_line. apply Forall_lookup. intros i w Hi.
    apply (Hfit header i w); [by left|done].
Qed.

End MarkdownLines.

Lemma markdown_lines_aligned_witness :
  let first := table_item [lit "a"; [ni; hao]; lit "dropped"] (Some [lit "X"; lit "Y"])
                 None None (Some [AlignCenter; AlignRight]) None None in
  ∃ out,
    @Write example_widths example_externals Markdown (Some [first; first]) = (out, Ok tt)
    ∧ length out = 4%nat
    ∧ Forall (@line_of_width example_widths 14) out.
Proof.
  intros first.
  destruct (@markdown_lines_aligned example_widths example_externals first [first]
              [lit "X"; lit "Y"]) as (out & HW & Hlen & Hall);
    [reflexivity|reflexivity|repeat constructor; by eexists
    |repeat constructor; discriminate|].
  exists out. split_and!; [exact HW|exact Hlen|exact Hall].
Defined.

(** ** Borderless tables, lists and ENV blocks *)

(** The item [x] with another answer to [Titled]. *)
Definition with_title (title : option gostring) (x : Item) : Item :=
  {| type_name := type_name x; default_text := default_text x;
     json_value := json_value x; json_error := json_error x;
     Stringer_String := Stringer_String x; Formatter_Format := Formatter_Format x;
     Indented_Indent := Indented_Indent x;
     Rower_Row := Rower_Row x; Lister_List := Lister_List x;
     Mappable_Pairs := Mappable_Pairs x;
     Headed_Header := Headed_Header x; Titled_Title := title;
     Bordered_Border := Bordered_Border x;
     Aligned_Alignments := Aligned_Alignments x; Footered_Footer := Footered_Footer x;
     Numbered_NumberHeader := Numbered_NumberHeader x;
     Captioned_Caption := Captioned_Caption x;
     Truncated_MaxWidths := Truncated_MaxWidths x;
     Delimited_Delimiter := Delimited_Delimiter x;
     Separator_Sep := Separator_Sep x; Exported_Export := Exported_Export x;
     Quoted_Quote := Quoted_Quote x;
     Styled_Styles := Styled_Styles x; Grouped_Group := Grouped_Group x;
     Wrapped_WrapWidths := Wrapped_WrapWidths x;
     Paged_PageSize := Paged_PageSize x |}.

Section PlainFacts.
Context `{Runewidth} `{Externals}.

(** The title is the only part of the layout that [Titled] decides. *)
Lemma writeTable_layout_title (first : Item) (title : option gostring)
    (rows : list (list gostring)) (groups : list gostring) :
  let l' := writeTable_layout (with_title title first) rows groups in
  let l := writeTable_layout first rows groups in
  l_header l' = l_header l ∧ l_rows l' = l_rows l ∧ l_footer l' = l_footer l
  ∧ l_aligns l' = l_aligns l ∧ l_border l' = l_border l ∧ l_styles l' = l_styles l
  ∧ l_groups l' = l_groups l ∧ l_wrapWidths l' = l_wrapWidths l
  ∧ l_pageSize l' = l_pageSize l ∧ l_caption l' = l_caption l
  ∧ l_widths l' = l_widths l.
Proof.
  unfold writeTable_layout. cbn [with_title Headed_Header Titled_Title Bordered_Border
    Aligned_Alignments Footered_Footer Captioned_Caption Styled_Styles Wrapped_WrapWidths
    Paged_PageSize Numbered_NumberHeader Truncated_MaxWidths].
  destruct (Numbered_NumberHeader first); repeat split.
Qed.

(** X20.  A table without borders has no title line: with [BorderNone] on a
    first item that is not a [Formatter], what [Titled] answers, or
    whether the item implements it at all, changes nothing of what
    [Write] does. *)
Theorem plain_table_has_no_title (first : Item) (rest : list Item)
    (title : option gostring) :
  Formatter_Format first = None →
  Bordered_Border first = Some BorderNone →
  Write Table (Some (with_title title first :: rest))
  = Write Table (Some (first :: rest)).
Proof.
  intros Hfmt Hborder.
  assert (∀ rows groups,
            l_border (writeTable_layout first rows groups) = BorderNone) as Hnone.
  { intros rows groups. unfold writeTable_layout. rewrite Hborder.
    by destruct (Numbered_NumberHeader first). }
  assert (writeTable (Some (with_title title first :: rest))
          = writeTable (Some (first :: rest))) as Htable.
  { unfold writeTable.
    change (elems (Some (with_title title first :: rest)))
      with (with_title title first :: rest).
    change (elems (Some (first :: rest))) with (first :: rest). cbv iota beta.
    cbn [collect].
    change (Rower_Row (with_title title first)) with (Rower_Row first).
    change (Grouped_Group (with_title title first)) with (Grouped_Group first).
    destruct (Rower_Row first) as [row|] eqn:Hrow; [|done].
    cbn [assert]. rewrite !W_ret_bind.
    destruct (collect rest (λ item, assert (Rower_Row item))) as [out [rows| |]];
      [|done..].
    rewrite !W_ok_bind. cbn [mret W_ret fst snd]. rewrite !W_ok_bind.
    set (groups := match Grouped_Group first with
                   | Some _ => _
                   | None => _
                   end).
    destruct groups as [out' [groups| |]]; [|done..].
    rewrite !W_ok_bind. cbv zeta.
    destruct (writeTable_layout_title first title (row :: rows) groups)
      as (-> & -> & -> & -> & -> & -> & -> & -> & -> & -> & ->).
    by rewrite !(bool_decide_eq_true_2 _ (Hnone _ _)). }
  unfold Write.
  change (elems (Some (with_title title first :: rest))) with (with_title title first :: rest).
  change (elems (Some (first :: rest))) with (first :: rest). cbv iota beta.
  change (Formatter_Format (with_title title first)) with (Formatter_Format first).
  rewrite Hfmt. exact Htable.
Qed.

End PlainFacts.

Lemma plain_table_has_no_title_witness :
  let first := table_item [lit "Alice"; lit "30"] (Some [lit "Name"; lit "Age"])
                 None (Some BorderNone) None None None in
  @Write example_widths example_externals Table
    (Some [with_title (Some (lit "People")) first; first])
  = @Write example_widths example_externals Table (Some [first; first]).
Proof.
  intros first.
  by apply (@plain_table_has_no_title example_widths example_externals first [first]).
Defined.

Lemma collect_assert_crash {A} (f : Item → option A) (items : list Item) :
  Exists (λ item, f item = None) items →
  collect items (λ item, assert (f item)) = ([], Crash).
Proof.
  induction items as [|x items IH]; intros Hex; [by apply Exists_nil in Hex|].
  cbn [collect]. destruct (f x) as [a|] eqn:Hx; [|done].
  cbn [assert]. rewrite W_ret_bind.
  apply Exists_cons in Hex as [Hex|Hex]; [congruence|].
  by rewrite (IH Hex).
Qed.

Section ListFacts.
Context `{Runewidth} `{Externals}.

(** X21.  The List format flattens.  When the first item is not a [Formatter]
    and every item is a [Lister], [Write] makes one write of the entries
    of all the items, in order, joined by the separator of the first item
    (a newline by default) and ended by one newline, and it writes
    nothing at all when there is no entry.  When the first item is a
    [Lister] and a later one is not, the call panics before anything is
    written. *)
Theorem Write_List_flat (first : Item) (rest : list Item) :
  let items := first :: rest in
  let entries := concat ((λ item, default [] (Lister_List item)) <$> items) in
  let sep := default [nl] (Separator_Sep first) in
  Formatter_Format first = None →
  (Forall (λ item, is_Some (Lister_List item)) items →
   Write List (Some items)
   = if bool_decide (entries = []) then ([], Ok tt)
     else ([Join entries sep ++ [nl]], Ok tt))
  ∧ (is_Some (Lister_List first) → Exists (λ item, Lister_List item = None) rest →
     Write List (Some items) = ([], Crash)).
Proof.
  intros items entries sep Hfmt. subst items.
  rewrite Write_render by done. rewrite render_List. unfold writeList.
  change (elems (Some (first :: rest))) with (first :: rest). cbv iota beta zeta.
  split.
  - intros Hall. pose proof (Forall_inv Hall) as [l Hl]. rewrite Hl.
    rewrite (collect_assert Lister_List [] (first :: rest) Hall), W_left_id.
    fold entries. fold sep. by case_bool_decide.
  - intros [l Hl] Hex. rewrite Hl.
    by rewrite (collect_assert_crash Lister_List (first :: rest))
      by (by apply Exists_cons_tl).
Qed.

(** One line of ENV output. *)
Definition env_line (export quoted : bool) (kv : KeyValue) : gostring :=
  (if export then lit "export " else []) ++ Key kv ++ lit "="
  ++ (if quoted then strconv_Quote (Value kv) else Value kv) ++ [nl].

(** The lines of the pairs of one item. *)
Definition env_block (export quoted : bool) (item : Item) : gostring :=
  concat (env_line export quoted <$> default [] (Mappable_Pairs item)).

Lemma range_env_lines (export quoted : bool) (pairs : list KeyValue) :
  range pairs (λ kv,
    if quoted
    then write ((if export then lit "export " else []) ++ Key kv ++ lit "="
                ++ strconv_Quote (Value kv) ++ [nl])
    else write ((if export then lit "export " else []) ++ Key kv ++ lit "="
                ++ Value kv ++ [nl]))
  = (env_line export quoted <$> pairs, Ok tt).
Proof.
  induction pairs as [|kv pairs IH]; [done|].
  cbn [range]. rewrite IH. unfold env_line. by destruct quoted.
Qed.

Lemma range_from_env (export quoted : bool) (items : list Item) (i : nat) :
  Forall (λ item, is_Some (Mappable_Pairs item)) items →
  ∃ out,
    range_from i items (λ i item,
      (if bool_decide (0 < i)%nat then Fprintln [] else mret tt) ;;
      pairs ← assert (Mappable_Pairs item);
      range pairs (λ kv,
        if quoted
        then write ((if export then lit "export " else []) ++ Key kv ++ lit "="
                    ++ strconv_Quote (Value kv) ++ [nl])
        else write ((if export then lit "export " else []) ++ Key kv ++ lit "="
                    ++ Value kv ++ [nl])))
    = (out, Ok tt)
    ∧ concat out
      = match items with
        | [] => []
        | item :: rest =>
            (if bool_decide (0 < i)%nat then [nl] else [])
            ++ env_block export quoted item
            ++ concat ((λ item, [nl] ++ env_block export quoted item) <$> rest)
        end.
Proof.
  intros Hall. revert i. induction Hall as [|item items [pairs Hp] _ IH]; intros i.
  { by exists []. }
  destruct (IH (S i)) as (out & Hout & Hcat).
  rewrite (bool_decide_eq_true_2 (0 < S i)%nat) in Hcat by lia.
  cbn [range_from]. rewrite Hout, Hp. cbn [assert]. rewrite W_ret_bind, range_env_lines.
  exists ((if bool_decide (0 < i)%nat then [[nl]] else [])
          ++ (env_line export quoted <$> pairs) ++ out).
  split.
  - destruct (bool_decide (0 < i)%nat); W_run; by rewrite <- ?app_assoc.
  - unfold env_block at 1. rewrite Hp. cbn [default from_option id].
    rewrite !concat_app, Hcat.
    destruct (bool_decide (0 < i)%nat); destruct items as [|item' items];
      simpl; by rewrite ?app_nil_r.
Qed.

(** X22.  ENV output is made of blocks.  When the first item is not a
    [Formatter] and every item is [Mappable], [Write] returns no error
    and writes, for every item, one line [KEY=VALUE] per pair, with the
    prefix [export ] and the quoting that the first item asks for, and
    one empty line between the blocks of two items. *)
Theorem Write_ENV_blocks (first : Item) (rest : list Item) :
  let items := first :: rest in
  let export := default false (Exported_Export first) in
  let quoted := default false (Quoted_Quote first) in
  Formatter_Format first = None →
  Forall (λ item, is_Some (Mappable_Pairs item)) items →
  (Write ENV (Some items)).2 = Ok tt
  ∧ bytes (Write ENV (Some items)) = Join (env_block export quoted <$> items) [nl].
Proof.
  intros items export quoted Hfmt Hall. subst items.
  pose proof (Forall_inv Hall) as [pairs Hp].
  rewrite Write_render by done. rewrite render_ENV. unfold writeENV.
  change (elems (Some (first :: rest))) with (first :: rest). cbv iota beta zeta.
  rewrite Hp. fold export. fold quoted.
  destruct (range_from_env export quoted (first :: rest) 0 Hall) as (out & Hout & Hcat).
  destruct export, quoted; cbv iota in *; rewrite Hout; (split; [done|]);
    unfold bytes; cbn [fst]; rewrite Hcat, fmap_cons, Join_cons, <- list_fmap_compose;
    reflexivity.
Qed.

End ListFacts.

Lemma Write_List_flat_witness :
  let lister (l : list gostring) (sep : option gostring) :=
    {| type_name := lit "main.names"; default_text := lit "{}"; json_value := None;
       json_error := ExternalError [];
       Stringer_String := None; Formatter_Format := None; Indented_Indent := None;
       Rower_Row := None; Lister_List := Some l; Mappable_Pairs := None;
       Headed_Header := None; Titled_Title := None; Bordered_Border := None;
       Aligned_Alignments := None; Footered_Footer := None;
       Numbered_NumberHeader := None; Captioned_Caption := None;
       Truncated_MaxWidths := None; Delimited_Delimiter := None;
       Separator_Sep := sep; Exported_Export := None; Quoted_Quote := None;
       Styled_Styles := None; Grouped_Group := None; Wrapped_WrapWidths := None;
       Paged_PageSize := None |} in
  @Write example_widths example_externals List
    (Some [lister [lit "a"; lit "b"] (Some (lit ", ")); lister [lit "c"] None])
  = ([lit "a, b, c" ++ [nl]], Ok tt)
  ∧ @Write example_widths example_externals List
      (Some [lister [lit "a"] None; string_item (lit "x")])
    = ([], Crash).
Proof.
  intros lister. split.
  - by rewrite (proj1 (@Write_List_flat example_widths example_externals
                         (lister [lit "a"; lit "b"] (Some (lit ", "))) [lister [lit "c"] None]
                         eq_refl))
      by (repeat constructor; by eexists).
  - apply (@Write_List_flat example_widths example_externals
             (lister [lit "a"] None) [string_item (lit "x")] eq_refl);
      [by eexists|by constructor].
Defined.

Lemma Write_ENV_blocks_witness :
  let env (kvs : list KeyValue) (export : option bool) :=
    {| type_name := lit "main.env"; default_text := lit "{}"; json_value := None;
       json_error := ExternalError [];
       Stringer_String := None; Formatter_Format := None; Indented_Indent := None;
       Rower_Row := None; Lister_List := None; Mappable_Pairs := Some kvs;
       Headed_Header := None; Titled_Title := None; Bordered_Border := None;
       Aligned_Alignments := None; Footered_Footer := None;
       Numbered_NumberHeader := None; Captioned_Caption := None;
       Truncated_MaxWidths := None; Delimited_Delimiter := None;
       Separator_Sep := None; Exported_Export := export; Quoted_Quote := None;
       Styled_Styles := None; Grouped_Group := None; Wrapped_WrapWidths := None;
       Paged_PageSize := None |} in
  bytes (@Write example_widths example_externals ENV
           (Some [env [{| Key := lit "A"; Value := lit "1" |}] (Some true);
                  env [{| Key := lit "B"; Value := lit "2" |}] None]))
  = lit "export A=1" ++ [nl] ++ [nl] ++ lit "export B=2" ++ [nl].
Proof.
  intros env.
  destruct (@Write_ENV_blocks example_widths example_externals
              (env [{| Key := lit "A"; Value := lit "1" |}] (Some true))
              [env [{| Key := lit "B"; Value := lit "2" |}] None] eq_refl)
    as [_ ->]; [repeat constructor; by eexists|reflexivity].
Defined.
